(** * Transkriptor worker: a shallow embedding of the Python core

    The development follows the layout of [src/python/transkriptor]:
    one module per source file, the definitions first and the properties
    of the specification afterwards.

    Modelling conventions.
    - A Python [float] is the rational it denotes ([Q]); [==] is equality
      of rationals.  [round(x, n)] is rounding to [n] decimals, ties to
      even, and stands for the float that prints as that decimal.  Sums
      and quotients of floats are written exactly where what is proved of
      them does not depend on their last bit; the sums that the driver
      rounds to milliseconds are binary64 sums ([Py.fadd]).
    - A Python [str] is the list of its Unicode code points ([list N]).
    - [raise] is the [Raises] outcome; a [while] loop is a fuelled
      fixpoint whose [OutOfFuel] outcome is shown unreachable.
    - External collaborators (ffprobe/ffmpeg, the remote and the local
      engines, the clock) are inputs of the functions that call them. *)

From Stdlib Require Import String Ascii DecimalString.
From Stdlib Require Import ZArith QArith Qround Qminmax Qabs Qpower Lqa Lia.
From Stdlib Require Import Bool List Permutation.
From Stdlib Require DecimalNat Sorted.
From stdpp Require Import gmap strings list.
Import ListNotations.

(* ===================================================================== *)
(** * Python strings *)
(* ===================================================================== *)

Module Str.

(** Decode the UTF-8 bytes of a literal into code points. *)
Fixpoint utf8_decode (bs : list N) : list N :=
  match bs with
  | [] => []
  | b :: rest =>
      if (b <? 128)%N then b :: utf8_decode rest
      else if (b <? 224)%N then
        match rest with
        | c1 :: r => ((b - 192) * 64 + (c1 - 128))%N :: utf8_decode r
        | _ => [65533%N]
        end
      else if (b <? 240)%N then
        match rest with
        | c1 :: c2 :: r =>
            ((b - 224) * 4096 + (c1 - 128) * 64 + (c2 - 128))%N :: utf8_decode r
        | _ => [65533%N]
        end
      else
        match rest with
        | c1 :: c2 :: c3 :: r =>
            ((b - 240) * 262144 + (c1 - 128) * 4096 + (c2 - 128) * 64 + (c3 - 128))%N
              :: utf8_decode r
        | _ => [65533%N]
        end
  end.

Definition lit (s : string) : list N :=
  utf8_decode (List.map N_of_ascii (list_ascii_of_string s)).

(** [str.isspace] of one code point; also the class [\s] of [re]. *)
Definition isspace (c : N) : bool :=
  ((9 <=? c) && (c <=? 13) || (28 <=? c) && (c <=? 32)
   || (c =? 133) || (c =? 160) || (c =? 5760)
   || (8192 <=? c) && (c <=? 8202)
   || (c =? 8232) || (c =? 8233) || (c =? 8239) || (c =? 8287)
   || (c =? 12288))%N.

(** The two entries of the Unicode database the program reaches that are
    too large to list: [str.isalnum] per code point and [str.lower]. *)
Class Unicode : Type := {
  isalnum : N -> bool;
  lower : list N -> list N
}.

(** The class [\w] of [re] on [str] patterns. *)
Definition is_word `{Unicode} (c : N) : bool := isalnum c || (c =? 95)%N.

Definition eqb (a b : list N) : bool := bool_decide (a = b).

Fixpoint dropwhile (p : N -> bool) (s : list N) : list N :=
  match s with
  | [] => []
  | c :: s' => if p c then dropwhile p s' else s
  end.

Definition lstrip_by (p : N -> bool) (s : list N) : list N := dropwhile p s.
Definition rstrip_by (p : N -> bool) (s : list N) : list N :=
  rev (dropwhile p (rev s)).

(** [s.strip()]. *)
Definition strip (s : list N) : list N := rstrip_by isspace (lstrip_by isspace s).

(** [s.strip(chars)]. *)
Definition strip_chars (chars : list N) (s : list N) : list N :=
  let p := fun c => bool_decide (c ∈ chars) in
  rstrip_by p (lstrip_by p s).

(** [s.split()]: the maximal runs of non-space code points. *)
Fixpoint split_from (cur : list N) (s : list N) : list (list N) :=
  match s with
  | [] => match cur with [] => [] | _ => [rev cur] end
  | c :: s' =>
      if isspace c then
        match cur with
        | [] => split_from [] s'
        | _ => rev cur :: split_from [] s'
        end
      else split_from (c :: cur) s'
  end.

Definition split (s : list N) : list (list N) := split_from [] s.

(** [sep.join(parts)]. *)
Fixpoint join (sep : list N) (parts : list (list N)) : list N :=
  match parts with
  | [] => []
  | [p] => p
  | p :: rest => p ++ sep ++ join sep rest
  end.

(** [s.startswith(prefix)]. *)
Fixpoint startswith (s prefix : list N) : bool :=
  match prefix, s with
  | [], _ => true
  | p :: prefix', c :: s' => (p =? c)%N && startswith s' prefix'
  | _ :: _, [] => false
  end.

(** [sub in s]. *)
Fixpoint contains (s sub : list N) : bool :=
  startswith s sub ||
  match s with
  | [] => false
  | _ :: s' => contains s' sub
  end.

(** [re.sub(r"\s+", " ", s)]: [in_run] tells that the previous code point
    was white space and already replaced. *)
Fixpoint collapse_spaces_from (in_run : bool) (s : list N) : list N :=
  match s with
  | [] => []
  | c :: s' =>
      if isspace c then
        if in_run then collapse_spaces_from true s'
        else 32%N :: collapse_spaces_from true s'
      else c :: collapse_spaces_from false s'
  end.

Definition collapse_spaces (s : list N) : list N := collapse_spaces_from false s.

(** Decimal digits of a natural number, as [str(n)] prints them. *)
Definition of_nat (n : nat) : list N :=
  List.map N_of_ascii
    (list_ascii_of_string (NilEmpty.string_of_uint (Nat.to_uint n))).

(** An exact table for Basic Latin and Latin-1 (U+0000 to U+00FF), used to
    run the model on concrete Danish text; code points above U+00FF are
    left as caseless non-word characters. *)
Definition latin1_isalnum (c : N) : bool :=
  ((48 <=? c) && (c <=? 57) || (65 <=? c) && (c <=? 90)
   || (97 <=? c) && (c <=? 122)
   || (c =? 170) || (c =? 178) || (c =? 179) || (c =? 181)
   || (c =? 185) || (c =? 186) || (188 <=? c) && (c <=? 190)
   || (192 <=? c) && (c <=? 214) || (216 <=? c) && (c <=? 246)
   || (248 <=? c) && (c <=? 255))%N.

Definition latin1_lower_char (c : N) : N :=
  if ((65 <=? c) && (c <=? 90) || (192 <=? c) && (c <=? 214)
      || (216 <=? c) && (c <=? 222))%N
  then (c + 32)%N else c.

Definition latin1 : Unicode := {|
  isalnum := latin1_isalnum;
  lower := List.map latin1_lower_char
|}.

End Str.

(* ===================================================================== *)
(** * Python values *)
(* ===================================================================== *)

Module Py.

(** The three ways a call can end. *)
Inductive outcome (A : Type) : Type :=
| Returns (a : A)
| Raises (message : list N)
| OutOfFuel.
Arguments Returns {A} a.
Arguments Raises {A} message.
Arguments OutOfFuel {A}.

Definition bind {A B : Type} (m : outcome A) (k : A -> outcome B) : outcome B :=
  match m with
  | Returns a => k a
  | Raises e => Raises e
  | OutOfFuel => OutOfFuel
  end.

Definition Qltb (x y : Q) : bool := negb (Qle_bool y x).

(** [round(x)] on a float: nearest integer, ties to the even one. *)
Definition round_half_even (x : Q) : Z :=
  let f := Qfloor x in
  match (x - inject_Z f ?= 1 # 2)%Q with
  | Lt => f
  | Gt => (f + 1)%Z
  | Eq => if Z.even f then f else (f + 1)%Z
  end.

(** [round(x, ndigits)]. *)
Definition round (x : Q) (ndigits : nat) : Q :=
  let scale := (10 ^ Z.of_nat ndigits)%Z in
  (inject_Z (round_half_even (x * inject_Z scale)) / inject_Z scale)%Q.

(** The exponent [e] of a positive float: [2^e <= a < 2^(e+1)]. *)
Definition binade (a : Q) : Z :=
  let d := (Z.log2 (Qnum a) - Z.log2 (Z.pos (Qden a)))%Z in
  if Qle_bool (2 ^ d) a then d else (d - 1)%Z.

(** The binary64 float nearest to [x], ties to the even mantissa: floats
    have 53 bits from [2^-1022] on and are the multiples of [2^-1074]
    below.  Values beyond the largest float are left out. *)
Definition b64 (x : Q) : Q :=
  if Qeq_bool x 0 then 0%Q
  else
    let e := Z.max (binade (Qabs x)) (-1022) in
    let ulp := (2 ^ (e - 52))%Q in
    Qred (inject_Z (round_half_even (x / ulp)) * ulp).

(** [x + y] on floats. *)
Definition fadd (x y : Q) : Q := b64 (x + y).


(** [sorted(items, key=...)]: a stable sort that only asks [<] of keys. *)
Fixpoint insert_by {A K : Type} (lt : K -> K -> bool) (key : A -> K)
    (x : A) (l : list A) : list A :=
  match l with
  | [] => [x]
  | y :: l' =>
      if lt (key y) (key x) then y :: insert_by lt key x l'
      else x :: y :: l'
  end.

Fixpoint sorted {A K : Type} (lt : K -> K -> bool) (key : A -> K)
    (l : list A) : list A :=
  match l with
  | [] => []
  | x :: l' => insert_by lt key x (sorted lt key l')
  end.

(** [a or b] on an optional float: [None] and [0.0] are falsy. *)
Definition or_float (a : option Q) (b : option Q) : option Q :=
  match a with
  | Some x => if Qeq_bool x 0 then b else Some x
  | None => b
  end.

(** [a or 0.0]. *)
Definition or_zero (a : option Q) : Q :=
  match a with
  | Some x => if Qeq_bool x 0 then 0%Q else x
  | None => 0%Q
  end.

End Py.

(* ===================================================================== *)
(** * models.py *)
(* ===================================================================== *)

Module Segment.
Record t : Type := mk {
  start_sec : Q;
  end_sec : Q;
  speaker : list N;
  text : list N;
  confidence : option Q
}.
End Segment.

Module ChunkPlan.
Record t : Type := mk {
  idx : nat;
  start_sec : Q;
  end_sec : Q;
  path : list N;
  sha256 : list N
}.
End ChunkPlan.

(* ===================================================================== *)
(** * audio.py *)
(* ===================================================================== *)

Module Audio.
Import Py Str.

(** [probe_duration_seconds]: [reported] is the duration ffprobe printed. *)
Definition probe_duration_seconds (reported : Q) : outcome Q :=
  if Qle_bool reported 0
  then Raises (lit "Kunne ikke læse varighed via ffprobe")
  else Returns reported.

(** [f"chunk_{idx:04d}.wav"] under [chunk_dir]. *)
Definition chunk_file (chunk_dir : list N) (idx : nat) : list N :=
  let digits := of_nat idx in
  chunk_dir ++ lit "/chunk_"
    ++ repeat 48%N (4 - List.length digits) ++ digits ++ lit ".wav".

Section WithDecoder.
(** [sha256_file] of the file the decoder rendered at a path. *)
Variable sha256_file : list N -> list N.

(** The [while start < duration] loop of [create_chunks].  [render_chunk]
    runs the decoder and gives nothing back; [sha256_file] reads the file
    it wrote.  [start + step] is the exact sum: with the default step of
    238.5 the float sums of the code are exact as well, with other steps
    they need not be, and the properties below are stated for the
    default. *)
Fixpoint create_chunks_loop (fuel : nat) (chunk_dir : list N)
    (duration chunk_duration_sec step : Q)
    (idx : nat) (start : Q) : outcome (list ChunkPlan.t) :=
  if Qltb start duration then
    match fuel with
    | O => OutOfFuel
    | S fuel' =>
        let end_ := Qmin duration (start + chunk_duration_sec) in
        let out_path := chunk_file chunk_dir idx in
        let chunk_hash := sha256_file out_path in
        let plan :=
          ChunkPlan.mk idx (round start 3) (round end_ 3) out_path chunk_hash in
        bind (create_chunks_loop fuel' chunk_dir duration chunk_duration_sec step
                (S idx) (start + step))
             (fun chunks => Returns (plan :: chunks))
    end
  else Returns [].

(** The loop adds [step >= 1] to [start] on every turn, so it takes at
    most as many turns as the duration has whole seconds. *)
Definition create_chunks_fuel (duration : Q) : nat :=
  S (Z.to_nat (Qceiling duration)).

Definition create_chunks (reported : Q) (chunk_dir : list N)
    (chunk_duration_sec overlap_sec : Q)
  : outcome (Q * list ChunkPlan.t) :=
  bind (probe_duration_seconds reported) (fun duration =>
    let step := Qmax 1 (chunk_duration_sec - overlap_sec) in
    bind (create_chunks_loop (create_chunks_fuel duration) chunk_dir duration
            chunk_duration_sec step 0 0)
         (fun chunks => Returns (duration, chunks))).

End WithDecoder.

(** Keyword defaults of [create_chunks]. *)
Definition default_chunk_duration_sec : Q := 240.
Definition default_overlap_sec : Q := 3 # 2.

End Audio.

(** The stored form of an utterance: the JSON object with the keys
    [startSec], [endSec], [speaker], [text] and [confidence] (absent or
    [null] is [None]). *)
Module Utterance.
Record t : Type := mk {
  startSec : Q;
  endSec : Q;
  speaker : list N;
  text : list N;
  confidence : option Q
}.
End Utterance.

(* ===================================================================== *)
(** * merge.py *)
(* ===================================================================== *)

Module Merge.
Import Py Str.

(** [<] on a pair of floats, as tuples compare. *)
Definition pair_lt (a b : Q * Q) : bool :=
  Qltb (fst a) (fst b) || (Qeq_bool (fst a) (fst b) && Qltb (snd a) (snd b)).

Definition by_time (seg : Segment.t) : Q * Q :=
  (Segment.start_sec seg, Segment.end_sec seg).

Definition BACKCHANNELS : list (list N) :=
  List.map lit
    ["ja"; "jo"; "nej"; "ok"; "okay"; "nå"; "nåh"; "mhm"; "mm"; "mmm";
     "klart"; "fedt"; "præcis"; "super"; "tak"; "det gør jeg";
     "det vil jeg gøre"; "ja okay"; "ja ja"; "nej nej"]%string.

Definition FILLER_TOKENS : list (list N) :=
  List.map lit ["øh"; "øhm"; "øhh"; "eh"; "hmm"]%string.

Definition TECHNICAL_META_KEYWORDS : list (list N) :=
  List.map lit
    ["kan du høre"; "hører mig"; "høre mig"; "lyden"; "mikrofon"; "kamera";
     "dele skærm"; "del skærm"; "skærm"; "link"; "chat"; "chatten";
     "nettet"; "internet"; "forbindelse"; "hakker"; "langsom"; "opkald";
     "teams"; "zoom"; "kan ikke åbne"; "kan ikke se"; "driller"]%string.

Definition TECHNICAL_META_STRONG_KEYWORDS : list (list N) :=
  List.map lit
    ["kan du prøve at gentage"; "kan du gentage"; "kan du se min skærm";
     "kan du se den nu"; "er det mig igen"; "løber tør for strøm";
     "deler skærm"]%string.

Definition SHORT_BACKCHANNEL_MAX_WORDS : nat := 2.
Definition TECHNICAL_META_MAX_WORDS : nat := 10.
Definition TECHNICAL_META_STRONG_MAX_WORDS : nat := 20.
Definition INTERRUPTION_MAX_WORDS : nat := 3.
Definition INTERRUPTION_MAX_GAP_SEC : Q := 8.
Definition SPEAKER_RUN_MERGE_MAX_GAP_SEC : Q := 10.

Record _SpeakerStats : Type := mk_stats {
  first_start : Q;
  utterance_count : Z;
  question_count : Z;
  total_words : Z
}.

Definition member (x : list N) (l : list (list N)) : bool :=
  bool_decide (x ∈ l).

(** [merged[-1] = previous'] after the in-place updates of [previous]. *)
Definition set_last {A : Type} (l : list A) (x : A) : list A :=
  removelast l ++ [x].

Section WithUnicode.
Context `{Unicode}.

Definition _normalize (text : list N) : list N :=
  let text := lower text in
  let text :=
    List.map (fun c => if is_word c || isspace c then c else 32%N) text in
  let text := collapse_spaces text in
  strip text.

Definition _word_count (text : list N) : nat :=
  match text with
  | [] => 0
  | _ => length (split text)
  end.

Definition _strip_fillers (text : list N) : list N :=
  let cleaned :=
    List.filter
      (fun token => negb (member (List.filter is_word (lower token)) FILLER_TOKENS))
      (split text) in
  strip_chars (lit " ,.-") (collapse_spaces (join (lit " ") cleaned)).

Definition _is_backchannel (text : list N) : bool :=
  let normalized := _normalize text in
  match normalized with
  | [] => true
  | _ =>
      (_word_count normalized <=? SHORT_BACKCHANNEL_MAX_WORDS)%nat
      && member normalized BACKCHANNELS
  end.

Definition _is_technical_meta (text : list N) : bool :=
  let normalized := _normalize text in
  match normalized with
  | [] => true
  | _ =>
      let word_count := _word_count normalized in
      let has_keyword := existsb (contains normalized) TECHNICAL_META_KEYWORDS in
      if has_keyword && (word_count <=? TECHNICAL_META_MAX_WORDS)%nat then true
      else
        let has_strong_keyword :=
          existsb (contains normalized) TECHNICAL_META_STRONG_KEYWORDS in
        if has_strong_keyword
           && (word_count <=? TECHNICAL_META_STRONG_MAX_WORDS)%nat
        then true
        else false
  end.

(** One turn of the [for segment in ordered] loop of [dedupe_segments]. *)
Definition dedupe_step (merged : list Segment.t) (segment : Segment.t)
  : list Segment.t :=
  match strip (Segment.text segment) with
  | [] => merged
  | _ =>
    match last merged with
    | None => merged ++ [segment]
    | Some previous =>
      let same_text :=
        eqb (_normalize (Segment.text previous)) (_normalize (Segment.text segment)) in
      let overlapping :=
        Qle_bool (Segment.start_sec segment) (Segment.end_sec previous + (1 # 4)) in
      let same_speaker := eqb (Segment.speaker segment) (Segment.speaker previous) in
      if same_text && overlapping then
        set_last merged
          (Segment.mk
             (Segment.start_sec previous)
             (Qmax (Segment.end_sec previous) (Segment.end_sec segment))
             (Segment.speaker previous)
             (Segment.text previous)
             (match Segment.confidence segment with
              | Some c => Some (Qmax (or_zero (Segment.confidence previous)) c)
              | None => Segment.confidence previous
              end))
      else
        let prev_norm := _normalize (Segment.text previous) in
        let curr_norm := _normalize (Segment.text segment) in
        if overlapping && same_speaker
           && negb (eqb prev_norm []) && negb (eqb curr_norm []) then
          if startswith curr_norm prev_norm then
            set_last merged
              (Segment.mk
                 (Segment.start_sec previous)
                 (Qmax (Segment.end_sec previous) (Segment.end_sec segment))
                 (Segment.speaker previous)
                 (Segment.text segment)
                 (or_float (Segment.confidence segment) (Segment.confidence previous)))
          else if startswith prev_norm curr_norm then merged
          else merged ++ [segment]
        else merged ++ [segment]
    end
  end.

Definition dedupe_segments (segments : list Segment.t) : list Segment.t :=
  let ordered := sorted pair_lt by_time segments in
  fold_left dedupe_step ordered [].

(** First loop of [filter_style_noise]: clean and drop. *)
Definition style_filter_step (filtered : list Segment.t) (segment : Segment.t)
  : list Segment.t :=
  let cleaned_text := _strip_fillers (strip (Segment.text segment)) in
  match cleaned_text with
  | [] => filtered
  | _ =>
    if _is_backchannel cleaned_text then filtered
    else if _is_technical_meta cleaned_text then filtered
    else
      filtered ++
        [Segment.mk (Segment.start_sec segment) (Segment.end_sec segment)
           (Segment.speaker segment) cleaned_text (Segment.confidence segment)]
  end.

(** Second loop: [while i < len(compacted) - 1]. *)
Fixpoint compact_loop (fuel : nat) (compacted : list Segment.t) (i : nat)
  : outcome (list Segment.t) :=
  if (i <? length compacted - 1)%nat then
    match fuel with
    | O => OutOfFuel
    | S fuel' =>
      match compacted !! (i - 1)%nat, compacted !! i, compacted !! (i + 1)%nat with
      | Some previous, Some current, Some following =>
        let current_words := _word_count (_normalize (Segment.text current)) in
        if (current_words <=? INTERRUPTION_MAX_WORDS)%nat
           && _is_backchannel (Segment.text current)
           && eqb (Segment.speaker previous) (Segment.speaker following)
           && negb (eqb (Segment.speaker previous) (Segment.speaker current))
           && Qle_bool (Segment.start_sec current - Segment.end_sec previous)
                INTERRUPTION_MAX_GAP_SEC
           && Qle_bool (Segment.start_sec following - Segment.end_sec current)
                INTERRUPTION_MAX_GAP_SEC
        then compact_loop fuel' (delete i compacted) i
        else compact_loop fuel' compacted (S i)
      | _, _, _ => Raises (lit "IndexError")
      end
    end
  else Returns compacted.

(** Third loop: merge runs of one speaker. *)
Definition merge_runs_step (merged_runs : list Segment.t) (segment : Segment.t)
  : list Segment.t :=
  match last merged_runs with
  | None => merged_runs ++ [segment]
  | Some previous =>
    if eqb (Segment.speaker previous) (Segment.speaker segment)
       && Qle_bool (Segment.start_sec segment - Segment.end_sec previous)
            SPEAKER_RUN_MERGE_MAX_GAP_SEC
    then
      set_last merged_runs
        (Segment.mk
           (Segment.start_sec previous)
           (Qmax (Segment.end_sec previous) (Segment.end_sec segment))
           (Segment.speaker previous)
           (strip (Segment.text previous ++ lit " " ++ Segment.text segment))
           (match Segment.confidence segment with
            | Some c => Some (Qmax (or_zero (Segment.confidence previous)) c)
            | None => Segment.confidence previous
            end))
    else merged_runs ++ [segment]
  end.

Definition filter_style_noise (segments : list Segment.t)
  : outcome (list Segment.t) :=
  let filtered :=
    fold_left style_filter_step (sorted pair_lt by_time segments) [] in
  if (length filtered <? 3)%nat then Returns filtered
  else
    bind (compact_loop (length filtered) filtered 1) (fun compacted =>
      Returns (fold_left merge_runs_step compacted [])).

Definition _expected_interviewer_slots
    (unique_speakers interviewer_count participant_count : Z) : Z :=
  if (unique_speakers <=? 1)%Z then 1%Z
  else
    let interviewer_count := Z.max 1 interviewer_count in
    let participant_count := Z.max 1 participant_count in
    let total_expected := Z.max 1 (interviewer_count + participant_count) in
    let scaled :=
      round_half_even
        (inject_Z (unique_speakers * interviewer_count) / inject_Z total_expected) in
    let slots := Z.max 1 scaled in
    let slots := Z.min slots (Z.max 1 (unique_speakers - 1)) in
    Z.max 1 slots.

(** [segment.speaker or "speaker_0"]. *)
Definition speaker_or_default (speaker : list N) : list N :=
  match speaker with
  | [] => lit "speaker_0"
  | _ => speaker
  end.

(** One turn of the statistics loop of [_infer_interviewer_speakers]; the
    state is the dict [stats_by_speaker] and the list [speaker_order]. *)
Definition stats_step
    (st : gmap (list N) _SpeakerStats * list (list N)) (segment : Segment.t)
  : gmap (list N) _SpeakerStats * list (list N) :=
  let '(stats_by_speaker, speaker_order) := st in
  let speaker_id := speaker_or_default (Segment.speaker segment) in
  let normalized := _normalize (Segment.text segment) in
  let words := _word_count normalized in
  let '(stats_by_speaker, speaker_order) :=
    match stats_by_speaker !! speaker_id with
    | None =>
        (<[speaker_id := mk_stats (Segment.start_sec segment) 0 0 0]> stats_by_speaker,
         speaker_order ++ [speaker_id])
    | Some _ => (stats_by_speaker, speaker_order)
    end in
  (alter
     (fun stats =>
        mk_stats (first_start stats)
          (utterance_count stats + 1)
          (if contains (Segment.text segment) (lit "?")
           then question_count stats + 1 else question_count stats)
          (total_words stats + Z.of_nat words))
     speaker_id stats_by_speaker,
   speaker_order).

Definition score_of (stats : _SpeakerStats) : Q :=
  let utterances := Z.max 1 (utterance_count stats) in
  let avg_words := (inject_Z (total_words stats) / inject_Z utterances)%Q in
  let question_density :=
    (inject_Z (question_count stats) / inject_Z utterances)%Q in
  let start_bonus := Qmax 0 (1 - Qmin (first_start stats) 120 / 120) in
  let brevity_bonus := (1 / Qmax 1 avg_words)%Q in
  (question_density * 3 + start_bonus + brevity_bonus * 2)%Q.

Definition scored_key (item : list N * Q * Q) : Q * Q :=
  let '(_, score, start) := item in (- score, start).

Definition _infer_interviewer_speakers (ordered : list Segment.t)
    (interviewer_count participant_count : Z) : list (list N) :=
  match ordered with
  | [] => [lit "speaker_0"]
  | _ =>
    let '(stats_by_speaker, speaker_order) :=
      fold_left stats_step ordered (∅, []) in
    if (size stats_by_speaker <=? 1)%nat then take 1 speaker_order
    else
      let slots :=
        _expected_interviewer_slots (Z.of_nat (size stats_by_speaker))
          interviewer_count participant_count in
      let scored :=
        omap (fun speaker_id =>
                match stats_by_speaker !! speaker_id with
                | Some stats => Some (speaker_id, score_of stats, first_start stats)
                | None => None
                end)
             speaker_order in
      let scored := sorted pair_lt scored_key scored in
      let picked := List.map (fun item => fst (fst item)) (take (Z.to_nat slots) scored) in
      match picked with
      | [] => take 1 speaker_order
      | _ => picked
      end
  end.

Definition map_to_interviewer_participant (segments : list Segment.t)
    (interviewer_count participant_count : Z) : list Utterance.t :=
  let ordered := sorted pair_lt by_time segments in
  let interviewer_speakers :=
    _infer_interviewer_speakers ordered interviewer_count participant_count in
  List.map
    (fun segment =>
       let raw_speaker := speaker_or_default (Segment.speaker segment) in
       let speaker :=
         if member raw_speaker interviewer_speakers then lit "I" else lit "D" in
       Utterance.mk
         (round (Segment.start_sec segment) 3)
         (round (Segment.end_sec segment) 3)
         speaker
         (strip (Segment.text segment))
         (match Segment.confidence segment with
          | Some c => Some (round c 4)
          | None => None
          end))
    ordered.

Definition merge_and_label (segments : list Segment.t)
    (interviewer_count participant_count : Z) : outcome (list Utterance.t) :=
  let deduped := dedupe_segments segments in
  bind (filter_style_noise deduped) (fun filtered =>
    Returns (map_to_interviewer_participant filtered
               interviewer_count participant_count)).

End WithUnicode.

End Merge.

(* ===================================================================== *)
(** * storage.py *)
(* ===================================================================== *)

Module Job.
(** A row of the [jobs] table; [NULL] is [None]. *)
Record t : Type := mk {
  id : list N;
  source_path : list N;
  source_name : list N;
  source_hash : list N;
  status : list N;
  created_at : list N;
  updated_at : list N;
  duration_sec : Q;
  chunks_total : Z;
  chunks_done : Z;
  transcript_json : option (list Utterance.t);
  error_message : option (list N);
  interviewer_count : Z;
  participant_count : Z
}.
End Job.

Module Chunk.
(** A row of the [chunks] table. *)
Record t : Type := mk {
  job_id : list N;
  idx : nat;
  start_sec : Q;
  end_sec : Q;
  chunk_path : list N;
  chunk_hash : list N;
  status : list N;
  engine : option (list N);
  attempt_count : Z;
  transcript_json : option (list Utterance.t);
  confidence : option Q;
  updated_at : list N
}.
End Chunk.

Module Storage.
Import Py Str.

(** The database behind a connection: both tables, by primary key.  A
    JSON column holds the value that [json.loads] gives back. *)
Record conn : Type := mk_conn {
  jobs : gmap (list N) Job.t;
  chunks : gmap (list N * nat) Chunk.t
}.

Section WithClock.
(** [now_iso()]. *)
Variable now_iso : list N.

Definition create_job (c : conn) (job_id source_path source_name source_hash : list N)
    (interviewer_count participant_count : Z) : outcome conn :=
  match jobs c !! job_id with
  | Some _ => Raises (lit "UNIQUE constraint failed: jobs.id")
  | None =>
      Returns
        (mk_conn
           (<[job_id :=
                Job.mk job_id source_path source_name source_hash (lit "queued")
                  now_iso now_iso 0 0 0 None None
                  (Z.max 1 interviewer_count) (Z.max 1 participant_count)]>
              (jobs c))
           (chunks c))
  end.

Definition get_job (c : conn) (job_id : list N) : option Job.t :=
  jobs c !! job_id.

(** [UPDATE jobs SET status = ?, updated_at = ? [, chunks_done = ?]
    [, chunks_total = ?] [, error_message = ?] WHERE id = ?]. *)
Definition update_job_status (c : conn) (job_id status : list N)
    (chunks_done chunks_total : option Z) (error_message : option (list N))
  : conn :=
  mk_conn
    (alter
       (fun j =>
          Job.mk (Job.id j) (Job.source_path j) (Job.source_name j)
            (Job.source_hash j) status (Job.created_at j) now_iso
            (Job.duration_sec j)
            (match chunks_total with
             | Some n => n
             | None => Job.chunks_total j
             end)
            (match chunks_done with
             | Some n => n
             | None => Job.chunks_done j
             end)
            (Job.transcript_json j)
            (match error_message with
             | Some m => Some m
             | None => Job.error_message j
             end)
            (Job.interviewer_count j) (Job.participant_count j))
       job_id (jobs c))
    (chunks c).

Definition update_job_metadata (c : conn) (job_id : list N)
    (duration_sec : Q) (chunks_total : Z) : conn :=
  mk_conn
    (alter
       (fun j =>
          Job.mk (Job.id j) (Job.source_path j) (Job.source_name j)
            (Job.source_hash j) (Job.status j) (Job.created_at j) now_iso
            duration_sec chunks_total (Job.chunks_done j)
            (Job.transcript_json j) (Job.error_message j)
            (Job.interviewer_count j) (Job.participant_count j))
       job_id (jobs c))
    (chunks c).

(** [INSERT ... ON CONFLICT(job_id, idx) DO UPDATE]; the foreign key on
    [job_id] is enforced. *)
Definition upsert_chunk (c : conn) (job_id : list N) (idx : nat)
    (start_sec end_sec : Q) (chunk_path chunk_hash status : list N)
    (engine : option (list N)) (attempt_count : Z)
    (transcript : option (list Utterance.t)) (confidence : option Q)
  : outcome conn :=
  match jobs c !! job_id with
  | None => Raises (lit "FOREIGN KEY constraint failed")
  | Some _ =>
      Returns
        (mk_conn (jobs c)
           (<[(job_id, idx) :=
                Chunk.mk job_id idx start_sec end_sec chunk_path chunk_hash
                  status engine attempt_count transcript confidence now_iso]>
              (chunks c)))
  end.

(** [SELECT * FROM chunks WHERE job_id = ? ORDER BY idx ASC]. *)
Definition list_chunks (c : conn) (job_id : list N) : list Chunk.t :=
  sorted Nat.ltb Chunk.idx
    (List.filter (fun row => eqb (Chunk.job_id row) job_id)
       (List.map snd (map_to_list (chunks c)))).

(** [UPDATE jobs SET transcript_json = ?, status = ?, updated_at = ?,
    error_message = NULL WHERE id = ?]. *)
Definition set_final_transcript (c : conn) (job_id : list N)
    (transcript : list Utterance.t) (status : list N) : conn :=
  mk_conn
    (alter
       (fun j =>
          Job.mk (Job.id j) (Job.source_path j) (Job.source_name j)
            (Job.source_hash j) status (Job.created_at j) now_iso
            (Job.duration_sec j) (Job.chunks_total j) (Job.chunks_done j)
            (Some transcript) None
            (Job.interviewer_count j) (Job.participant_count j))
       job_id (jobs c))
    (chunks c).

Definition get_transcript (c : conn) (job_id : list N) : list Utterance.t :=
  match jobs c !! job_id with
  | None => []
  | Some row =>
      match Job.transcript_json row with
      | None => []
      | Some transcript => transcript
      end
  end.

(** The body of the loop of [toggle_swap_roles]. *)
Definition swap_speaker (segment : Utterance.t) : Utterance.t :=
  if eqb (Utterance.speaker segment) (lit "I") then
    Utterance.mk (Utterance.startSec segment) (Utterance.endSec segment)
      (lit "D") (Utterance.text segment) (Utterance.confidence segment)
  else if eqb (Utterance.speaker segment) (lit "D") then
    Utterance.mk (Utterance.startSec segment) (Utterance.endSec segment)
      (lit "I") (Utterance.text segment) (Utterance.confidence segment)
  else segment.

Definition toggle_swap_roles (c : conn) (job_id : list N)
  : conn * list Utterance.t :=
  let transcript := get_transcript c job_id in
  let swapped := List.map swap_speaker transcript in
  (set_final_transcript c job_id swapped (lit "ready"), swapped).

(** The value of [read_job_result]: [jobId], [sourcePath], [durationSec]
    and [transcript]. *)
Definition read_job_result (c : conn) (job_id : list N)
  : option (list N * list N * Q * list Utterance.t) :=
  match get_job c job_id with
  | None => None
  | Some row =>
      Some (Job.id row, Job.source_path row, Job.duration_sec row,
            get_transcript c job_id)
  end.

End WithClock.

End Storage.

(* ===================================================================== *)
(** * editing.py *)
(* ===================================================================== *)

Module Editing.
Import Py Str.

Definition SEGMENT_START_STEP : Q := 3.
Definition SEGMENT_DURATION : Q := 1.

(** The line boundaries of [str.splitlines]. *)
Definition is_linebreak (c : N) : bool :=
  ((10 <=? c) && (c <=? 13) || (28 <=? c) && (c <=? 30)
   || (c =? 133) || (c =? 8232) || (c =? 8233))%N.

(** [text.splitlines()]; [cur] is the line being read, reversed, and
    [after_cr] tells that the previous code point was a carriage return,
    which takes a following line feed into the same boundary. *)
Fixpoint splitlines_from (after_cr : bool) (cur : list N) (text : list N)
  : list (list N) :=
  match text with
  | [] => match cur with [] => [] | _ => [rev cur] end
  | c :: rest =>
      if after_cr && (c =? 10)%N then splitlines_from false cur rest
      else if is_linebreak c then
        rev cur :: splitlines_from (c =? 13)%N [] rest
      else splitlines_from false (c :: cur) rest
  end.

Definition splitlines (text : list N) : list (list N) :=
  splitlines_from false [] text.

(** [SPEAKER_PREFIX.match(line)]: white space, one of [I i D d] (group 1),
    white space, a colon, white space, and the rest of the line (group 2);
    the two groups, when the line matches. *)
Definition SPEAKER_PREFIX_match (line : list N) : option (N * list N) :=
  match dropwhile isspace line with
  | c :: rest =>
      if ((c =? 73) || (c =? 105) || (c =? 68) || (c =? 100))%N then
        match dropwhile isspace rest with
        | colon :: rest' =>
            if (colon =? 58)%N then Some (c, dropwhile isspace rest') else None
        | [] => None
        end
      else None
  | [] => None
  end.

(** [match.group(1).upper()] on one of [I], [i], [D], [d]. *)
Definition upper_prefix (c : N) : list N :=
  if ((c =? 105) || (c =? 73))%N then lit "I" else lit "D".

(** The first loop of [parse_editor_text], from line [index] on. *)
Fixpoint collect_utterances (index : nat) (lines : list (list N))
  : outcome (list (list N * list N)) :=
  match lines with
  | [] => Returns []
  | raw_line :: rest =>
      let line_number := S index in
      let line := List.filter (fun c => negb (c =? 13)%N) raw_line in
      let stripped := strip line in
      match stripped with
      | [] =>
          Raises (lit "Linje " ++ of_nat line_number
                  ++ lit " er tom. Tomme linjer er ikke tilladt; brug formatet 'I: ...' eller 'D: ...' på hver linje.")
      | _ =>
        match SPEAKER_PREFIX_match line with
        | None =>
            Raises (lit "Linje " ++ of_nat line_number
                    ++ lit " mangler taler-prefix. Hver ikke-tom linje skal starte med 'I:' eller 'D:'.")
        | Some (prefix, group2) =>
            let speaker := upper_prefix prefix in
            let body := strip group2 in
            match body with
            | [] =>
                Raises (lit "Linje " ++ of_nat line_number
                        ++ lit " er tom efter taler-prefix. Brug formatet 'I: ...' eller 'D: ...'.")
            | _ =>
                bind (collect_utterances (S index) rest)
                     (fun utterances => Returns ((speaker, body) :: utterances))
            end
        end
      end
  end.

(** The second loop, over [enumerate(utterances)] from [idx] on. *)
Fixpoint convert_utterances (idx : nat)
    (fallback_confidences : list (option Q))
    (utterances : list (list N * list N)) : list Utterance.t :=
  match utterances with
  | [] => []
  | (speaker, body) :: rest =>
      let start_sec := round (inject_Z (Z.of_nat idx) * SEGMENT_START_STEP) 3 in
      let end_sec := round (start_sec + SEGMENT_DURATION) 3 in
      let confidence :=
        match fallback_confidences !! idx with
        | Some confidence => confidence
        | None => None
        end in
      Utterance.mk start_sec end_sec speaker body confidence
        :: convert_utterances (S idx) fallback_confidences rest
  end.

Definition parse_editor_text (text : list N)
    (fallback_transcript : list Utterance.t) : outcome (list Utterance.t) :=
  bind (collect_utterances 0 (splitlines text)) (fun utterances =>
    match utterances with
    | [] =>
        Raises (lit "Ingen gyldige ytringer fundet. Brug formatet 'I: ...' eller 'D: ...'.")
    | _ =>
        let fallback_confidences :=
          List.map Utterance.confidence fallback_transcript in
        Returns (convert_utterances 0 fallback_confidences utterances)
    end).

End Editing.

(* ===================================================================== *)
(** * openai_engine.py *)
(* ===================================================================== *)

Module OpenAIEngine.
Import Py Str.

(** What one call of [client.audio.transcriptions.create] does: it raises,
    or it answers a payload, given here by the segments read out of it. *)
Inductive action : Type :=
| Fail (message : list N)
| Respond (segments : list Segment.t).

(** The remote client: the replies still to come and the value of
    [response_format] of every call made so far. *)
Record client : Type := mk_client {
  actions : list action;
  calls : list (list N)
}.

Definition create (cl : client) (response_format : list N)
  : outcome (list Segment.t) * client :=
  match actions cl with
  | [] =>
      (Raises (lit "no more actions configured"),
       mk_client [] (calls cl ++ [response_format]))
  | Fail message :: rest =>
      (Raises message, mk_client rest (calls cl ++ [response_format]))
  | Respond segments :: rest =>
      (Returns segments, mk_client rest (calls cl ++ [response_format]))
  end.

(** [str(n)] for an [int]. *)
Definition of_Z (n : Z) : list N :=
  match n with
  | Zneg _ => lit "-" ++ of_nat (Z.abs_nat n)
  | _ => of_nat (Z.abs_nat n)
  end.

(** [f"{last_error}"]. *)
Definition format_error (last_error : option (list N)) : list N :=
  match last_error with
  | Some message => message
  | None => lit "None"
  end.

Definition _overlap (a_start a_end b_start b_end : Q) : Q :=
  Qmax 0 (Qmin a_end b_end - Qmax a_start b_start).

Definition midpoint (s : Segment.t) : Q :=
  ((Segment.start_sec s + Segment.end_sec s) / 2)%Q.

Definition _assign_speaker (segment : Segment.t) (diarized : list Segment.t)
  : list N :=
  match diarized with
  | [] => lit "speaker_0"
  | first :: others =>
      let '(best_overlap, best_speaker) :=
        fold_left
          (fun best candidate =>
             let overlap :=
               _overlap (Segment.start_sec segment) (Segment.end_sec segment)
                 (Segment.start_sec candidate) (Segment.end_sec candidate) in
             if Qltb (fst best) overlap
             then (overlap, Segment.speaker candidate)
             else best)
          diarized ((- (1))%Q, Segment.speaker first) in
      if Qltb 0 best_overlap then best_speaker
      else
        let distance c := Qabs (midpoint segment - midpoint c) in
        let nearest :=
          fold_left
            (fun best c => if Qltb (distance c) (distance best) then c else best)
            others first in
        Segment.speaker nearest
  end.

Definition _merge_text_with_speakers
    (whisper_segments diarized_segments : list Segment.t) : list Segment.t :=
  match whisper_segments with
  | [] => diarized_segments
  | _ =>
      List.map
        (fun segment =>
           Segment.mk (Segment.start_sec segment) (Segment.end_sec segment)
             (_assign_speaker segment diarized_segments)
             (Segment.text segment) (Segment.confidence segment))
        whisper_segments
  end.

(** [sum(confidences) / len(confidences)], or [None].  The mean is the
    exact one; the float of the code lies next to it, and what is proved
    below does not depend on the difference. *)
Definition average_confidence (segments : list Segment.t) : option Q :=
  match omap Segment.confidence segments with
  | [] => None
  | confidences =>
      Some (fold_left Qplus confidences 0
            / inject_Z (Z.of_nat (List.length confidences)))%Q
  end.

Section WithUnicode.
Context `{Unicode}.

Definition _is_response_format_error (message : list N) : bool :=
  let message := lower message in
  contains message (lit "response_format")
  || contains message (lit "unsupported_value").

(** The loop of [_request_diarized_payload] over the formats left. *)
Fixpoint request_formats (cl : client) (formats : list (list N))
    (last_error : option (list N)) : outcome (list Segment.t) * client :=
  match formats with
  | [] =>
      match last_error with
      | Some message => (Raises message, cl)
      | None => (Raises (lit "Kunne ikke hente diarized payload"), cl)
      end
  | response_format :: rest =>
      match create cl response_format with
      | (Returns payload, cl') => (Returns payload, cl')
      | (Raises message, cl') =>
          if _is_response_format_error message
          then request_formats cl' rest (Some message)
          else (Raises message, cl')
      | (OutOfFuel, cl') => (OutOfFuel, cl')
      end
  end.

Definition _request_diarized_payload (cl : client)
  : outcome (list Segment.t) * client :=
  request_formats cl [lit "diarized_json"; lit "json"] None.

(** The body of the [try] of one attempt. *)
Definition attempt_once (cl : client)
  : outcome (list Segment.t * option Q) * client :=
  match _request_diarized_payload cl with
  | (Returns diarized_segments, cl') =>
      match create cl' (lit "verbose_json") with
      | (Returns whisper_segments, cl'') =>
          let segments :=
            _merge_text_with_speakers whisper_segments diarized_segments in
          (Returns (segments, average_confidence segments), cl'')
      | (Raises message, cl'') => (Raises message, cl'')
      | (OutOfFuel, cl'') => (OutOfFuel, cl'')
      end
  | (Raises message, cl') => (Raises message, cl')
  | (OutOfFuel, cl') => (OutOfFuel, cl')
  end.

(** The [raise] after the loop. *)
Definition retries_exhausted (max_retries : Z) (last_error : option (list N))
  : list N :=
  lit "OpenAI transskription fejlede efter " ++ of_Z max_retries
    ++ lit " forsÃ¸g: " ++ format_error last_error.

(** [for attempt in range(1, max_retries + 1)], over the attempts left;
    [break] leaves the loop for the [raise] that follows it.  The sleep
    between two attempts changes no value and is left out. *)
Fixpoint attempts_loop (cl : client) (max_retries : Z) (attempts : list nat)
    (backoff : Q) (last_error : option (list N))
  : outcome (list Segment.t * option Q) * client :=
  match attempts with
  | [] => (Raises (retries_exhausted max_retries last_error), cl)
  | attempt :: rest =>
      match attempt_once cl with
      | (Returns result, cl') => (Returns result, cl')
      | (Raises message, cl') =>
          if (max_retries <=? Z.of_nat attempt)%Z then
            (Raises (retries_exhausted max_retries (Some message)), cl')
          else
            attempts_loop cl' max_retries rest (Qmin (backoff * 2) 12)
              (Some message)
      | (OutOfFuel, cl') => (OutOfFuel, cl')
      end
  end.

Definition transcribe_chunk_openai (api_key : list N) (cl : client)
    (max_retries : Z) : outcome (list Segment.t * option Q) * client :=
  match strip api_key with
  | [] => (Raises (lit "OPENAI_API_KEY mangler"), cl)
  | _ =>
      attempts_loop cl max_retries (seq 1 (Z.to_nat max_retries)) 1 None
  end.

End WithUnicode.

End OpenAIEngine.

(* ===================================================================== *)
(** * worker.py *)
(* ===================================================================== *)

Module Worker.
Import Py Str.

(** The driver [transcribe_job].  [remove_ready_job_dirs] and
    [ensure_chunk_file] only touch files on disk and are left out; whether
    the source file exists is an input.  The files of a [world] are the
    checkpoints that the driver writes: what [remove_ready_job_dirs]
    deletes of the jobs that are ready is not followed. *)

(** The payload of a [progress] or [paused] event.  [etaSeconds] and
    [message] are read off the wall clock and are left out. *)
Record progress : Type := mk_progress {
  jobId : list N;
  status : list N;
  stage : list N;
  percent : Q;
  chunksDone : Z;
  chunksTotal : Z
}.

(** A line printed by [emit]. *)
Inductive event : Type :=
| Progress (payload : progress)
| Paused (payload : progress)
| Result (job_id source_path : list N) (duration_sec : Q)
    (transcript : list Utterance.t)
| Error (job_id message : list N).

(** A file written by [atomic_write_json] under the checkpoint directory. *)
Inductive checkpoint : Type :=
| ChunkCheckpoint (job_id : list N) (chunk_index : nat) (engine : list N)
    (segments : list Utterance.t)
| ResultCheckpoint (job_id source_path : list N) (duration_sec : Q)
    (transcript : list Utterance.t).

(** What the driver changes: the database, the lines printed so far and
    the checkpoint files, by job and file name. *)
Record world : Type := mk_world {
  db : Storage.conn;
  stdout : list event;
  files : gmap (list N * list N) checkpoint
}.

(** The local engine's three ways to end. *)
Inductive fallback_result : Type :=
| FallbackOk (segments : list Segment.t) (coverage : option Q)
| LowSpeakerConfidenceError (message : list N)
| FallbackError (message : list N).

(** A computation of the driver: it changes the world and returns,
    raises, or runs out of fuel. *)
Definition M (A : Type) : Type := world -> outcome A * world.

Definition ret {A : Type} (a : A) : M A := fun w => (Returns a, w).

Definition bindM {A B : Type} (m : M A) (k : A -> M B) : M B :=
  fun w =>
    match m w with
    | (Returns a, w') => k a w'
    | (Raises e, w') => (Raises e, w')
    | (OutOfFuel, w') => (OutOfFuel, w')
    end.

Notation "x <- m ;; k" := (bindM m (fun x => k))
  (at level 100, m at next level, right associativity).
Notation "m ;; k" := (bindM m (fun _ => k))
  (at level 100, right associativity).

Definition emit (ev : event) : M unit :=
  fun w => (Returns tt, mk_world (db w) (stdout w ++ [ev]) (files w)).

Definition atomic_write_json (job_id name : list N) (payload : checkpoint)
  : M unit :=
  fun w =>
    (Returns tt, mk_world (db w) (stdout w) (<[(job_id, name) := payload]> (files w))).

Definition with_db (f : Storage.conn -> Storage.conn) : M unit :=
  fun w => (Returns tt, mk_world (f (db w)) (stdout w) (files w)).

Definition try_db (f : Storage.conn -> outcome Storage.conn) : M unit :=
  fun w =>
    match f (db w) with
    | Returns c => (Returns tt, mk_world c (stdout w) (files w))
    | Raises e => (Raises e, w)
    | OutOfFuel => (OutOfFuel, w)
    end.

Definition read_db {A : Type} (f : Storage.conn -> A) : M A :=
  fun w => (Returns (f (db w)), w).

Definition lift {A : Type} (o : outcome A) : M A := fun w => (o, w).

Definition progress_payload (job_id status stage : list N) (percent : Q)
    (chunks_done chunks_total : Z) : progress :=
  mk_progress job_id status stage (round (Qmax 0 (Qmin 100 percent)) 2)
    chunks_done chunks_total.

Definition _coerce_segments (raw_segments : list Utterance.t) : list Segment.t :=
  omap
    (fun raw =>
       let text := strip (Utterance.text raw) in
       match text with
       | [] => None
       | _ =>
           let start := Utterance.startSec raw in
           let end_ :=
             if Qeq_bool (Utterance.endSec raw) 0 then start
             else Utterance.endSec raw in
           Some (Segment.mk start (Qmax start end_)
                   (Merge.speaker_or_default (Utterance.speaker raw))
                   text (Utterance.confidence raw))
       end)
    raw_segments.

(** The loop that shifts the segments of a chunk to job time. *)
Definition globalize (chunk_start : Q) (segments : list Segment.t)
  : list Utterance.t :=
  List.map
    (fun segment =>
       Utterance.mk
         (round (fadd chunk_start (Segment.start_sec segment)) 3)
         (round (fadd chunk_start (Segment.end_sec segment)) 3)
         (Segment.speaker segment)
         (Segment.text segment)
         (Segment.confidence segment))
    segments.

(** [f"chunk_{chunk_idx:04d}.json"]. *)
Definition checkpoint_name (chunk_idx : nat) : list N :=
  let digits := of_nat chunk_idx in
  lit "chunk_" ++ repeat 48%N (4 - List.length digits) ++ digits ++ lit ".json".

Section WithCollaborators.
Context `{Unicode}.
(** [now_iso()], the two engines on a chunk file, the hash of a rendered
    file, the duration ffprobe reports and [chunks_dir(job_id)]. *)
Variable now_iso : list N.
Variable transcribe_chunk_openai : list N -> outcome (list Segment.t * option Q).
Variable transcribe_chunk_fallback : list N -> fallback_result.
Variable sha256_file : list N -> list N.
Variable reported_duration : Q.
Variable chunks_dir : list N -> list N.

(** [str(row["chunk_hash"] or sha256_file(chunk_path))]. *)
Definition hash_or_file (row : Chunk.t) : list N :=
  match Chunk.chunk_hash row with
  | [] => sha256_file (Chunk.chunk_path row)
  | h => h
  end.

Definition upsert_planned (job_id : list N) (chunk : ChunkPlan.t) : M unit :=
  try_db (fun c =>
    Storage.upsert_chunk now_iso c job_id (ChunkPlan.idx chunk)
      (ChunkPlan.start_sec chunk) (ChunkPlan.end_sec chunk)
      (ChunkPlan.path chunk) (ChunkPlan.sha256 chunk) (lit "queued")
      None 0 None None).

Fixpoint upsert_all (job_id : list N) (planned : list ChunkPlan.t) : M unit :=
  match planned with
  | [] => ret tt
  | chunk :: rest => upsert_planned job_id chunk ;; upsert_all job_id rest
  end.

Definition preprocess_if_needed (job_id : list N) : M (Q * list Chunk.t) :=
  rows <- read_db (fun c => Storage.list_chunks c job_id) ;;
  match rows with
  | _ :: _ =>
      stored <- read_db (fun c =>
        match Storage.get_job c job_id with
        | Some j => Job.duration_sec j
        | None => 0%Q
        end) ;;
      if Qle_bool stored 0 then
        duration <- lift (Audio.probe_duration_seconds reported_duration) ;;
        with_db (fun c =>
          Storage.update_job_metadata now_iso c job_id duration
            (Z.of_nat (List.length rows))) ;;
        ret (duration, rows)
      else ret (stored, rows)
  | [] =>
      plan <- lift (Audio.create_chunks sha256_file reported_duration
                      (chunks_dir job_id) Audio.default_chunk_duration_sec
                      Audio.default_overlap_sec) ;;
      let '(duration, planned) := plan in
      with_db (fun c =>
        Storage.update_job_metadata now_iso c job_id duration
          (Z.of_nat (List.length planned))) ;;
      upsert_all job_id planned ;;
      rows' <- read_db (fun c => Storage.list_chunks c job_id) ;;
      ret (duration, rows')
  end.

Definition upsert_row (job_id : list N) (row : Chunk.t) (status : list N)
    (engine : list N) (attempts : Z) (transcript : option (list Utterance.t))
    (confidence : option Q) : M unit :=
  try_db (fun c =>
    Storage.upsert_chunk now_iso c job_id (Chunk.idx row)
      (Chunk.start_sec row) (Chunk.end_sec row) (Chunk.chunk_path row)
      (hash_or_file row) status (Some engine) attempts transcript confidence).

(** The part of the loop body after the engines: store the chunk as
    [done], write its checkpoint, count it and report progress. *)
Definition finish_chunk (job_id : list N) (total_chunks : Z) (row : Chunk.t)
    (attempts : Z) (done_chunks : Z) (engine : list N)
    (segments : list Segment.t) (avg_conf : option Q) : M (Z + Z) :=
  let globalized := globalize (Chunk.start_sec row) segments in
  upsert_row job_id row (lit "done") engine attempts (Some globalized) avg_conf ;;
  atomic_write_json job_id (checkpoint_name (Chunk.idx row))
    (ChunkCheckpoint job_id (Chunk.idx row) engine globalized) ;;
  let done_chunks := (done_chunks + 1)%Z in
  with_db (fun c =>
    Storage.update_job_status now_iso c job_id (lit "transcribing_openai")
      (Some done_chunks) (Some total_chunks) None) ;;
  emit (Progress
          (progress_payload job_id (lit "transcribing_openai") (lit "transcribe")
             (10 + inject_Z done_chunks / inject_Z (Z.max total_chunks 1) * 80)
             done_chunks total_chunks)) ;;
  ret (inl done_chunks).

(** One turn of [for row in chunk_rows] on a chunk that is not [done]:
    [inl] carries [done_chunks] into the next turn, [inr] is the exit
    code of a [return]. *)
Definition process_chunk (job_id : list N) (total_chunks : Z) (row : Chunk.t)
    (done_chunks : Z) : M (Z + Z) :=
  let chunk_path := Chunk.chunk_path row in
  let chunk_idx := Chunk.idx row in
  let attempts := (Chunk.attempt_count row + 1)%Z in
  upsert_row job_id row (lit "transcribing_openai") (lit "openai") attempts
    None None ;;
  match transcribe_chunk_openai chunk_path with
  | Returns (segments, avg_conf) =>
      finish_chunk job_id total_chunks row attempts done_chunks (lit "openai")
        segments avg_conf
  | OutOfFuel => lift OutOfFuel
  | Raises openai_exc =>
      emit (Progress
              (progress_payload job_id (lit "transcribing_fallback")
                 (lit "transcribe")
                 (10 + inject_Z done_chunks / inject_Z (Z.max total_chunks 1) * 70)
                 done_chunks total_chunks)) ;;
      match transcribe_chunk_fallback chunk_path with
      | FallbackOk segments coverage =>
          finish_chunk job_id total_chunks row attempts done_chunks
            (lit "fallback") segments (Some (or_zero coverage))
      | LowSpeakerConfidenceError conf_exc =>
          upsert_row job_id row (lit "paused_retry_openai") (lit "fallback")
            attempts None None ;;
          with_db (fun c =>
            Storage.update_job_status now_iso c job_id (lit "paused_retry_openai")
              (Some done_chunks) (Some total_chunks) (Some conf_exc)) ;;
          emit (Paused
                  (progress_payload job_id (lit "paused_retry_openai")
                     (lit "transcribe")
                     (10 + inject_Z done_chunks / inject_Z (Z.max total_chunks 1) * 80)
                     done_chunks total_chunks)) ;;
          ret (inr 2%Z)
      | FallbackError fallback_exc =>
          let detail :=
            lit "OpenAI: " ++ openai_exc ++ lit "; Fallback: " ++ fallback_exc in
          with_db (fun c =>
            Storage.update_job_status now_iso c job_id (lit "failed")
              (Some done_chunks) (Some total_chunks) (Some detail)) ;;
          emit (Error job_id
                  (lit "Chunk " ++ of_nat (chunk_idx + 1)
                   ++ lit " fejlede i både OpenAI og fallback. " ++ detail)) ;;
          ret (inr 1%Z)
      end
  end.

Fixpoint transcribe_rows (job_id : list N) (total_chunks : Z)
    (chunk_rows : list Chunk.t) (done_chunks : Z) : M (Z + Z) :=
  match chunk_rows with
  | [] => ret (inl done_chunks)
  | row :: rest =>
      if eqb (Chunk.status row) (lit "done") then
        transcribe_rows job_id total_chunks rest done_chunks
      else
        r <- process_chunk job_id total_chunks row done_chunks ;;
        match r with
        | inl done_chunks' => transcribe_rows job_id total_chunks rest done_chunks'
        | inr code => ret (inr code)
        end
  end.

(** The rows read back for the merge: [collected]. *)
Definition collect_segments (rows : list Chunk.t) : list Segment.t :=
  List.concat
    (List.map
       (fun row =>
          match Chunk.transcript_json row with
          | None => []
          | Some raw_segments => _coerce_segments raw_segments
          end)
       rows).

Definition transcribe_job (source_exists : bool) (source_path job_id : list N)
    (interviewer_count participant_count : Z) : M Z :=
  if negb source_exists then
    emit (Error job_id (lit "Kildedata findes ikke: " ++ source_path)) ;;
    with_db (fun c =>
      Storage.update_job_status now_iso c job_id (lit "failed") None None
        (Some (lit "Source fil mangler"))) ;;
    ret 1%Z
  else
    with_db (fun c =>
      Storage.update_job_status now_iso c job_id (lit "preprocessing")
        None None None) ;;
    emit (Progress
            (progress_payload job_id (lit "preprocessing") (lit "preprocess")
               3 0 0)) ;;
    pre <- preprocess_if_needed job_id ;;
    let '(duration, chunk_rows) := pre in
    let total_chunks := Z.of_nat (List.length chunk_rows) in
    let done_chunks :=
      Z.of_nat
        (List.length
           (List.filter (fun row => eqb (Chunk.status row) (lit "done")) chunk_rows)) in
    with_db (fun c =>
      Storage.update_job_status now_iso c job_id (lit "transcribing_openai")
        (Some done_chunks) (Some total_chunks) None) ;;
    r <- transcribe_rows job_id total_chunks chunk_rows done_chunks ;;
    match r with
    | inr code => ret code
    | inl done_chunks =>
        with_db (fun c =>
          Storage.update_job_status now_iso c job_id (lit "merging")
            (Some done_chunks) (Some total_chunks) None) ;;
        emit (Progress
                (progress_payload job_id (lit "merging") (lit "merge")
                   94 done_chunks total_chunks)) ;;
        rows <- read_db (fun c => Storage.list_chunks c job_id) ;;
        let collected := collect_segments rows in
        labeled <- lift (Merge.merge_and_label collected
                           interviewer_count participant_count) ;;
        with_db (fun c =>
          Storage.set_final_transcript now_iso c job_id labeled (lit "ready")) ;;
        with_db (fun c =>
          Storage.update_job_status now_iso c job_id (lit "ready")
            (Some total_chunks) (Some total_chunks) None) ;;
        atomic_write_json job_id (lit "result.json")
          (ResultCheckpoint job_id source_path duration labeled) ;;
        result <- read_db (fun c => Storage.read_job_result c job_id) ;;
        match result with
        | None =>
            emit (Error job_id (lit "Kunne ikke indlæse slutresultat")) ;;
            ret 1%Z
        | Some (rid, rpath, rduration, rtranscript) =>
            emit (Result rid rpath rduration rtranscript) ;;
            ret 0%Z
        end
    end.

End WithCollaborators.

End Worker.

(* ===================================================================== *)
(** * Statements of the specification *)
(* ===================================================================== *)

Module Spec.
Import Py Str.

(** The chunk plan as the specification words it, on the stored fields. *)
Definition chunks_as_specified (duration step : Q) (chunks : list ChunkPlan.t)
  : Prop :=
  (forall (i : nat) (c : ChunkPlan.t),
      chunks !! i = Some c ->
      (ChunkPlan.end_sec c <= duration
       /\ ChunkPlan.start_sec c < ChunkPlan.end_sec c)%Q)
  /\ (exists c : ChunkPlan.t,
         last chunks = Some c /\ (ChunkPlan.end_sec c == duration)%Q)
  /\ (forall (i : nat) (a b : ChunkPlan.t),
         chunks !! i = Some a -> chunks !! S i = Some b ->
         (ChunkPlan.start_sec b - ChunkPlan.start_sec a == step)%Q).

(** The chunk plan the planner stores: ends are rounded to milliseconds,
    so they are bounded by the rounded duration and may meet the start of
    the last chunk. *)
Definition chunks_as_stored (duration step : Q) (chunks : list ChunkPlan.t)
  : Prop :=
  (forall (i : nat) (c : ChunkPlan.t),
      chunks !! i = Some c ->
      (ChunkPlan.end_sec c <= round duration 3
       /\ ChunkPlan.start_sec c <= ChunkPlan.end_sec c)%Q)
  /\ (exists c : ChunkPlan.t,
         last chunks = Some c /\ (ChunkPlan.end_sec c == round duration 3)%Q)
  /\ (forall (i : nat) (a b : ChunkPlan.t),
         chunks !! i = Some a -> chunks !! S i = Some b ->
         (ChunkPlan.start_sec b - ChunkPlan.start_sec a == step
          /\ ChunkPlan.start_sec a < ChunkPlan.end_sec a)%Q).

(** A time with at most three decimals. *)
Definition is_milli (x : Q) : Prop :=
  exists z : Z, (x == inject_Z z / 1000)%Q.

(** The chunks the loop of [create_chunks] appends from [start] on. *)
Inductive planned_from (duration step : Q) : Q -> list ChunkPlan.t -> Prop :=
| planned_done (start : Q) :
    (duration <= start)%Q -> planned_from duration step start []
| planned_last (start : Q) (c : ChunkPlan.t) :
    (start < duration)%Q ->
    (ChunkPlan.start_sec c == start)%Q ->
    (ChunkPlan.end_sec c == round duration 3)%Q ->
    (ChunkPlan.start_sec c <= ChunkPlan.end_sec c)%Q ->
    planned_from duration step start [c]
| planned_more (start : Q) (c : ChunkPlan.t) (rest : list ChunkPlan.t) :
    (start + step < duration)%Q ->
    (ChunkPlan.start_sec c == start)%Q ->
    (ChunkPlan.start_sec c < ChunkPlan.end_sec c)%Q ->
    (ChunkPlan.end_sec c <= round duration 3)%Q ->
    rest <> [] ->
    planned_from duration step (start + step) rest ->
    planned_from duration step start (c :: rest).

(** The raw speaker ids of a segment list, with the default filled in. *)
Definition speaker_ids (segments : list Segment.t) : list (list N) :=
  List.map (fun seg => Merge.speaker_or_default (Segment.speaker seg)) segments.

(** What the statistics loop keeps true of its dict and its list. *)
Definition stats_consistent
    (st : gmap (list N) Merge._SpeakerStats * list (list N)) : Prop :=
  NoDup (snd st)
  /\ size (fst st) = List.length (snd st)
  /\ (forall id : list N, id ∈ snd st <-> is_Some (fst st !! id)).

(** An utterance labelled interviewer or participant. *)
Definition labelled (u : Utterance.t) : Prop :=
  Utterance.speaker u = lit "I" \/ Utterance.speaker u = lit "D".

(** The post-processing pipeline applied to a transcript it produced: the
    stored utterances are read back as segments, as the driver does. *)
Definition postprocess_again `{Unicode} (out : list Utterance.t)
    (interviewer_count participant_count : Z) : outcome (list Utterance.t) :=
  Merge.merge_and_label (Worker._coerce_segments out)
    interviewer_count participant_count.

(** Two speakers greet at the same time; one of them starts with a filler. *)
Definition overlapping_greeting : list Segment.t :=
  [Segment.mk 0 1 (lit "A") (lit "hmm good morning everyone") None;
   Segment.mk (1 # 2) (3 # 2) (lit "B") (lit "good morning everyone") None].

(** A job that failed before any chunk was made. *)
Definition failed_job : Job.t :=
  Job.mk (lit "j") (lit "/a.m4a") (lit "a.m4a") (lit "h") (lit "failed")
    (lit "t0") (lit "t0") 0 0 0 None (Some (lit "Source fil mangler")) 1 1.

Definition failed_store : Storage.conn :=
  Storage.mk_conn (<[lit "j" := failed_job]> ∅) ∅.

(** The remote client of the retry-exhaustion test: both calls time out. *)
Definition timing_out_client : OpenAIEngine.client :=
  OpenAIEngine.mk_client
    [OpenAIEngine.Fail (lit "The request timed out.");
     OpenAIEngine.Fail (lit "The request timed out.")] [].

(** A line of the editor text that the parser accepts: it matches the
    speaker prefix, and the rest of it is not blank. *)
Definition matches_grammar (raw_line speaker body : list N) : Prop :=
  exists (prefix : N) (group2 : list N),
    Editing.SPEAKER_PREFIX_match
      (List.filter (fun c => negb (c =? 13)%N) raw_line) = Some (prefix, group2)
    /\ speaker = Editing.upper_prefix prefix
    /\ body = strip group2
    /\ body <> [].

(** The utterance the parser makes of the line at 0-based position [k]. *)
Definition utterance_of_line (fallback_transcript : list Utterance.t)
    (k : nat) (speaker body : list N) (u : Utterance.t) : Prop :=
  (Utterance.startSec u == inject_Z (Z.of_nat k) * 3)%Q
  /\ (Utterance.endSec u == Utterance.startSec u + 1)%Q
  /\ Utterance.speaker u = speaker
  /\ Utterance.text u = body
  /\ Utterance.confidence u
     = match fallback_transcript !! k with
       | Some row => Utterance.confidence row
       | None => None
       end.


(** The utterance the driver stores for a segment of a chunk that starts
    at [chunk_start]: its times are [round(chunk_start + t, 3)] as the code
    computes them, the sum in binary64; speaker, text and confidence are
    the segment's. *)
Definition globalized (chunk_start : Q) (s : Segment.t) (u : Utterance.t)
  : Prop :=
  Utterance.startSec u = round (fadd chunk_start (Segment.start_sec s)) 3
  /\ Utterance.endSec u = round (fadd chunk_start (Segment.end_sec s)) 3
  /\ Utterance.speaker u = Segment.speaker s
  /\ Utterance.text u = Segment.text s
  /\ Utterance.confidence u = Segment.confidence s.



(** The float [0.0005], which is a little more than 1/2000. *)
Definition float_0_0005 : Q := 1152921504606847 # 2305843009213693952.


(** A queued job with one chunk that starts at zero. *)
Definition queued_job : Job.t :=
  Job.mk (lit "j") (lit "/a.m4a") (lit "a.m4a") (lit "h") (lit "queued")
    (lit "t0") (lit "t0") 0 0 0 None None 1 1.


Definition queued_world : Worker.world :=
  Worker.mk_world (Storage.mk_conn (<[lit "j" := queued_job]> ∅) ∅) [] ∅.




(** A remote engine that answers for the first chunk file and times out
    for every other one, and a local engine that answers. *)
Definition remote_fails_after_first (chunk_path : list N)
  : outcome (list Segment.t * option Q) :=
  if eqb chunk_path (lit "/c/chunk_0000.wav")
  then Returns ([Segment.mk 0 2 (lit "A") (lit "Hvad hedder du?") None], None)
  else Raises (lit "The request timed out.").

Definition fallback_answers (chunk_path : list N) : Worker.fallback_result :=
  Worker.FallbackOk
    [Segment.mk 1 3 (lit "B") (lit "Jeg hedder Mette.") None] (Some 1%Q).

(** The percent of the [progress] events of one stage, and the
    [chunksDone] of the [progress] and [paused] events, in order. *)
Definition stage_percents (stage : list N) (events : list Worker.event)
  : list Q :=
  omap
    (fun ev =>
       match ev with
       | Worker.Progress p =>
           if eqb (Worker.stage p) stage then Some (Worker.percent p) else None
       | _ => None
       end)
    events.

Definition event_chunks_done (ev : Worker.event) : option Z :=
  match ev with
  | Worker.Progress p => Some (Worker.chunksDone p)
  | Worker.Paused p => Some (Worker.chunksDone p)
  | _ => None
  end.

(** A list of counts that starts at or above [lo] and never decreases. *)
Fixpoint nondecreasing_from (lo : Z) (l : list Z) : Prop :=
  match l with
  | [] => True
  | x :: l' => (lo <= x)%Z /\ nondecreasing_from x l'
  end.

(** The [chunksDone] of the events that carry one, in order. *)
Definition chunks_done_trace (events : list Worker.event) : list Z :=
  omap event_chunks_done events.

(** A step of the driver that starts when the last reported count is at
    most [lo]: the events it prints carry counts that start at or above
    [lo] and never decrease, and when it returns [a] there is a count
    [hi] with [next a hi] that bounds all of them. *)
Definition steps {A : Type} (lo : Z) (m : Worker.M A)
    (next : A -> Z -> Prop) : Prop :=
  forall w : Worker.world,
  exists events : list Worker.event,
    Worker.stdout (snd (m w)) = Worker.stdout w ++ events
    /\ nondecreasing_from lo (chunks_done_trace events)
    /\ (forall a : A,
           fst (m w) = Returns a ->
           exists hi : Z,
             next a hi /\ (lo <= hi)%Z
             /\ Forall (fun n => (n <= hi)%Z) (chunks_done_trace events)).

(** The run of the driver on a new job over a source of 300 seconds, which
    is planned as two chunks. *)
Definition run_with_fallback : outcome Z * Worker.world :=
  @Worker.transcribe_job latin1 (lit "t1") remote_fails_after_first
    fallback_answers (fun _ => lit "sha") 300 (fun _ => lit "/c")
    true (lit "/a.m4a") (lit "j") 1 1 queued_world.

End Spec.

(* ===================================================================== *)
(** * Shapes of segments and transcripts *)
(* ===================================================================== *)

Module Shapes.
Import Py Str.

(** A text with a code point that is not white space. *)
Definition spoken (text : list N) : Prop :=
  exists c : N, In c text /\ isspace c = false.

(** Utterances in the order of their start times. *)
Definition chronological (out : list Utterance.t) : Prop :=
  forall (i : nat) (u v : Utterance.t),
    out !! i = Some u -> out !! S i = Some v ->
    (Utterance.startSec u <= Utterance.startSec v)%Q.


(** Three answers of one speaker, five seconds apart. *)
Definition monologue : list Segment.t :=
  [Segment.mk 0 4 (lit "A") (lit "Jeg arbejder som fysioterapeut.") None;
   Segment.mk 5 9 (lit "A") (lit "Det har jeg gjort i ti aar.") None;
   Segment.mk 10 14 (lit "A") (lit "Jeg bor i Aarhus.") None].

End Shapes.

(* ===================================================================== *)
(** * storage.py: the listings *)
(* ===================================================================== *)

Module Queries.
Import Py Str.

(** The statuses of [latest_incomplete_job]. *)
Definition INCOMPLETE : list (list N) :=
  List.map lit
    ["queued"; "preprocessing"; "transcribing_openai"; "transcribing_fallback";
     "merging"; "paused_retry_openai"]%string.

(** [<] on text under the BINARY collation. *)
Fixpoint text_lt (a b : list N) : bool :=
  match a, b with
  | _, [] => false
  | [], _ :: _ => true
  | x :: a', y :: b' => (x <? y)%N || ((x =? y)%N && text_lt a' b')
  end.

(** [<] on values of an [ORDER BY]: NULL sorts before every text. *)
Definition sql_lt (a b : option (list N)) : bool :=
  match a, b with
  | _, None => false
  | None, Some _ => true
  | Some x, Some y => text_lt x y
  end.

(** The columns [list_ready_jobs] selects. *)
Record ready_row : Type := mk_ready_row {
  id : list N;
  source_path : list N;
  source_name : list N;
  updated_at : list N;
  duration_sec : Q;
  interviewer_count : Z;
  participant_count : Z
}.

Section WithDatetime.
(** SQLite's [datetime()] of a stored time stamp; NULL when it does not
    parse. *)
Variable datetime : list N -> option (list N).

(** [ORDER BY datetime(updated_at) DESC].  SQL leaves the order of rows
    with equal keys open; here they keep the order of the table. *)
Definition newest_first (rows : list Job.t) : list Job.t :=
  sorted (fun a b => sql_lt b a) (fun j => datetime (Job.updated_at j)) rows.

Definition all_jobs (c : Storage.conn) : list Job.t :=
  List.map snd (map_to_list (Storage.jobs c)).

Definition latest_incomplete_job (c : Storage.conn) : option Job.t :=
  head
    (newest_first
       (List.filter (fun j => Merge.member (Job.status j) INCOMPLETE)
          (all_jobs c))).

Definition list_ready_jobs (c : Storage.conn) (limit : Z) : list ready_row :=
  let safe_limit := Z.max 1 (Z.min limit 500) in
  List.map
    (fun j =>
       mk_ready_row (Job.id j) (Job.source_path j) (Job.source_name j)
         (Job.updated_at j) (Job.duration_sec j) (Job.interviewer_count j)
         (Job.participant_count j))
    (take (Z.to_nat safe_limit)
       (newest_first
          (List.filter (fun j => eqb (Job.status j) (lit "ready")) (all_jobs c)))).

End WithDatetime.

End Queries.

Module Rows.
Import Py Str.

(** A store whose rows carry their own keys and whose chunks belong to a
    job of the store: what the primary keys and the foreign key of the two
    tables say. *)
Definition consistent (c : Storage.conn) : Prop :=
  (forall (k : list N) (j : Job.t),
      Storage.jobs c !! k = Some j -> Job.id j = k)
  /\ (forall (k : list N) (i : nat) (r : Chunk.t),
         Storage.chunks c !! (k, i) = Some r ->
         Chunk.job_id r = k /\ Chunk.idx r = i
         /\ is_Some (Storage.jobs c !! k)).

Definition empty_store : Storage.conn := Storage.mk_conn ∅ ∅.

(** A job with one finished chunk, as a resumed run finds it. *)
Definition finished_chunk : Chunk.t :=
  Chunk.mk (lit "j") 0 0 240 (lit "/c/chunk_0000.wav") (lit "sha")
    (lit "done") (Some (lit "openai")) 1 (Some []) None (lit "t0").

Definition resumed_store : Storage.conn :=
  Storage.mk_conn (<[lit "j" := Spec.queued_job]> ∅)
    (<[(lit "j", 0%nat) := finished_chunk]> ∅).

End Rows.

(* ===================================================================== *)
(** * The lines of the editor *)
(* ===================================================================== *)

Module EditorLines.
Import Py Str.

(** What is wrong with a line the editor parser refuses: the text of its
    error after the line number. *)
Definition line_error (raw_line : list N) : option (list N) :=
  let line := List.filter (fun c => negb (c =? 13)%N) raw_line in
  match strip line with
  | [] =>
      Some (lit " er tom. Tomme linjer er ikke tilladt; brug formatet 'I: ...' eller 'D: ...' på hver linje.")
  | _ =>
      match Editing.SPEAKER_PREFIX_match line with
      | None =>
          Some (lit " mangler taler-prefix. Hver ikke-tom linje skal starte med 'I:' eller 'D:'.")
      | Some (_, group2) =>
          match strip group2 with
          | [] =>
              Some (lit " er tom efter taler-prefix. Brug formatet 'I: ...' eller 'D: ...'.")
          | _ => None
          end
      end
  end.

(** The text of the repository's test of a missing prefix: the second
    line has none. *)
Definition second_line_without_prefix : list N :=
  lit "I: Dette er ok" ++ [10%N] ++ lit "Dette er ikke ok".

End EditorLines.

(* ===================================================================== *)
(** * The remote engine: overlaps and replies *)
(* ===================================================================== *)

Module Replies.
Import Py Str.

(** The overlap of a segment with a diarized segment, and the distance of
    their midpoints, as [_assign_speaker] computes them. *)
Definition overlap_with (segment candidate : Segment.t) : Q :=
  OpenAIEngine._overlap (Segment.start_sec segment) (Segment.end_sec segment)
    (Segment.start_sec candidate) (Segment.end_sec candidate).

Definition distance_to (segment candidate : Segment.t) : Q :=
  Qabs (OpenAIEngine.midpoint segment - OpenAIEngine.midpoint candidate).

(** What the remote client answers to a call, given the reply that is next
    in its script. *)
Definition reply (next : option OpenAIEngine.action)
  : outcome (list Segment.t) :=
  match next with
  | Some (OpenAIEngine.Respond segments) => Returns segments
  | Some (OpenAIEngine.Fail message) => Raises message
  | None => Raises (lit "no more actions configured")
  end.

(** The replies of the repository's test of a retry: the diarized and the
    text segments of the second attempt. *)
Definition diarized_reply : list Segment.t :=
  [Segment.mk 0 1 (lit "speaker_A") (lit "placeholder") None].

Definition whisper_reply : list Segment.t :=
  [Segment.mk 0 1 (lit "unknown") (lit "Test") (Some (9 # 10))].

End Replies.

(* ===================================================================== *)
(** * fallback_engine.py *)
(* ===================================================================== *)

Module FallbackEngine.
Import Py Str.

(** What the loop of [transcribe_chunk_fallback] reads from a segment of
    [assigned["segments"]]: [text] is [str(raw.get("text", ""))];
    [speaker] is the value of the key as a string, [None] when the key is
    absent or null; [start] and [end_] are the values that [float()]
    accepts, [None] otherwise; [words] holds, for every word, its score
    when it has one; [score] is the score of the segment. *)
Record raw_segment : Type := mk_raw {
  text : list N;
  speaker : option (list N);
  start : option Q;
  end_ : option Q;
  words : list (option Q);
  score : option Q
}.

(** The mean of the scores of the words, else the score of the segment;
    the mean is the exact one. *)
Definition _segment_confidence (segment : raw_segment) : option Q :=
  match omap (fun w => w) (words segment) with
  | [] => score segment
  | vals =>
      Some (fold_left Qplus vals 0 / inject_Z (Z.of_nat (List.length vals)))%Q
  end.

(** The body of [for raw in raw_segments]: the segment appended, if any. *)
Definition read_segment (raw : raw_segment) : option Segment.t :=
  match strip (text raw) with
  | [] => None
  | text =>
      let speaker :=
        match speaker raw with
        | Some (c :: s) => c :: s
        | _ => lit "unknown"
        end in
      let start := match start raw with Some x => x | None => 0%Q end in
      let end_ := match end_ raw with Some x => x | None => start end in
      Some (Segment.mk (Qmax 0 start) (Qmax start end_) speaker text
              (_segment_confidence raw))
  end.

(** [seg.speaker not in {"", "unknown", "None"}]. *)
Definition has_speaker (seg : Segment.t) : bool :=
  negb (Merge.member (Segment.speaker seg) [[]; lit "unknown"; lit "None"]).

(** [len(with_speaker) / len(segments)]. *)
Definition coverage_of (segments : list Segment.t) : Q :=
  (inject_Z (Z.of_nat (List.length (List.filter has_speaker segments)))
   / inject_Z (Z.of_nat (List.length segments)))%Q.

(** [len({seg.speaker for seg in with_speaker})]. *)
Definition speaker_count_of (segments : list Segment.t) : nat :=
  size (list_to_set (List.map Segment.speaker (List.filter has_speaker segments))
        : gset (list N)).

Section WithWhisperX.
(** The Hugging Face token of the environment; WhisperX on a chunk file
    (loading the model, transcription, alignment, diarization and the
    assignment of speakers), which gives the raw segments or raises; and
    the format [{x:.2f}] of a float. *)
Variable hf_token : list N.
Variable whisperx : list N -> list raw_segment + list N.
Variable format_2f : Q -> list N.

Definition transcribe_chunk_fallback (chunk_path : list N)
  : Worker.fallback_result :=
  match strip hf_token with
  | [] =>
      Worker.FallbackError
        (lit "HUGGINGFACE_TOKEN mangler. Lokal diarization kræver Hugging Face token.")
  | _ =>
      match whisperx chunk_path with
      | inr message => Worker.FallbackError message
      | inl raw_segments =>
          let segments := omap read_segment raw_segments in
          match segments with
          | [] =>
              Worker.LowSpeakerConfidenceError
                (lit "Fallback gav ingen segmenter.")
          | _ =>
              let coverage := coverage_of segments in
              let speaker_count := speaker_count_of segments in
              if Qle_bool (85 # 100) coverage && (2 <=? speaker_count)%nat
              then Worker.FallbackOk segments (Some coverage)
              else
                Worker.LowSpeakerConfidenceError
                  (lit "Lav diarization-sikkerhed i fallback (coverage="
                   ++ format_2f coverage ++ lit ", speakers="
                   ++ of_nat speaker_count ++ lit ").")
          end
      end
  end.

End WithWhisperX.

(** Two segments that WhisperX attributes to two speakers. *)
Definition two_voices (chunk_path : list N) : list raw_segment + list N :=
  inl [mk_raw (lit " Hvad hedder du? ") (Some (lit "SPEAKER_00")) (Some 0%Q)
         (Some 2%Q) [Some (9 # 10)%Q; None] None;
       mk_raw (lit "Jeg hedder Mette.") (Some (lit "SPEAKER_01")) (Some 2%Q)
         (Some 4%Q) [] (Some (8 # 10)%Q)].

End FallbackEngine.

(* ===================================================================== *)
(** * Runs of the driver *)
(* ===================================================================== *)

Module Runs.
Import Py Str Worker.

(** The weakest precondition of a computation of the driver: [post] holds
    of the way it ends and of the world it leaves. *)
Definition wp {A : Type} (m : M A) (post : outcome A -> world -> Prop)
    (w : world) : Prop :=
  post (fst (m w)) (snd (m w)).

(** A postcondition for the runs that return. *)
Definition returning {A : Type} (post : A -> world -> Prop)
  : outcome A -> world -> Prop :=
  fun o w => match o with Returns a => post a w | _ => True end.

(** The job has a row. *)
Definition has_job (job_id : list N) (w : world) : Prop :=
  is_Some (Storage.jobs (db w) !! job_id).

(** The job has a row, and [duration_sec] is its duration. *)
Definition lasting (duration_sec : Q) (job_id : list N) (w : world) : Prop :=
  exists row : Job.t,
    Storage.jobs (db w) !! job_id = Some row
    /\ Job.duration_sec row = duration_sec.

(** How a run with exit code [code] leaves the job and the output: the
    status of the job, its error message and the last line printed. *)
Definition ended_as (code : Z) (job_id : list N) (w : world) : Prop :=
  exists row : Job.t,
    Storage.jobs (db w) !! job_id = Some row
    /\ match code with
       | 0%Z =>
           Job.status row = lit "ready" /\ Job.error_message row = None
           /\ exists rid rpath rduration rtranscript,
                last (stdout w) = Some (Result rid rpath rduration rtranscript)
       | 1%Z =>
           Job.status row = lit "failed" /\ is_Some (Job.error_message row)
           /\ exists jid message, last (stdout w) = Some (Error jid message)
       | 2%Z =>
           Job.status row = lit "paused_retry_openai"
           /\ is_Some (Job.error_message row)
           /\ exists payload, last (stdout w) = Some (Paused payload)
       | _ => False
       end.

(** A progress report within bounds: a percentage, and a count of
    finished chunks that does not exceed the total. *)
Definition in_bounds (ev : event) : Prop :=
  match ev with
  | Progress p | Paused p =>
      (0 <= percent p <= 100)%Q /\ (0 <= chunksDone p <= chunksTotal p)%Z
  | _ => True
  end.

(** The lines printed since the output was [base] are all [good]. *)
Definition printed_since (base : list event) (good : event -> Prop)
    (w : world) : Prop :=
  exists events : list event,
    stdout w = base ++ events /\ Forall good events.

(** The rows of a list that are not [done]. *)
Definition pending (chunk_rows : list Chunk.t) : nat :=
  List.length
    (List.filter (fun row => negb (eqb (Chunk.status row) (lit "done")))
       chunk_rows).

(** What a run of the driver for [job_id] leaves as it was in [base]: the
    chunk rows under the keys in [keep], the rows of the other jobs and
    the checkpoints written for them. *)
Definition left_alone (job_id : list N) (keep : list N * nat -> Prop)
    (base w : world) : Prop :=
  (forall key : list N * nat,
      keep key -> Storage.chunks (db w) !! key = Storage.chunks (db base) !! key)
  /\ (forall k : list N,
         k <> job_id -> Storage.jobs (db w) !! k = Storage.jobs (db base) !! k)
  /\ (forall (k name : list N),
         k <> job_id -> files w !! (k, name) = files base !! (k, name)).

(** The world a resumed run of that job starts in. *)
Definition resumed_world : world := mk_world Rows.resumed_store [] ∅.

End Runs.

(* ===================================================================== *)
(** * exporters.py *)
(* ===================================================================== *)

Module Exporters.
Import Py Str.

(** The body of the loop of [_line_entries] on the entries so far and the
    next line number. *)
Definition line_entries_step (state : list (Z * list N * list N) * Z)
    (segment : Utterance.t) : list (Z * list N * list N) * Z :=
  let '(entries, line_no) := state in
  let speaker :=
    match Utterance.speaker segment with
    | [] => lit "D"
    | speaker => speaker
    end in
  let text := strip (Utterance.text segment) in
  match text with
  | [] => (entries, line_no)
  | _ => (entries ++ [(line_no, speaker, text)], (line_no + 1)%Z)
  end.

Definition _line_entries (segments : list Utterance.t)
  : list (Z * list N * list N) :=
  fst (fold_left line_entries_step segments ([], 1%Z)).

End Exporters.

(* ===================================================================== *)
(** * worker.py: update-transcript *)
(* ===================================================================== *)

Module Commands.
Import Py Str.



Section WithClock.
Variable now_iso : list N.


End WithClock.

End Commands.

(* ===================================================================== *)
(** * Rounding *)
(* ===================================================================== *)

Section Rounding.
Import Py.
Local Open Scope Q_scope.

(** Turn the value of a comparison into the order it decides. *)
Ltac compare_to_order E :=
  match type of E with
  | (_ ?= _)%Q = Eq => apply (proj2 (Qeq_alt _ _)) in E
  | (_ ?= _)%Q = Lt => apply (proj2 (Qlt_alt _ _)) in E
  | (_ ?= _)%Q = Gt => apply (proj2 (Qgt_alt _ _)) in E
  end.

Lemma Qltb_lt (x y : Q) : Qltb x y = true <-> x < y.
Proof.
  unfold Qltb. rewrite negb_true_iff. split; intros Hxy.
  - apply Qnot_le_lt. intros Hle. apply Qle_bool_iff in Hle. congruence.
  - destruct (Qle_bool y x) eqn:E; [|reflexivity].
    apply Qle_bool_iff in E. exfalso. apply (Qlt_not_le _ _ Hxy E).
Qed.

Lemma Qltb_ge (x y : Q) : Qltb x y = false <-> y <= x.
Proof.
  unfold Qltb. rewrite negb_false_iff. apply Qle_bool_iff.
Qed.


Lemma round_half_even_comp (x y : Q) :
  x == y -> round_half_even x = round_half_even y.
Proof.
  intros Hxy. unfold round_half_even.
  rewrite (Qfloor_comp _ _ Hxy).
  assert (Hc : (x - inject_Z (Qfloor y) ?= 1 # 2)
               = (y - inject_Z (Qfloor y) ?= 1 # 2)).
  { apply Qcompare_comp; [rewrite Hxy|]; reflexivity. }
  rewrite Hc. reflexivity.
Qed.

Lemma round_half_even_Z (z : Z) : round_half_even (inject_Z z) = z.
Proof.
  unfold round_half_even. rewrite Qfloor_Z.
  assert (E : (inject_Z z - inject_Z z ?= 1 # 2) = Lt).
  { apply (proj1 (Qlt_alt _ _)). lra. }
  rewrite E. reflexivity.
Qed.

Lemma round_half_even_near_floor (x : Q) :
  (Qfloor x <= round_half_even x <= Qfloor x + 1)%Z.
Proof.
  unfold round_half_even.
  destruct (x - inject_Z (Qfloor x) ?= 1 # 2);
    try (destruct (Z.even (Qfloor x))); lia.
Qed.

Lemma round_half_even_mono (x y : Q) :
  x <= y -> (round_half_even x <= round_half_even y)%Z.
Proof.
  intros Hxy.
  pose proof (Qfloor_resp_le _ _ Hxy) as Hfl.
  destruct (Z.eq_dec (Qfloor x) (Qfloor y)) as [Heq|Hne].
  - unfold round_half_even. rewrite Heq.
    destruct (x - inject_Z (Qfloor y) ?= 1 # 2) eqn:Ex;
      destruct (y - inject_Z (Qfloor y) ?= 1 # 2) eqn:Ey;
      try (destruct (Z.even (Qfloor y))); try lia;
      compare_to_order Ex; compare_to_order Ey; exfalso; lra.
  - pose proof (round_half_even_near_floor x).
    pose proof (round_half_even_near_floor y). lia.
Qed.

Lemma pow10_pos (n : nat) : 0 < inject_Z (10 ^ Z.of_nat n).
Proof.
  change 0 with (inject_Z 0). rewrite <- Zlt_Qlt.
  apply Z.pow_pos_nonneg; lia.
Qed.

Lemma round_comp (x y : Q) (n : nat) : x == y -> round x n == round y n.
Proof.
  intros Hxy. unfold round.
  rewrite (round_half_even_comp (x * inject_Z (10 ^ Z.of_nat n))
             (y * inject_Z (10 ^ Z.of_nat n))).
  - reflexivity.
  - rewrite Hxy. reflexivity.
Qed.

Lemma round_mono (x y : Q) (n : nat) : x <= y -> round x n <= round y n.
Proof.
  intros Hxy. unfold round.
  pose proof (pow10_pos n) as Hp.
  apply Qmult_le_compat_r.
  - rewrite <- Zle_Qle. apply round_half_even_mono.
    apply Qmult_le_compat_r; [exact Hxy | apply Qlt_le_weak, Hp].
  - apply Qlt_le_weak, Qinv_lt_0_compat, Hp.
Qed.

(** A value with at most [n] decimals is its own rounding. *)
Lemma round_exact (z : Z) (n : nat) :
  round (inject_Z z / inject_Z (10 ^ Z.of_nat n)) n
  == inject_Z z / inject_Z (10 ^ Z.of_nat n).
Proof.
  unfold round. pose proof (pow10_pos n) as Hp.
  rewrite (round_half_even_comp _ (inject_Z z)).
  - rewrite round_half_even_Z. reflexivity.
  - field. lra.
Qed.


End Rounding.

(* ===================================================================== *)
(** * The chunk planner *)
(* ===================================================================== *)

Section ChunkPlanner.
Import Py Audio Spec.
Local Open Scope Q_scope.

Variable sha256_file : list N -> list N.
Variable chunk_dir : list N.
Variables duration chunk_duration_sec step : Q.
Hypothesis step_ge_1 : 1 <= step.
Hypothesis step_le_chunk : step <= chunk_duration_sec.
Hypothesis step_milli : is_milli step.

Lemma is_milli_round (x : Q) : is_milli x -> round x 3 == x.
Proof.
  intros [z Hz]. rewrite (round_comp _ _ 3 Hz), Hz.
  apply (round_exact z 3).
Qed.

Lemma is_milli_plus (x y : Q) : is_milli x -> is_milli y -> is_milli (x + y).
Proof.
  intros [a Ha] [b Hb]. exists (a + b)%Z.
  rewrite Ha, Hb, inject_Z_plus. field.
Qed.

(** The loop returns within its fuel, and its chunks are as planned. *)
Lemma create_chunks_loop_planned (fuel idx : nat) (start : Q) :
  is_milli start ->
  duration - start <= inject_Z (Z.of_nat fuel) ->
  exists chunks,
    create_chunks_loop sha256_file fuel chunk_dir duration chunk_duration_sec
      step idx start = Returns chunks
    /\ planned_from duration step start chunks.
Proof using step_ge_1 step_le_chunk step_milli.
  revert idx start. induction fuel as [|fuel IH]; intros idx start Hm Hfuel.
  - simpl. assert (Hge : duration <= start).
    { change (inject_Z (Z.of_nat 0)) with 0 in Hfuel. lra. }
    apply Qltb_ge in Hge. rewrite Hge. eexists; split; [reflexivity|].
    constructor. apply Qltb_ge, Hge.
  - cbn [create_chunks_loop].
    destruct (Qltb start duration) eqn:Hlt.
    2:{ eexists; split; [reflexivity|]. constructor. apply Qltb_ge, Hlt. }
    apply Qltb_lt in Hlt.
    destruct (IH (S idx) (start + step)) as (rest & Hrest & Hplan).
    { apply is_milli_plus; assumption. }
    { rewrite Nat2Z.inj_succ, <- Z.add_1_r, inject_Z_plus in Hfuel.
      change (inject_Z 1) with 1 in Hfuel. lra. }
    rewrite Hrest. cbn [bind]. eexists; split; [reflexivity|].
    pose proof (is_milli_round start Hm) as Hstart.
    pose proof (is_milli_round (start + step)
                  (is_milli_plus _ _ Hm step_milli)) as Hnext.
    assert (Hend : round start 3
                   <= round (Qmin duration (start + chunk_duration_sec)) 3).
    { apply round_mono, Q.min_glb; lra. }
    destruct rest as [|c' rest'].
    + inversion Hplan; subst.
      apply planned_last; cbn; try assumption.
      apply round_comp, Q.min_l. lra.
    + assert (Hmore : start + step < duration).
      { inversion Hplan; subst; lra. }
      apply planned_more; cbn; try assumption.
      * apply Qlt_le_trans with (start + step); [lra|].
        rewrite <- Hnext. apply round_mono, Q.min_glb; lra.
      * apply round_mono, Q.le_min_l.
      * discriminate.
Qed.

Lemma planned_from_head (start : Q) (c : ChunkPlan.t) (rest : list ChunkPlan.t) :
  planned_from duration step start (c :: rest) -> ChunkPlan.start_sec c == start.
Proof. intros Hplan. inversion Hplan; subst; assumption. Qed.

Lemma planned_from_bounds (start : Q) (chunks : list ChunkPlan.t) :
  planned_from duration step start chunks ->
  forall (i : nat) (c : ChunkPlan.t),
    chunks !! i = Some c ->
    ChunkPlan.end_sec c <= round duration 3
    /\ ChunkPlan.start_sec c <= ChunkPlan.end_sec c.
Proof.
  induction 1 as [s Hge|s c Hlt Hs He Hle|s c rest Hlt Hs Hse He Hne Hplan IH];
    intros i x Hi.
  - discriminate.
  - destruct i; [|discriminate]. inversion Hi; subst. lra.
  - destruct i as [|i]; [inversion Hi; subst; lra|].
    apply (IH i x Hi).
Qed.

Lemma planned_from_last (start : Q) (chunks : list ChunkPlan.t) :
  planned_from duration step start chunks -> chunks <> [] ->
  exists c, last chunks = Some c /\ ChunkPlan.end_sec c == round duration 3.
Proof.
  induction 1 as [s Hge|s c Hlt Hs He Hle|s c rest Hlt Hs Hse He Hne Hplan IH];
    intros Hnil.
  - contradiction.
  - exists c. split; [reflexivity|assumption].
  - destruct (IH Hne) as (l & Hl & Hend). exists l. split; [|assumption].
    destruct rest; [contradiction|]. exact Hl.
Qed.

Lemma planned_from_steps (start : Q) (chunks : list ChunkPlan.t) :
  planned_from duration step start chunks ->
  forall (i : nat) (a b : ChunkPlan.t),
    chunks !! i = Some a -> chunks !! S i = Some b ->
    ChunkPlan.start_sec b - ChunkPlan.start_sec a == step
    /\ ChunkPlan.start_sec a < ChunkPlan.end_sec a.
Proof.
  induction 1 as [s Hge|s c Hlt Hs He Hle|s c rest Hlt Hs Hse He Hne Hplan IH];
    intros i a b Ha Hb.
  - discriminate.
  - destruct i; discriminate.
  - destruct i as [|i].
    + inversion Ha; subst. destruct rest as [|c' rest']; [discriminate|].
      inversion Hb; subst.
      pose proof (planned_from_head _ _ _ Hplan) as Hc'.
      split; [lra|assumption].
    + apply (IH i a b Ha Hb).
Qed.

Lemma create_chunks_fuel_enough :
  duration - 0 <= inject_Z (Z.of_nat (create_chunks_fuel duration)).
Proof.
  unfold create_chunks_fuel.
  pose proof (Qle_ceiling duration) as Hc.
  rewrite Nat2Z.inj_succ, <- Z.add_1_r, inject_Z_plus.
  change (inject_Z 1) with 1.
  destruct (Z.le_gt_cases 0 (Qceiling duration)) as [Hpos|Hneg].
  - rewrite Z2Nat.id by assumption. lra.
  - assert (Hz : (Qceiling duration <= 0)%Z) by lia.
    rewrite Zle_Qle in Hz. change (inject_Z 0) with 0 in Hz.
    assert (H0 : (0 <= Z.of_nat (Z.to_nat (Qceiling duration)))%Z) by lia.
    rewrite Zle_Qle in H0. change (inject_Z 0) with 0 in H0. lra.
Qed.

End ChunkPlanner.

(** The planner returns a stored plan for every positive duration, for a
    step of whole milliseconds, at least one second and at most the
    chunk duration. *)
Lemma create_chunks_stored (sha256_file : list N -> list N) (chunk_dir : list N)
    (reported chunk_duration_sec overlap_sec : Q) :
  (0 < reported)%Q ->
  (Qmax 1 (chunk_duration_sec - overlap_sec) <= chunk_duration_sec)%Q ->
  Spec.is_milli (Qmax 1 (chunk_duration_sec - overlap_sec)) ->
  exists chunks,
    Audio.create_chunks sha256_file reported chunk_dir chunk_duration_sec
      overlap_sec = Py.Returns (reported, chunks)
    /\ chunks <> []
    /\ Spec.chunks_as_stored reported
         (Qmax 1 (chunk_duration_sec - overlap_sec)) chunks.
Proof.
  intros Hpos Hle Hmilli. unfold Audio.create_chunks, Audio.probe_duration_seconds.
  destruct (Qle_bool reported 0) eqn:E.
  { apply Qle_bool_iff in E. exfalso. apply (Qlt_not_le _ _ Hpos E). }
  cbn [Py.bind].
  set (step := Qmax 1 (chunk_duration_sec - overlap_sec)) in *.
  assert (Hstep : (1 <= step)%Q) by apply Q.le_max_l.
  destruct (create_chunks_loop_planned sha256_file chunk_dir reported
              chunk_duration_sec step Hstep Hle Hmilli
              (Audio.create_chunks_fuel reported) 0 0)
    as (chunks & Hrun & Hplan).
  { exists 0%Z. reflexivity. }
  { apply create_chunks_fuel_enough. }
  rewrite Hrun. cbn [Py.bind]. exists chunks. split; [reflexivity|].
  assert (Hne : chunks <> []).
  { intros ->. inversion Hplan; subst. apply (Qlt_not_le _ _ Hpos). assumption. }
  split; [exact Hne|]. repeat split.
  - eapply planned_from_bounds; eassumption.
  - eapply planned_from_bounds; eassumption.
  - eapply planned_from_last; eassumption.
  - eapply planned_from_steps; eassumption.
  - eapply planned_from_steps; eassumption.
Qed.

(* ===================================================================== *)
(** * Sorting *)
(* ===================================================================== *)

Section Sorting.
Import Py.
Context {A K : Type} (lt : K -> K -> bool) (key : A -> K).

Lemma insert_by_perm (x : A) (l : list A) :
  Permutation (insert_by lt key x l) (x :: l).
Proof.
  induction l as [|y l IH]; cbn; [reflexivity|].
  destruct (lt (key y) (key x)); [|reflexivity].
  rewrite IH. apply perm_swap.
Qed.

Lemma sorted_perm (l : list A) : Permutation (sorted lt key l) l.
Proof.
  induction l as [|x l IH]; cbn; [reflexivity|].
  rewrite insert_by_perm. constructor. exact IH.
Qed.

Lemma sorted_length (l : list A) : length (sorted lt key l) = length l.
Proof. apply Permutation_length, sorted_perm. Qed.

Lemma sorted_In (x : A) (l : list A) : In x (sorted lt key l) <-> In x l.
Proof.
  split; apply Permutation_in; [|symmetry]; apply sorted_perm.
Qed.

End Sorting.

(* ===================================================================== *)
(** * The post-processor *)
(* ===================================================================== *)

Section PostProcessor.
Import Py Str Merge.
Context `{Unicode}.

Lemma set_last_length {A : Type} (l : list A) (x y : A) :
  last l = Some y -> length (set_last l x) = length l.
Proof.
  intros Hl. apply last_Some in Hl as [l' ->].
  unfold set_last. rewrite removelast_last, !length_app. reflexivity.
Qed.

Lemma dedupe_step_length (merged : list Segment.t) (segment : Segment.t) :
  (length (dedupe_step merged segment) <= S (length merged))%nat.
Proof.
  unfold dedupe_step.
  destruct (strip (Segment.text segment)); [lia|].
  destruct (last merged) as [previous|] eqn:Hlast.
  2:{ rewrite length_app. cbn. lia. }
  repeat match goal with
         | |- context [if ?b then _ else _] => destruct b
         end;
    rewrite ?(set_last_length _ _ _ Hlast), ?length_app; cbn; lia.
Qed.

Lemma style_filter_step_length (filtered : list Segment.t) (segment : Segment.t) :
  (length (style_filter_step filtered segment) <= S (length filtered))%nat.
Proof.
  unfold style_filter_step.
  destruct (_strip_fillers (strip (Segment.text segment))); [lia|].
  repeat match goal with
         | |- context [if ?b then _ else _] => destruct b
         end;
    rewrite ?length_app; cbn; lia.
Qed.

Lemma merge_runs_step_length (merged_runs : list Segment.t) (segment : Segment.t) :
  (length (merge_runs_step merged_runs segment) <= S (length merged_runs))%nat.
Proof.
  unfold merge_runs_step.
  destruct (last merged_runs) as [previous|] eqn:Hlast.
  2:{ rewrite length_app. cbn. lia. }
  destruct (_ && _);
    rewrite ?(set_last_length _ _ _ Hlast), ?length_app; cbn; lia.
Qed.

(** A loop that appends at most one item per turn. *)
Lemma fold_left_length {A B : Type} (step : list A -> B -> list A) :
  (forall acc x, (length (step acc x) <= S (length acc))%nat) ->
  forall (l : list B) (acc : list A),
    (length (fold_left step l acc) <= length acc + length l)%nat.
Proof.
  intros Hstep l. induction l as [|x l IH]; intros acc; cbn; [lia|].
  specialize (IH (step acc x)). specialize (Hstep acc x). lia.
Qed.

Lemma dedupe_segments_length (segments : list Segment.t) :
  (length (dedupe_segments segments) <= length segments)%nat.
Proof.
  unfold dedupe_segments.
  pose proof (fold_left_length dedupe_step dedupe_step_length
                (sorted pair_lt by_time segments) []) as Hlen.
  rewrite sorted_length in Hlen. cbn in Hlen. exact Hlen.
Qed.

(** The interruption loop ends within its fuel and only removes items. *)
Lemma compact_loop_returns (fuel : nat) (compacted : list Segment.t) (i : nat) :
  (1 <= i)%nat -> (length compacted - i <= fuel)%nat ->
  exists result,
    compact_loop fuel compacted i = Returns result
    /\ (length result <= length compacted)%nat.
Proof.
  revert compacted i. induction fuel as [|fuel IH]; intros compacted i Hi Hfuel.
  - cbn [compact_loop]. destruct (i <? length compacted - 1)%nat eqn:E.
    + apply Nat.ltb_lt in E. lia.
    + eexists; split; [reflexivity|lia].
  - cbn [compact_loop]. destruct (i <? length compacted - 1)%nat eqn:E.
    2:{ eexists; split; [reflexivity|lia]. }
    apply Nat.ltb_lt in E.
    destruct (lookup_lt_is_Some_2 compacted (i - 1)) as [previous ->]; [lia|].
    destruct (lookup_lt_is_Some_2 compacted i) as [current Hcur]; [lia|].
    rewrite Hcur.
    destruct (lookup_lt_is_Some_2 compacted (i + 1)) as [following ->]; [lia|].
    match goal with
    | |- context [if ?b then _ else _] => destruct b
    end.
    + destruct (IH (delete i compacted) i Hi) as (r & Hr & Hlen).
      { rewrite length_delete by (rewrite Hcur; eauto). lia. }
      rewrite Hr. eexists; split; [reflexivity|].
      rewrite length_delete in Hlen by (rewrite Hcur; eauto). lia.
    + destruct (IH compacted (S i)) as (r & Hr & Hlen); [lia|lia|].
      rewrite Hr. eexists; split; [reflexivity|lia].
Qed.

Lemma filter_style_noise_returns (segments : list Segment.t) :
  exists filtered,
    filter_style_noise segments = Returns filtered
    /\ (length filtered <= length segments)%nat.
Proof.
  unfold filter_style_noise.
  set (filtered := fold_left style_filter_step _ []).
  assert (Hlen : (length filtered <= length segments)%nat).
  { pose proof (fold_left_length style_filter_step style_filter_step_length
                  (sorted pair_lt by_time segments) []) as Hlen.
    rewrite sorted_length in Hlen. exact Hlen. }
  destruct (length filtered <? 3)%nat.
  - eexists; split; [reflexivity|exact Hlen].
  - destruct (compact_loop_returns (length filtered) filtered 1)
      as (compacted & Hrun & Hc); [lia|lia|].
    rewrite Hrun. cbn [bind]. eexists; split; [reflexivity|].
    pose proof (fold_left_length merge_runs_step merge_runs_step_length
                  compacted []) as Hm.
    cbn in Hm. lia.
Qed.

Lemma map_to_interviewer_participant_length (segments : list Segment.t)
    (interviewer_count participant_count : Z) :
  length (map_to_interviewer_participant segments interviewer_count
            participant_count) = length segments.
Proof.
  unfold map_to_interviewer_participant.
  rewrite length_map. apply sorted_length.
Qed.

(** Every utterance of the mapping carries one of the two labels. *)
Lemma map_to_interviewer_participant_labels (segments : list Segment.t)
    (interviewer_count participant_count : Z) :
  Forall (fun u => Utterance.speaker u = lit "I" \/ Utterance.speaker u = lit "D")
    (map_to_interviewer_participant segments interviewer_count participant_count).
Proof.
  unfold map_to_interviewer_participant.
  apply Forall_forall. intros u Hu. apply list_elem_of_In in Hu.
  apply in_map_iff in Hu as (segment & <- & _). cbn.
  destruct (member _ _); [left|right]; reflexivity.
Qed.

Lemma merge_and_label_returns (segments : list Segment.t)
    (interviewer_count participant_count : Z) :
  exists filtered,
    filter_style_noise (dedupe_segments segments) = Returns filtered
    /\ (length filtered <= length segments)%nat
    /\ merge_and_label segments interviewer_count participant_count
       = Returns (map_to_interviewer_participant filtered interviewer_count
                    participant_count).
Proof.
  destruct (filter_style_noise_returns (dedupe_segments segments))
    as (filtered & Hf & Hlen).
  exists filtered. split; [exact Hf|]. split.
  - pose proof (dedupe_segments_length segments). lia.
  - unfold merge_and_label. rewrite Hf. reflexivity.
Qed.

End PostProcessor.

(* ===================================================================== *)
(** * Interviewer inference *)
(* ===================================================================== *)

Section Inference.
Import Py Str Merge Spec.
Context `{Unicode}.

Lemma expected_interviewer_slots_bounds
    (unique_speakers interviewer_count participant_count : Z) :
  (2 <= unique_speakers)%Z ->
  (1 <= _expected_interviewer_slots unique_speakers interviewer_count
          participant_count <= unique_speakers - 1)%Z.
Proof.
  intros Hn. unfold _expected_interviewer_slots.
  destruct (unique_speakers <=? 1)%Z eqn:E; [apply Z.leb_le in E; lia|].
  lia.
Qed.

Lemma stats_step_consistent
    (st : gmap (list N) _SpeakerStats * list (list N)) (segment : Segment.t) :
  stats_consistent st ->
  stats_consistent (stats_step st segment)
  /\ (forall id : list N,
         id ∈ snd (stats_step st segment)
         <-> id ∈ snd st \/ id = speaker_or_default (Segment.speaker segment)).
Proof.
  destruct st as [m o]. intros (Hnd & Hsize & Hdom). cbn in Hnd, Hsize, Hdom.
  unfold stats_step, stats_consistent.
  set (sid := speaker_or_default (Segment.speaker segment)).
  destruct (m !! sid) as [stats|] eqn:Hm.
  - cbn [fst snd]. split; [split; [exact Hnd|split]|].
    + rewrite (alter_alt_Some _ _ _ _ Hm).
      rewrite map_size_insert_Some by (rewrite Hm; eauto). exact Hsize.
    + intros id. rewrite lookup_alter_is_Some. apply Hdom.
    + intros id. split; [tauto|]. intros [Hin| ->]; [exact Hin|].
      apply Hdom. rewrite Hm. eauto.
  - cbn [fst snd]. assert (Hfresh : sid ∉ o).
    { intros Hin. apply Hdom in Hin. rewrite Hm in Hin. destruct Hin; discriminate. }
    split; [split; [|split]|].
    + apply NoDup_app. split; [exact Hnd|]. split.
      * intros x Hx Hx'. apply list_elem_of_singleton in Hx'. subst. contradiction.
      * apply NoDup_singleton.
    + erewrite alter_alt_Some by apply lookup_insert_eq.
      rewrite map_size_insert_Some by (rewrite lookup_insert_eq; eauto).
      rewrite map_size_insert_None by exact Hm.
      rewrite length_app. cbn. lia.
    + intros id. rewrite lookup_alter_is_Some, lookup_insert_is_Some.
      rewrite elem_of_app, list_elem_of_singleton, Hdom.
      destruct (decide (sid = id)) as [->|Hne]; [tauto|].
      split; [intros [Hin| ->]; [tauto|contradiction]|].
      intros [->|[_ Hin]]; [contradiction|tauto].
    + intros id. rewrite elem_of_app, list_elem_of_singleton. tauto.
Qed.

Lemma stats_fold_consistent (segments : list Segment.t)
    (st : gmap (list N) _SpeakerStats * list (list N)) :
  stats_consistent st ->
  stats_consistent (fold_left stats_step segments st)
  /\ (forall id : list N,
         id ∈ snd (fold_left stats_step segments st)
         <-> id ∈ snd st \/ id ∈ speaker_ids segments).
Proof.
  revert st. induction segments as [|segment segments IH]; intros st Hst.
  - cbn. split; [exact Hst|]. intros id. split; [tauto|].
    intros [Hin|Hin]; [exact Hin|]. inversion Hin.
  - cbn [fold_left].
    destruct (stats_step_consistent st segment Hst) as [Hst' Hids].
    destruct (IH _ Hst') as [Hfinal Hall]. split; [exact Hfinal|].
    intros id. rewrite Hall, Hids. cbn. rewrite elem_of_cons.
    split; [intros [[?|?]|?]|intros [?|[?|?]]]; auto.
Qed.

Lemma stats_empty_consistent :
  stats_consistent (∅ : gmap (list N) _SpeakerStats, []).
Proof.
  split; [constructor|]. split; [apply map_size_empty|].
  intros id. cbn. rewrite lookup_empty. split.
  - intros Hin. inversion Hin.
  - intros [x Hx]. discriminate.
Qed.

(** Scoring keeps the speakers in the order of [speaker_order]. *)
Lemma scored_ids (m : gmap (list N) _SpeakerStats) (order : list (list N)) :
  (forall id, id ∈ order -> is_Some (m !! id)) ->
  List.map (fun item : list N * Q * Q => fst (fst item))
    (omap (fun speaker_id =>
             match m !! speaker_id with
             | Some stats => Some (speaker_id, score_of stats, first_start stats)
             | None => None
             end) order)
  = order.
Proof.
  induction order as [|id order IH]; intros Hall; [reflexivity|].
  cbn. destruct (Hall id) as [stats Hs]; [left|].
  rewrite Hs. cbn. f_equal. apply IH. intros x Hx. apply Hall. right. exact Hx.
Qed.

Lemma NoDup_two {A : Type} (l : list A) (a b : A) :
  NoDup l -> a ∈ l -> b ∈ l -> a <> b -> (2 <= length l)%nat.
Proof.
  intros Hnd Ha Hb Hab.
  destruct l as [|x [|y l]]; cbn; try lia.
  - inversion Ha.
  - apply list_elem_of_singleton in Ha, Hb. congruence.
Qed.

(** With two raw speakers, inference picks one speaker and leaves one. *)
Lemma infer_picks_and_leaves (ordered : list Segment.t)
    (interviewer_count participant_count : Z) (a b : list N) :
  a ∈ speaker_ids ordered -> b ∈ speaker_ids ordered -> a <> b ->
  exists x y : list N,
    x ∈ speaker_ids ordered /\ y ∈ speaker_ids ordered
    /\ x ∈ _infer_interviewer_speakers ordered interviewer_count participant_count
    /\ y ∉ _infer_interviewer_speakers ordered interviewer_count participant_count.
Proof.
  intros Ha Hb Hab. unfold _infer_interviewer_speakers.
  destruct ordered as [|s0 ordered0]; [inversion Ha|].
  set (ordered := s0 :: ordered0) in *.
  destruct (stats_fold_consistent ordered (∅, []) stats_empty_consistent)
    as [(Hnd & Hsize & Hdom) Hall].
  destruct (fold_left stats_step ordered (∅, [])) as [m o].
  cbn [fst snd] in Hnd, Hsize, Hdom, Hall.
  assert (Hmem : forall id, id ∈ o <-> id ∈ speaker_ids ordered).
  { intros id. rewrite Hall. split; [intros [Hi|Hi]; [inversion Hi|exact Hi]|auto]. }
  assert (Hlen : (2 <= length o)%nat).
  { apply (NoDup_two o a b); [exact Hnd|apply Hmem, Ha|apply Hmem, Hb|exact Hab]. }
  destruct (size m <=? 1)%nat eqn:E; [apply Nat.leb_le in E; lia|]. clear E.
  assert (Hn : (2 <= Z.of_nat (size m))%Z) by (rewrite Hsize; lia).
  pose proof (expected_interviewer_slots_bounds (Z.of_nat (size m))
                interviewer_count participant_count Hn) as Hslots.
  set (slots := _expected_interviewer_slots _ _ _) in *.
  set (scored0 := omap _ o).
  set (scored := sorted pair_lt scored_key scored0).
  set (ids := List.map (fun item : list N * Q * Q => fst (fst item)) scored).
  assert (Hperm : Permutation ids o).
  { unfold ids, scored. rewrite (sorted_perm pair_lt scored_key scored0).
    unfold scored0. rewrite scored_ids; [reflexivity|].
    intros id Hid. apply Hdom, Hid. }
  assert (Hpick : List.map (fun item : list N * Q * Q => fst (fst item))
                    (take (Z.to_nat slots) scored)
                  = take (Z.to_nat slots) ids).
  { unfold ids. symmetry. apply firstn_map. }
  rewrite Hpick.
  assert (Hnd' : NoDup ids) by (rewrite Hperm; exact Hnd).
  assert (Hlen' : length ids = length o) by (apply Permutation_length, Hperm).
  set (k := Z.to_nat slots) in *.
  assert (Hk : (1 <= k < length ids)%nat) by (unfold k; lia).
  destruct (lookup_lt_is_Some_2 ids 0) as [x Hx]; [lia|].
  destruct (lookup_lt_is_Some_2 ids k) as [y Hy]; [lia|].
  assert (Hxin : x ∈ take k ids).
  { apply elem_of_take. exists 0%nat. split; [exact Hx|lia]. }
  assert (Hyout : y ∉ take k ids).
  { intros Hin. apply elem_of_take in Hin as (j & Hj & Hjk).
    pose proof (NoDup_lookup ids j k y Hnd' Hj Hy). lia. }
  exists x, y.
  assert (Hxo : x ∈ speaker_ids ordered).
  { apply Hmem. rewrite <- Hperm. apply list_elem_of_lookup. eauto. }
  assert (Hyo : y ∈ speaker_ids ordered).
  { apply Hmem. rewrite <- Hperm. apply list_elem_of_lookup. eauto. }
  destruct (take k ids) as [|p ps] eqn:Et; [inversion Hxin|].
  auto.
Qed.

End Inference.

(* ===================================================================== *)
(** * Labels of the final transcript *)
(* ===================================================================== *)

Section Labels.
Import Py Str Merge Spec.
Context `{Unicode}.

Lemma coerce_segments_length (raw_segments : list Utterance.t) :
  (length (Worker._coerce_segments raw_segments) <= length raw_segments)%nat.
Proof.
  unfold Worker._coerce_segments.
  induction raw_segments as [|raw rest IH]; cbn; [lia|].
  destruct (strip (Utterance.text raw)); cbn; lia.
Qed.

(** C3: for every segment list and every pair of counts, [merge_and_label]
    returns, and every utterance of its output has speaker "I" or "D". *)
Theorem merge_and_label_speakers (segments : list Segment.t)
    (interviewer_count participant_count : Z) :
  exists out : list Utterance.t,
    merge_and_label segments interviewer_count participant_count = Returns out
    /\ Forall labelled out.
Proof.
  destruct (merge_and_label_returns segments interviewer_count participant_count)
    as (filtered & _ & _ & Hrun).
  eexists. split; [exact Hrun|].
  apply map_to_interviewer_participant_labels.
Qed.

(** C5, as amended: applying the pipeline to its own output is not the
    identity in general; it returns, it never yields more utterances than
    it was given, and its output is again labelled "I" or "D". *)
Theorem postprocess_again_shrinks (segments : list Segment.t)
    (interviewer_count participant_count : Z) :
  exists out out2 : list Utterance.t,
    merge_and_label segments interviewer_count participant_count = Returns out
    /\ postprocess_again out interviewer_count participant_count = Returns out2
    /\ (length out2 <= length out)%nat
    /\ Forall labelled out2.
Proof.
  destruct (merge_and_label_returns segments interviewer_count participant_count)
    as (filtered & _ & _ & Hrun).
  set (out := map_to_interviewer_participant filtered interviewer_count
                participant_count) in *.
  destruct (merge_and_label_returns (Worker._coerce_segments out)
              interviewer_count participant_count)
    as (filtered2 & _ & Hlen2 & Hrun2).
  exists out. eexists. split; [exact Hrun|]. split; [exact Hrun2|]. split.
  - rewrite map_to_interviewer_participant_length.
    pose proof (coerce_segments_length out). lia.
  - apply map_to_interviewer_participant_labels.
Qed.

(** C10: when two segments carry different raw speaker ids (a missing id
    counting as "speaker_0"), the output of [map_to_interviewer_participant]
    has an utterance labelled "I" and an utterance labelled "D"; the number
    of interviewer slots for [n >= 2] speakers lies between 1 and [n - 1]. *)
Theorem map_to_interviewer_participant_both_labels (segments : list Segment.t)
    (interviewer_count participant_count : Z) (s1 s2 : Segment.t) :
  In s1 segments -> In s2 segments ->
  speaker_or_default (Segment.speaker s1)
    <> speaker_or_default (Segment.speaker s2) ->
  (exists u : Utterance.t,
      In u (map_to_interviewer_participant segments interviewer_count
              participant_count)
      /\ Utterance.speaker u = lit "I")
  /\ (exists u : Utterance.t,
         In u (map_to_interviewer_participant segments interviewer_count
                 participant_count)
         /\ Utterance.speaker u = lit "D")
  /\ (forall unique_speakers : Z,
         (2 <= unique_speakers)%Z ->
         (1 <= _expected_interviewer_slots unique_speakers interviewer_count
                 participant_count <= unique_speakers - 1)%Z).
Proof.
  intros H1 H2 Hne.
  split; [|split; [|intros n Hn; apply expected_interviewer_slots_bounds, Hn]].
  all: unfold map_to_interviewer_participant.
  all: set (ordered := sorted pair_lt by_time segments).
  all: assert (Hids : forall s, In s segments ->
                speaker_or_default (Segment.speaker s) ∈ speaker_ids ordered)
    by (intros s Hs; apply list_elem_of_In, in_map_iff; exists s;
        split; [reflexivity|apply sorted_In, Hs]).
  all: destruct (infer_picks_and_leaves ordered interviewer_count
                   participant_count _ _ (Hids s1 H1) (Hids s2 H2) Hne)
    as (x & y & Hx & Hy & Hpicked & Hleft).
  - apply list_elem_of_In, in_map_iff in Hx as (sx & Hsx & Hin).
    eexists. split; [apply in_map_iff; exists sx; split; [reflexivity|exact Hin]|].
    cbn. unfold member. rewrite Hsx, bool_decide_eq_true_2 by exact Hpicked.
    reflexivity.
  - apply list_elem_of_In, in_map_iff in Hy as (sy & Hsy & Hin).
    eexists. split; [apply in_map_iff; exists sy; split; [reflexivity|exact Hin]|].
    cbn. unfold member. rewrite Hsy, bool_decide_eq_false_2 by exact Hleft.
    reflexivity.
Qed.

End Labels.

Lemma map_to_interviewer_participant_both_labels_witness :
  Merge.speaker_or_default (Str.lit "A") <> Merge.speaker_or_default (Str.lit "B")
  /\ (exists u : Utterance.t,
      In u (@Merge.map_to_interviewer_participant Str.latin1
              Spec.overlapping_greeting 1 1)
      /\ Utterance.speaker u = Str.lit "I")
  /\ (exists u : Utterance.t,
         In u (@Merge.map_to_interviewer_participant Str.latin1
              Spec.overlapping_greeting 1 1)
         /\ Utterance.speaker u = Str.lit "D")
  /\ (forall unique_speakers : Z,
         (2 <= unique_speakers)%Z ->
         (1 <= @Merge._expected_interviewer_slots unique_speakers 1 1
          <= unique_speakers - 1)%Z).
Proof.
  split; [vm_compute; discriminate|].
  apply (@map_to_interviewer_participant_both_labels Str.latin1
           Spec.overlapping_greeting 1 1
           (Segment.mk 0 1 (Str.lit "A") (Str.lit "hmm good morning everyone") None)
           (Segment.mk (1 # 2) (3 # 2) (Str.lit "B")
              (Str.lit "good morning everyone") None)).
  - left. reflexivity.
  - right. left. reflexivity.
  - vm_compute. discriminate.
Defined.

(** C5, counterexample: two overlapping greetings by different speakers
    come out as two utterances, and the pipeline applied to that output
    merges them into one. *)
Lemma postprocess_not_idempotent :
  exists out out2 : list Utterance.t,
    @Merge.merge_and_label Str.latin1 Spec.overlapping_greeting 1 1
    = Py.Returns out
    /\ @Spec.postprocess_again Str.latin1 out 1 1 = Py.Returns out2
    /\ length out = 2%nat /\ length out2 = 1%nat /\ out2 <> out.
Proof.
  eexists. eexists. split; [vm_compute; reflexivity|].
  split; [vm_compute; reflexivity|].
  split; [reflexivity|]. split; [reflexivity|]. discriminate.
Qed.

(* ===================================================================== *)
(** * The chunk plan of [create_chunks] *)
(* ===================================================================== *)

(** C1, as amended: for every positive probed duration [create_chunks]
    with its default parameters returns a non-empty plan in which every
    chunk ends at or before the duration rounded to milliseconds and does
    not end before it starts, the last chunk ends at the rounded
    duration, consecutive chunks start [step = 238.5] seconds apart, and
    every chunk but the last starts strictly before it ends. *)
Theorem create_chunks_default_plan (sha256_file : list N -> list N)
    (chunk_dir : list N) (reported : Q) :
  (0 < reported)%Q ->
  exists chunks : list ChunkPlan.t,
    Audio.create_chunks sha256_file reported chunk_dir
      Audio.default_chunk_duration_sec Audio.default_overlap_sec
    = Py.Returns (reported, chunks)
    /\ chunks <> []
    /\ Spec.chunks_as_stored reported
         (Qmax 1 (Audio.default_chunk_duration_sec - Audio.default_overlap_sec))
         chunks.
Proof.
  intros Hpos. apply create_chunks_stored.
  - exact Hpos.
  - apply Qle_bool_iff. reflexivity.
  - exists 238500%Z. reflexivity.
Qed.

Lemma create_chunks_default_plan_witness :
  (0 < 500)%Q
  /\ exists chunks : list ChunkPlan.t,
    Audio.create_chunks (fun _ => []) 500 [] Audio.default_chunk_duration_sec
      Audio.default_overlap_sec
    = Py.Returns (500%Q, chunks)
    /\ chunks <> []
    /\ Spec.chunks_as_stored 500
         (Qmax 1 (Audio.default_chunk_duration_sec - Audio.default_overlap_sec))
         chunks.
Proof.
  split; [reflexivity|].
  apply (create_chunks_default_plan (fun _ => []) [] 500). reflexivity.
Defined.

(** C1, counterexample: a source of 10.000732421875 seconds gets one chunk
    whose stored end is 10.001, past the duration and different from it. *)
Lemma create_chunks_end_after_duration :
  exists c : ChunkPlan.t,
    Audio.create_chunks (fun _ => []) (40963 # 4096) []
      Audio.default_chunk_duration_sec Audio.default_overlap_sec
    = Py.Returns (40963 # 4096, [c])
    /\ ~ Spec.chunks_as_specified (40963 # 4096)
           (Qmax 1 (Audio.default_chunk_duration_sec - Audio.default_overlap_sec))
           [c].
Proof.
  eexists. split; [vm_compute; reflexivity|].
  intros (Hall & _ & _).
  destruct (Hall 0%nat _ eq_refl) as [Hend _].
  vm_compute in Hend. apply Hend. reflexivity.
Qed.

(* ===================================================================== *)
(** * The job store *)
(* ===================================================================== *)

Section JobStore.
Import Py Str Storage.
Variable now_iso : list N.

Lemma swap_speaker_involutive (u : Utterance.t) :
  swap_speaker (swap_speaker u) = u.
Proof.
  destruct u as [s e sp t c]. unfold swap_speaker.
  cbn [Utterance.speaker Utterance.startSec Utterance.endSec Utterance.text
       Utterance.confidence].
  destruct (eqb sp (lit "I")) eqn:EI.
  - apply bool_decide_eq_true in EI. subst sp. vm_compute. reflexivity.
  - destruct (eqb sp (lit "D")) eqn:ED.
    + apply bool_decide_eq_true in ED. subst sp. vm_compute. reflexivity.
    + cbn [Utterance.speaker]. rewrite EI, ED. reflexivity.
Qed.

Lemma swap_twice (transcript : list Utterance.t) :
  List.map swap_speaker (List.map swap_speaker transcript) = transcript.
Proof.
  induction transcript as [|u rest IH]; cbn; [reflexivity|].
  rewrite swap_speaker_involutive, IH. reflexivity.
Qed.

Lemma get_transcript_set_final (c : conn) (job_id : list N)
    (transcript : list Utterance.t) (status : list N) :
  get_transcript (set_final_transcript now_iso c job_id transcript status) job_id
  = match jobs c !! job_id with
    | Some _ => transcript
    | None => []
    end.
Proof.
  unfold get_transcript, set_final_transcript. cbn.
  rewrite lookup_alter_eq. destruct (jobs c !! job_id); reflexivity.
Qed.

Lemma set_final_transcript_same_jobs {A : Type} (c : conn) (job_id : list N)
    (transcript : list Utterance.t) (status : list N) (found missing : A) :
  match jobs (set_final_transcript now_iso c job_id transcript status) !! job_id with
  | Some _ => found
  | None => missing
  end
  = match jobs c !! job_id with
    | Some _ => found
    | None => missing
    end.
Proof.
  unfold set_final_transcript. cbn [jobs]. rewrite lookup_alter_eq.
  destruct (jobs c !! job_id); reflexivity.
Qed.

(** C9: swapping the roles of a job twice gives back its transcript, both
    as the value returned by the second call and as the transcript read
    from the store afterwards. *)
Theorem toggle_swap_roles_involution (c : conn) (job_id : list N) :
  let (c1, _) := toggle_swap_roles now_iso c job_id in
  let (c2, swapped_twice) := toggle_swap_roles now_iso c1 job_id in
  swapped_twice = get_transcript c job_id
  /\ get_transcript c2 job_id = get_transcript c job_id.
Proof.
  unfold toggle_swap_roles. rewrite !get_transcript_set_final.
  rewrite set_final_transcript_same_jobs.
  unfold get_transcript.
  destruct (jobs c !! job_id) as [row|].
  - rewrite swap_twice. split; reflexivity.
  - split; reflexivity.
Qed.

(** What the store operations that can write [ready] do to the error
    message of an existing job. *)
Lemma store_ready_transitions (c : conn) (job_id : list N) (row : Job.t) :
  jobs c !! job_id = Some row ->
  (forall (transcript : list Utterance.t) (status : list N),
      exists row' : Job.t,
        jobs (set_final_transcript now_iso c job_id transcript status) !! job_id
        = Some row'
        /\ Job.status row' = status /\ Job.error_message row' = None)
  /\ (exists row' : Job.t,
         jobs (fst (toggle_swap_roles now_iso c job_id)) !! job_id = Some row'
         /\ Job.status row' = lit "ready" /\ Job.error_message row' = None)
  /\ (forall (status : list N) (chunks_done chunks_total : option Z)
        (error_message : option (list N)),
         exists row' : Job.t,
           jobs (update_job_status now_iso c job_id status chunks_done
                   chunks_total error_message) !! job_id = Some row'
           /\ Job.status row' = status
           /\ Job.error_message row'
              = match error_message with
                | Some m => Some m
                | None => Job.error_message row
                end)
  /\ (forall (transcript : list Utterance.t) (total_chunks : Z),
         exists row' : Job.t,
           jobs (update_job_status now_iso
                   (set_final_transcript now_iso c job_id transcript (lit "ready"))
                   job_id (lit "ready") (Some total_chunks) (Some total_chunks)
                   None) !! job_id = Some row'
           /\ Job.status row' = lit "ready" /\ Job.error_message row' = None).
Proof.
  intros Hrow. repeat split.
  - intros transcript status. eexists. cbn.
    rewrite lookup_alter_eq, Hrow. cbn. repeat split.
  - eexists. cbn. rewrite lookup_alter_eq, Hrow. cbn. repeat split.
  - intros status chunks_done chunks_total error_message. eexists. cbn.
    rewrite lookup_alter_eq, Hrow. cbn. repeat split.
  - intros transcript total_chunks. eexists. cbn.
    rewrite !lookup_alter_eq, Hrow. cbn. repeat split.
Qed.

End JobStore.

(** C4, counterexample: [update_job_status] moves a failed job into
    [ready] and its error message stays. *)
Lemma update_job_status_keeps_error :
  exists row' : Job.t,
    Storage.jobs (Storage.update_job_status (Str.lit "t1") Spec.failed_store
                    (Str.lit "j") (Str.lit "ready") None None None)
      !! Str.lit "j" = Some row'
    /\ Job.status row' = Str.lit "ready"
    /\ Job.error_message row' = Some (Str.lit "Source fil mangler")
    /\ Job.error_message row' <> None.
Proof.
  eexists. split; [vm_compute; reflexivity|].
  split; [reflexivity|]. split; [reflexivity|]. discriminate.
Qed.

(* ===================================================================== *)
(** * The remote engine *)
(* ===================================================================== *)

(** C7 at the input of the retry-exhaustion test: with two attempts that
    both time out, the call raises after two calls of the client; the
    message holds the last error, but the text between the count and the
    error is not "forsøg", so "efter 2 forsøg" does not occur in it. *)
Theorem retry_exhaustion_message :
  let run :=
    @OpenAIEngine.transcribe_chunk_openai Str.latin1 (Str.lit "test-key")
      Spec.timing_out_client 2 in
  exists message : list N,
    fst run = Py.Raises message
    /\ List.length (OpenAIEngine.calls (snd run)) = 2%nat
    /\ message
       = Str.lit "OpenAI transskription fejlede efter 2 forsÃ¸g: The request timed out."
    /\ Str.contains (@Str.lower Str.latin1 message) (Str.lit "timed out") = true
    /\ Str.contains message (Str.lit "efter 2 forsøg") = false.
Proof.
  eexists. split; [vm_compute; reflexivity|].
  repeat split; vm_compute; reflexivity.
Qed.

(* ===================================================================== *)
(** * The editor parser *)
(* ===================================================================== *)

Section EditorParser.
Import Py Str Editing Spec.
Local Open Scope Q_scope.

Lemma dropwhile_head (p : N -> bool) (s : list N) (c : N) (rest : list N) :
  dropwhile p s = c :: rest -> p c = false.
Proof.
  induction s as [|x s IH]; cbn; [discriminate|].
  destruct (p x) eqn:E; [exact IH|].
  intros Heq. inversion Heq; subst. exact E.
Qed.

Lemma dropwhile_nil (p : N -> bool) (s : list N) :
  dropwhile p s = [] -> forall c, In c s -> p c = true.
Proof.
  induction s as [|x s IH]; cbn; [intros _ c []|].
  destruct (p x) eqn:E; [|discriminate].
  intros Hnil c [<-|Hin]; [exact E|apply IH; assumption].
Qed.

Lemma dropwhile_In (p : N -> bool) (s : list N) (c : N) :
  In c (dropwhile p s) -> In c s.
Proof.
  induction s as [|x s IH]; cbn; [tauto|].
  destruct (p x); [right; apply IH; assumption|tauto].
Qed.

(** A line with a code point that is not white space is not blank. *)
Lemma strip_not_blank (s : list N) (c : N) :
  In c s -> isspace c = false -> strip s <> [].
Proof.
  intros Hin Hc Hnil. unfold strip, rstrip_by, lstrip_by in Hnil.
  assert (Hin' : In c (dropwhile isspace s)).
  { clear Hnil. induction s as [|x s IH]; [destruct Hin|].
    cbn. destruct (isspace x) eqn:E.
    - destruct Hin as [<-|Hin]; [congruence|apply IH, Hin].
    - exact Hin. }
  apply (f_equal (@rev N)) in Hnil. rewrite rev_involutive in Hnil. cbn in Hnil.
  apply in_rev in Hin'.
  pose proof (dropwhile_nil isspace _ Hnil c Hin'). congruence.
Qed.

Lemma SPEAKER_PREFIX_match_not_blank (line : list N) (prefix : N)
    (group2 : list N) :
  SPEAKER_PREFIX_match line = Some (prefix, group2) -> strip line <> [].
Proof.
  unfold SPEAKER_PREFIX_match.
  destruct (dropwhile isspace line) as [|c rest] eqn:Hd; [discriminate|].
  intros _. apply (strip_not_blank line c).
  - apply (dropwhile_In isspace). rewrite Hd. left. reflexivity.
  - apply (dropwhile_head _ _ _ _ Hd).
Qed.

(** The first loop accepts a text all of whose lines match. *)
Lemma collect_utterances_accepts (lines : list (list N)) (index : nat) :
  (forall k raw_line, lines !! k = Some raw_line ->
                      exists speaker body, matches_grammar raw_line speaker body) ->
  exists utterances : list (list N * list N),
    collect_utterances index lines = Returns utterances
    /\ length utterances = length lines
    /\ (forall k raw_line speaker body,
           lines !! k = Some raw_line -> matches_grammar raw_line speaker body ->
           utterances !! k = Some (speaker, body)).
Proof.
  revert index. induction lines as [|raw_line rest IH]; intros index Hall.
  - exists []. repeat split. intros k raw_line sp body Hk. discriminate.
  - destruct (Hall 0%nat raw_line eq_refl)
      as (speaker & body & prefix & group2 & Hm & Hsp & Hbody & Hne).
    destruct (IH (S index)) as (utterances & Hrun & Hlen & Hlook).
    { intros k l Hk. apply (Hall (S k) l Hk). }
    cbn [collect_utterances].
    pose proof (SPEAKER_PREFIX_match_not_blank _ _ _ Hm) as Hblank.
    destruct (strip (List.filter (fun c => negb (c =? 13)%N) raw_line))
      as [|s0 srest]; [contradiction|].
    rewrite Hm. rewrite <- Hbody.
    destruct body as [|b0 brest]; [contradiction|].
    rewrite Hrun. cbn [bind].
    eexists. split; [reflexivity|]. split; [cbn; lia|].
    intros k l sp' body' Hk (prefix' & group2' & Hm' & Hsp' & Hbody' & Hne').
    destruct k as [|k].
    + cbn in Hk. inversion Hk; subst l. rewrite Hm in Hm'.
      inversion Hm'; subst. rewrite <- Hbody. reflexivity.
    + cbn. apply (Hlook k l); [exact Hk|].
      exists prefix', group2'. repeat split; assumption.
Qed.

Lemma round_step_start (idx : nat) :
  round (inject_Z (Z.of_nat idx) * SEGMENT_START_STEP) 3
  == inject_Z (Z.of_nat idx) * 3.
Proof.
  assert (E : inject_Z (Z.of_nat idx) * SEGMENT_START_STEP
              == inject_Z (3000 * Z.of_nat idx)
                 / inject_Z (10 ^ Z.of_nat 3)).
  { rewrite inject_Z_mult. unfold SEGMENT_START_STEP.
    change (inject_Z (10 ^ Z.of_nat 3)) with 1000.
    change (inject_Z 3000) with 3000. field. }
  rewrite (round_comp _ _ 3 E), round_exact, <- E. reflexivity.
Qed.

Lemma round_step_end (idx : nat) (start_sec : Q) :
  start_sec == inject_Z (Z.of_nat idx) * 3 ->
  round (start_sec + SEGMENT_DURATION) 3 == start_sec + 1.
Proof.
  intros Hs.
  assert (E : start_sec + SEGMENT_DURATION
              == inject_Z (3000 * Z.of_nat idx + 1000)
                 / inject_Z (10 ^ Z.of_nat 3)).
  { rewrite Hs, inject_Z_plus, inject_Z_mult. unfold SEGMENT_DURATION.
    change (inject_Z (10 ^ Z.of_nat 3)) with 1000.
    change (inject_Z 3000) with 3000. change (inject_Z 1000) with 1000. field. }
  rewrite (round_comp _ _ 3 E), round_exact, <- E. reflexivity.
Qed.

(** The second loop numbers the utterances from [idx] on. *)
Lemma convert_utterances_lookup (fallback_transcript : list Utterance.t)
    (utterances : list (list N * list N)) (idx k : nat) (speaker body : list N) :
  utterances !! k = Some (speaker, body) ->
  exists u : Utterance.t,
    convert_utterances idx (List.map Utterance.confidence fallback_transcript)
      utterances !! k = Some u
    /\ utterance_of_line fallback_transcript (idx + k) speaker body u.
Proof.
  revert idx k. induction utterances as [|[sp b] rest IH]; intros idx k Hk.
  - discriminate.
  - destruct k as [|k].
    + inversion Hk; subst. cbn [convert_utterances]. eexists.
      split; [reflexivity|]. rewrite Nat.add_0_r.
      unfold utterance_of_line. cbn.
      split; [apply round_step_start|].
      split; [apply (round_step_end idx), round_step_start|].
      split; [reflexivity|]. split; [reflexivity|].
      rewrite list_lookup_fmap.
      destruct (fallback_transcript !! idx); reflexivity.
    + cbn [convert_utterances]. cbn in Hk.
      destruct (IH (S idx) k Hk) as (u & Hu & Hspec).
      exists u. split; [exact Hu|].
      replace (idx + S k)%nat with (S idx + k)%nat by lia. exact Hspec.
Qed.

(** C8, as amended: for a text with at least one line, all of whose lines
    match the speaker prefix with a body that is not blank,
    [parse_editor_text] returns one utterance per line, in order; the
    utterance of the line at 0-based position [k] (line number [k + 1])
    has [startSec = 3 * k], [endSec = startSec + 1], the prefix in upper
    case as speaker, the stripped body as text, and the confidence of
    [fallback_transcript[k]] when that row exists. *)
Theorem parse_editor_text_zero_based (text : list N)
    (fallback_transcript : list Utterance.t) :
  splitlines text <> [] ->
  (forall (k : nat) (raw_line : list N),
      splitlines text !! k = Some raw_line ->
      exists speaker body : list N, matches_grammar raw_line speaker body) ->
  exists out : list Utterance.t,
    parse_editor_text text fallback_transcript = Returns out
    /\ length out = length (splitlines text)
    /\ (forall (k : nat) (raw_line speaker body : list N),
           splitlines text !! k = Some raw_line ->
           matches_grammar raw_line speaker body ->
           exists u : Utterance.t,
             out !! k = Some u
             /\ utterance_of_line fallback_transcript k speaker body u).
Proof.
  intros Hlines Hall. unfold parse_editor_text.
  destruct (collect_utterances_accepts (splitlines text) 0 Hall)
    as (utterances & Hrun & Hlen & Hlook).
  rewrite Hrun. cbn [bind].
  destruct utterances as [|first rest] eqn:Hu.
  { destruct (splitlines text); [contradiction|discriminate]. }
  rewrite <- Hu in *. clear Hu.
  eexists. split; [reflexivity|]. split.
  - rewrite <- Hlen. clear. generalize 0%nat.
    induction utterances as [|[sp b] rest IH]; intros idx; cbn; [reflexivity|].
    rewrite IH. reflexivity.
  - intros k raw_line speaker body Hk Hm.
    apply (convert_utterances_lookup fallback_transcript utterances 0 k).
    apply (Hlook k raw_line); assumption.
Qed.

End EditorParser.

Lemma parse_editor_text_zero_based_witness :
  Editing.splitlines (Str.lit "I: Hej") = [Str.lit "I: Hej"]
  /\ Spec.matches_grammar (Str.lit "I: Hej") (Str.lit "I") (Str.lit "Hej")
  /\ exists out : list Utterance.t,
    Editing.parse_editor_text (Str.lit "I: Hej") [] = Py.Returns out
    /\ length out = length (Editing.splitlines (Str.lit "I: Hej"))
    /\ (forall (k : nat) (raw_line speaker body : list N),
           Editing.splitlines (Str.lit "I: Hej") !! k = Some raw_line ->
           Spec.matches_grammar raw_line speaker body ->
           exists u : Utterance.t,
             out !! k = Some u /\ Spec.utterance_of_line [] k speaker body u).
Proof.
  split; [vm_compute; reflexivity|]. split.
  { exists 73%N, (Str.lit "Hej"). repeat split. vm_compute. discriminate. }
  apply (parse_editor_text_zero_based (Str.lit "I: Hej") []).
  - vm_compute. discriminate.
  - intros k raw_line Hk. destruct k as [|k]; [|vm_compute in Hk; discriminate].
    vm_compute in Hk. inversion Hk; subst raw_line.
    exists (Str.lit "I"), (Str.lit "Hej"), 73%N, (Str.lit "Hej").
    repeat split. vm_compute. discriminate.
Defined.

(** C8, counterexample: the only line of "I: Hej" has line number 1, and
    its utterance starts at 0.0, not at 1 * 3.0. *)
Lemma parse_editor_text_first_line_at_zero :
  exists u : Utterance.t,
    Editing.parse_editor_text (Str.lit "I: Hej") [] = Py.Returns [u]
    /\ Spec.matches_grammar (Str.lit "I: Hej") (Str.lit "I") (Str.lit "Hej")
    /\ (Utterance.startSec u == 0)%Q
    /\ ~ (Utterance.startSec u == 1 * 3)%Q.
Proof.
  eexists. split; [vm_compute; reflexivity|]. split.
  - exists 73%N, (Str.lit "Hej"). repeat split. vm_compute. discriminate.
  - split; [reflexivity|]. vm_compute. discriminate.
Qed.

(* ===================================================================== *)
(** * The transcription driver: one chunk *)
(* ===================================================================== *)

Section Globalization.
Import Py Str Worker Spec.
Local Open Scope Q_scope.

Variable now_iso : list N.
Variable transcribe_chunk_openai : list N -> outcome (list Segment.t * option Q).
Variable transcribe_chunk_fallback : list N -> fallback_result.
Variable sha256_file : list N -> list N.



Lemma binade_lt (a : Q) : 0 < a -> a < 2 ^ (binade a + 1).
Proof.
  intros Ha. unfold binade.
  destruct (Qle_bool _ a) eqn:E.
  - destruct a as [p q]. cbn [Qnum Qden].
    assert (Hp : (0 < p)%Z).
    { unfold Qlt in Ha. cbn in Ha. lia. }
    destruct (Z.log2_spec p Hp) as [_ Hhi].
    destruct (Z.log2_spec (Z.pos q) (Pos2Z.is_pos q)) as [Hlo _].
    pose proof (Z.log2_nonneg p) as Hnp.
    pose proof (Z.log2_nonneg (Z.pos q)) as Hnq.
    set (lp := Z.log2 p) in *. set (lq := Z.log2 (Z.pos q)) in *.
    replace (lp - lq + 1)%Z with (Z.succ lp - lq)%Z by lia.
    rewrite Qpower_minus by discriminate.
    rewrite <- !(Zpower_Qpower 2) by lia.
    rewrite (Qmake_Qdiv p q).
    assert (H1 : inject_Z p < inject_Z (2 ^ Z.succ lp))
      by (rewrite <- Zlt_Qlt; exact Hhi).
    assert (H2 : inject_Z (2 ^ lq) <= inject_Z (Z.pos q))
      by (rewrite <- Zle_Qle; exact Hlo).
    assert (H3 : 0 < inject_Z (2 ^ lq)).
    { rewrite <- (Zlt_Qlt 0). apply Z.pow_pos_nonneg; lia. }
    assert (H4 : 0 < inject_Z p) by (rewrite <- (Zlt_Qlt 0); exact Hp).
    set (A := inject_Z (2 ^ Z.succ lp)) in *. set (B := inject_Z (2 ^ lq)) in *.
    set (P := inject_Z p) in *. set (D := inject_Z (Z.pos q)) in *.
    clearbody A B P D.
    apply Qlt_shift_div_r; [lra|].
    assert (E1 : A / B * D == A * (D / B)) by (field; lra).
    rewrite E1.
    assert (H5 : 1 <= D / B) by (apply Qle_shift_div_l; lra).
    nra.
  - replace (_ - 1 + 1)%Z
      with (Z.log2 (Qnum a) - Z.log2 (Z.pos (Qden a)))%Z by lia.
    apply Qnot_le_lt. intros Hle. apply Qle_bool_iff in Hle. congruence.
Qed.


(** Floats that [b64] gives: a third and a tenth; an integer beyond
    [2^53] that lies halfway between two floats, which goes to the even
    one, as does half of the least float. *)
Lemma b64_examples :
  b64 (1 # 3) == 6004799503160661 # 18014398509481984
  /\ b64 (1 # 10) == 3602879701896397 # 36028797018963968
  /\ b64 (477 # 2) == 477 # 2
  /\ b64 9007199254740993 == 9007199254740992
  /\ b64 9007199254740995 == 9007199254740996
  /\ b64 (/ 2 ^ 1075) == 0
  /\ b64 (3 / 2 ^ 1075) == 2 / 2 ^ 1074.
Proof. repeat split; vm_compute; reflexivity. Qed.

(** The float sum of 238.5 and 0.0005 lies below the exact sum of the two
    floats, so that the code rounds it down to 238.5, where the exact sum
    rounds up to 238.501. *)
Lemma fadd_below_exact_sum :
  fadd (477 # 2) float_0_0005 == 2097872583843119 # 8796093022208
  /\ fadd (477 # 2) float_0_0005 < (477 # 2) + float_0_0005
  /\ round (fadd (477 # 2) float_0_0005) 3 == 477 # 2
  /\ round ((477 # 2) + float_0_0005) 3 == 238501 # 1000.
Proof. repeat split; vm_compute; reflexivity. Qed.






End Globalization.



(* ===================================================================== *)
(** * The transcription driver: progress *)
(* ===================================================================== *)

(** C6 at a run with one fallback: the first chunk is done by the remote
    engine, which then fails on the second chunk.  The run ends with exit
    code 0 and [chunksDone] never decreases, but the notice of the
    fallback reports 45 percent in stage "transcribe" right after the 50
    percent of the first chunk. *)
Theorem fallback_notice_lowers_percent :
  fst Spec.run_with_fallback = Py.Returns 0%Z
  /\ Forall2 Qeq
       (Spec.stage_percents (Str.lit "transcribe")
          (Worker.stdout (snd Spec.run_with_fallback)))
       [50; 45; 90]%Q
  /\ omap Spec.event_chunks_done (Worker.stdout (snd Spec.run_with_fallback))
     = [0; 1; 1; 2; 2]%Z.
Proof.
  split; [vm_compute; reflexivity|]. split; [|vm_compute; reflexivity].
  vm_compute. repeat constructor.
Qed.

(* ===================================================================== *)
(** * The remote engine: retries *)
(* ===================================================================== *)

Section Retries.
Import Py Str OpenAIEngine.
Context `{Unicode}.

(** An attempt whose first call raises an error that is not about the
    response format raises that error after one call. *)
Lemma attempt_once_fails (message : list N) (rest : list action)
    (made : list (list N)) :
  _is_response_format_error message = false ->
  attempt_once (mk_client (Fail message :: rest) made)
  = (Raises message, mk_client rest (made ++ [lit "diarized_json"])).
Proof.
  intros Hfmt. unfold attempt_once, _request_diarized_payload.
  cbn [request_formats create actions calls]. rewrite Hfmt. reflexivity.
Qed.

(** When every attempt raises, the loop raises the message of exhaustion
    with the error of the last attempt. *)
Lemma attempts_loop_all_fail (messages : list (list N)) :
  Forall (fun m => _is_response_format_error m = false) messages ->
  forall (final : list N) (rest : list action) (made : list (list N))
         (first : nat) (backoff : Q) (last_error : option (list N)),
    last messages = Some final ->
    fst (attempts_loop
           (mk_client (List.map Fail messages ++ rest) made)
           (Z.of_nat (first + length messages - 1))
           (seq first (length messages)) backoff last_error)
    = Raises (retries_exhausted (Z.of_nat (first + length messages - 1))
                (Some final)).
Proof.
  induction 1 as [|m messages Hm Hall IH];
    intros final rest made first backoff last_error Hlast; [discriminate|].
  cbn [List.map app length seq attempts_loop].
  rewrite (attempt_once_fails m _ made Hm).
  destruct messages as [|m' messages'].
  - cbn in Hlast. inversion Hlast; subst final.
    cbn [length]. replace (first + 1 - 1)%nat with first by lia.
    rewrite Z.leb_refl. reflexivity.
  - assert (Hmore : (Z.of_nat (first + length (m :: m' :: messages') - 1)
                     <=? Z.of_nat first)%Z = false).
    { apply Z.leb_gt. cbn [length]. lia. }
    cbn [length] in Hmore |- *. rewrite Hmore.
    specialize (IH final rest (made ++ [lit "diarized_json"]) (S first)
                  (Qmin (backoff * 2) 12) (Some m)).
    cbn [length] in IH.
    replace (first + S (S (length messages')) - 1)%nat
      with (S first + S (length messages') - 1)%nat by lia.
    apply IH. exact Hlast.
Qed.

(** The message of exhaustion ends with the text of the last error. *)
Lemma transcribe_chunk_openai_exhausted (api_key : list N)
    (messages : list (list N)) (final : list N) (rest : list action)
    (made : list (list N)) :
  strip api_key <> [] ->
  Forall (fun m => _is_response_format_error m = false) messages ->
  last messages = Some final ->
  exists before : list N,
    fst (transcribe_chunk_openai api_key
           (mk_client (List.map Fail messages ++ rest) made)
           (Z.of_nat (length messages)))
    = Raises (before ++ final)
    /\ before
       = lit "OpenAI transskription fejlede efter "
           ++ of_Z (Z.of_nat (length messages)) ++ lit " forsÃ¸g: ".
Proof.
  intros Hkey Hall Hlast. unfold transcribe_chunk_openai.
  destruct (strip api_key) as [|k ks]; [contradiction|].
  rewrite Nat2Z.id.
  pose proof (attempts_loop_all_fail messages Hall final rest made 1 1 None
                Hlast) as Hloop.
  assert (Hlen : (length messages <> 0)%nat).
  { destruct messages; [discriminate|cbn; lia]. }
  replace (1 + length messages - 1)%nat with (length messages) in Hloop by lia.
  rewrite Hloop. eexists. split; [|reflexivity].
  unfold retries_exhausted, format_error. rewrite <- !app_assoc. reflexivity.
Qed.

End Retries.

(* ===================================================================== *)
(** * The transcription driver: the count of finished chunks *)
(* ===================================================================== *)

Section ChunksDone.
Import Py Str Worker Spec.
Context `{Unicode}.

Variable now_iso : list N.
Variable transcribe_chunk_openai : list N -> outcome (list Segment.t * option Q).
Variable transcribe_chunk_fallback : list N -> fallback_result.
Variable sha256_file : list N -> list N.
Variable reported_duration : Q.
Variable chunks_dir : list N -> list N.

Lemma nondecreasing_from_weaken (lo lo' : Z) (l : list Z) :
  (lo' <= lo)%Z -> nondecreasing_from lo l -> nondecreasing_from lo' l.
Proof. destruct l; cbn; [tauto|]. intros Hle [Hx Hl]. split; [lia|exact Hl]. Qed.

Lemma nondecreasing_from_app (lo mid : Z) (l1 l2 : list Z) :
  nondecreasing_from lo l1 -> Forall (fun n => (n <= mid)%Z) l1 ->
  (lo <= mid)%Z -> nondecreasing_from mid l2 ->
  nondecreasing_from lo (l1 ++ l2).
Proof.
  revert lo. induction l1 as [|x l1 IH]; intros lo H1 Hall Hle H2; cbn.
  - apply (nondecreasing_from_weaken mid); assumption.
  - destruct H1 as [Hx H1]. inversion Hall; subst. split; [exact Hx|].
    apply IH; assumption.
Qed.

Lemma chunks_done_trace_app (e1 e2 : list event) :
  chunks_done_trace (e1 ++ e2) = chunks_done_trace e1 ++ chunks_done_trace e2.
Proof. apply omap_app. Qed.

Lemma steps_bind {A B : Type} (lo : Z) (m : M A) (k : A -> M B)
    (next : A -> Z -> Prop) (next' : B -> Z -> Prop) :
  steps lo m next ->
  (forall a hi, next a hi -> steps hi (k a) next') ->
  steps lo (bindM m k) next'.
Proof.
  intros Hm Hk w. destruct (Hm w) as (e1 & Hout1 & Hnd1 & Hret1).
  unfold bindM. destruct (m w) as [[a| |] w1] eqn:Hmw; cbn [fst snd] in *.
  - destruct (Hret1 a eq_refl) as (hi & Hnext & Hle & Hall1).
    destruct (Hk a hi Hnext w1) as (e2 & Hout2 & Hnd2 & Hret2).
    exists (e1 ++ e2). split; [rewrite Hout2, Hout1, app_assoc; reflexivity|].
    rewrite chunks_done_trace_app. split.
    + apply (nondecreasing_from_app lo hi); assumption.
    + intros b Hb. destruct (Hret2 b Hb) as (hi' & Hnext' & Hle' & Hall2).
      exists hi'. split; [exact Hnext'|]. split; [lia|].
      apply Forall_app. split; [|exact Hall2].
      eapply Forall_impl; [exact Hall1|]. cbn. intros n Hn. lia.
  - exists e1. split; [exact Hout1|]. split; [exact Hnd1|]. discriminate.
  - exists e1. split; [exact Hout1|]. split; [exact Hnd1|]. discriminate.
Qed.

Lemma steps_weaken {A : Type} (lo : Z) (m : M A) (next next' : A -> Z -> Prop) :
  steps lo m next -> (forall a hi, next a hi -> next' a hi) -> steps lo m next'.
Proof.
  intros Hm Himp w. destruct (Hm w) as (e & Hout & Hnd & Hret).
  exists e. split; [exact Hout|]. split; [exact Hnd|].
  intros a Ha. destruct (Hret a Ha) as (hi & Hn & Hle & Hall).
  exists hi. auto.
Qed.

Lemma steps_from_lower {A : Type} (lo lo' : Z) (m : M A)
    (next : A -> Z -> Prop) :
  (lo <= lo')%Z -> steps lo' m next -> steps lo m next.
Proof.
  intros Hle Hm w. destruct (Hm w) as (e & Hout & Hnd & Hret).
  exists e. split; [exact Hout|]. split.
  - apply (nondecreasing_from_weaken lo'); assumption.
  - intros a Ha. destruct (Hret a Ha) as (hi & Hn & Hle' & Hall).
    exists hi. split; [exact Hn|]. split; [lia|exact Hall].
Qed.

(** A step that prints nothing keeps the count. *)
Lemma steps_silent {A : Type} (lo : Z) (m : M A) :
  (forall w, stdout (snd (m w)) = stdout w) ->
  steps lo m (fun _ hi => hi = lo).
Proof.
  intros Hs w. exists []. rewrite app_nil_r. split; [apply Hs|].
  split; [exact I|]. intros a _. exists lo. split; [reflexivity|].
  split; [lia|constructor].
Qed.

Lemma steps_ret {A : Type} (lo : Z) (a : A) :
  steps lo (ret a) (fun a' hi => a' = a /\ hi = lo).
Proof.
  intros w. exists []. rewrite app_nil_r. split; [reflexivity|].
  split; [exact I|]. intros a' Ha. inversion Ha; subst. exists lo.
  split; [split; reflexivity|]. split; [lia|constructor].
Qed.

Lemma steps_with_db (lo : Z) (f : Storage.conn -> Storage.conn) :
  steps lo (with_db f) (fun _ hi => hi = lo).
Proof. apply steps_silent. reflexivity. Qed.

Lemma steps_read_db {A : Type} (lo : Z) (f : Storage.conn -> A) :
  steps lo (read_db f) (fun _ hi => hi = lo).
Proof. apply steps_silent. reflexivity. Qed.

Lemma steps_lift {A : Type} (lo : Z) (o : outcome A) :
  steps lo (lift o) (fun _ hi => hi = lo).
Proof. apply steps_silent. reflexivity. Qed.

Lemma steps_write (lo : Z) (job_id name : list N) (payload : checkpoint) :
  steps lo (atomic_write_json job_id name payload) (fun _ hi => hi = lo).
Proof. apply steps_silent. reflexivity. Qed.

Lemma steps_try_db (lo : Z) (f : Storage.conn -> outcome Storage.conn) :
  steps lo (try_db f) (fun _ hi => hi = lo).
Proof.
  apply steps_silent. intros w. unfold try_db.
  destruct (f (db w)); reflexivity.
Qed.

(** An event that carries a count moves the count to it. *)
Lemma steps_emit_count (lo n : Z) (ev : event) :
  event_chunks_done ev = Some n -> (lo <= n)%Z ->
  steps lo (emit ev) (fun _ hi => hi = n).
Proof.
  intros Hev Hle w. exists [ev]. split; [reflexivity|].
  unfold chunks_done_trace. cbn. rewrite Hev. cbn.
  split; [split; [exact Hle|exact I]|].
  intros a _. exists n. split; [reflexivity|]. split; [exact Hle|].
  constructor; [lia|constructor].
Qed.

Lemma steps_emit_other (lo : Z) (ev : event) :
  event_chunks_done ev = None ->
  steps lo (emit ev) (fun _ hi => hi = lo).
Proof.
  intros Hev w. exists [ev]. split; [reflexivity|].
  unfold chunks_done_trace. cbn. rewrite Hev. cbn.
  split; [exact I|]. intros a _. exists lo. split; [reflexivity|].
  split; [lia|constructor].
Qed.

(** Binding a step that keeps the count. *)
Lemma steps_then {A B : Type} (lo : Z) (m : M A) (k : A -> M B)
    (next : B -> Z -> Prop) :
  steps lo m (fun _ hi => hi = lo) ->
  (forall a, steps lo (k a) next) ->
  steps lo (bindM m k) next.
Proof.
  intros Hm Hk. apply (steps_bind lo m k (fun _ hi => hi = lo)); [exact Hm|].
  intros a hi ->. apply Hk.
Qed.

Lemma finish_chunk_steps (job_id : list N) (total_chunks : Z) (row : Chunk.t)
    (attempts done_chunks : Z) (engine : list N) (segments : list Segment.t)
    (avg_conf : option Q) :
  steps done_chunks
    (finish_chunk now_iso sha256_file job_id total_chunks row attempts
       done_chunks engine segments avg_conf)
    (fun r hi => match r with
                 | inl n => hi = n /\ n = (done_chunks + 1)%Z
                 | inr _ => True
                 end).
Proof.
  unfold finish_chunk, upsert_row.
  apply steps_then; [apply steps_try_db|intros _].
  apply steps_then; [apply steps_write|intros _].
  apply steps_then; [apply steps_with_db|intros _].
  eapply steps_bind.
  - apply (steps_emit_count done_chunks (done_chunks + 1)); [reflexivity|lia].
  - intros _ hi ->. eapply steps_weaken; [apply steps_ret|].
    cbn. intros a hi [-> ->]. split; reflexivity.
Qed.

Lemma process_chunk_steps (job_id : list N) (total_chunks : Z) (row : Chunk.t)
    (done_chunks : Z) :
  steps done_chunks
    (process_chunk now_iso transcribe_chunk_openai transcribe_chunk_fallback
       sha256_file job_id total_chunks row done_chunks)
    (fun r hi => match r with
                 | inl n => hi = n /\ n = (done_chunks + 1)%Z
                 | inr _ => True
                 end).
Proof.
  unfold process_chunk, upsert_row.
  apply steps_then; [apply steps_try_db|intros _].
  destruct (transcribe_chunk_openai (Chunk.chunk_path row))
    as [[segments avg_conf]|openai_exc|].
  - apply finish_chunk_steps.
  - eapply steps_bind.
    { apply (steps_emit_count done_chunks done_chunks); [reflexivity|lia]. }
    intros _ hi ->.
    destruct (transcribe_chunk_fallback (Chunk.chunk_path row))
      as [segments coverage|conf_exc|fallback_exc].
    + apply finish_chunk_steps.
    + apply steps_then; [apply steps_try_db|intros _].
      apply steps_then; [apply steps_with_db|intros _].
      eapply steps_bind.
      * apply (steps_emit_count done_chunks done_chunks); [reflexivity|lia].
      * intros _ hi ->. eapply steps_weaken; [apply steps_ret|].
        cbn. intros a hi [-> _]. exact I.
    + apply steps_then; [apply steps_with_db|intros _].
      apply steps_then; [apply steps_emit_other; reflexivity|intros _].
      eapply steps_weaken; [apply steps_ret|]. cbn. intros a hi [-> _]. exact I.
  - intros w. exists []. rewrite app_nil_r. split; [reflexivity|].
    split; [exact I|]. discriminate.
Qed.

Lemma transcribe_rows_steps (job_id : list N) (total_chunks : Z)
    (chunk_rows : list Chunk.t) (done_chunks : Z) :
  steps done_chunks
    (transcribe_rows now_iso transcribe_chunk_openai transcribe_chunk_fallback
       sha256_file job_id total_chunks chunk_rows done_chunks)
    (fun r hi => match r with
                 | inl n => hi = n
                 | inr _ => True
                 end).
Proof.
  revert done_chunks. induction chunk_rows as [|row rest IH]; intros done_chunks.
  - cbn [transcribe_rows]. eapply steps_weaken; [apply steps_ret|].
    cbn. intros a hi [-> ->]. reflexivity.
  - cbn [transcribe_rows]. destruct (eqb (Chunk.status row) (lit "done")).
    + apply IH.
    + eapply steps_bind; [apply process_chunk_steps|].
      intros [n|code] hi Hnext.
      * destruct Hnext as [-> _]. apply IH.
      * eapply steps_weaken; [apply steps_ret|]. cbn. intros a hi' [-> _].
        exact I.
Qed.

Lemma upsert_all_steps (lo : Z) (job_id : list N) (planned : list ChunkPlan.t) :
  steps lo (upsert_all now_iso job_id planned) (fun _ hi => hi = lo).
Proof.
  induction planned as [|chunk rest IH]; cbn [upsert_all].
  - eapply steps_weaken; [apply steps_ret|]. cbn. intros a hi [_ ->]. reflexivity.
  - apply steps_then; [apply steps_try_db|intros _]. exact IH.
Qed.

Lemma preprocess_if_needed_steps (lo : Z) (job_id : list N) :
  steps lo
    (preprocess_if_needed now_iso sha256_file reported_duration chunks_dir job_id)
    (fun _ hi => hi = lo).
Proof.
  unfold preprocess_if_needed.
  apply steps_then; [apply steps_read_db|intros rows].
  destruct rows as [|row rows].
  - apply steps_then; [apply steps_lift|intros [duration planned]].
    apply steps_then; [apply steps_with_db|intros _].
    apply steps_then; [apply upsert_all_steps|intros _].
    apply steps_then; [apply steps_read_db|intros rows'].
    eapply steps_weaken; [apply steps_ret|]. cbn. intros a hi [_ ->]. reflexivity.
  - apply steps_then; [apply steps_read_db|intros stored].
    destruct (Qle_bool stored 0).
    + apply steps_then; [apply steps_lift|intros duration].
      apply steps_then; [apply steps_with_db|intros _].
      eapply steps_weaken; [apply steps_ret|]. cbn. intros a hi [_ ->]. reflexivity.
    + eapply steps_weaken; [apply steps_ret|]. cbn. intros a hi [_ ->]. reflexivity.
Qed.

(** Over a run of the driver, the [chunksDone] of the events it prints
    start at zero or above and never decrease. *)
Lemma transcribe_job_chunks_done_monotone (source_exists : bool)
    (source_path job_id : list N) (interviewer_count participant_count : Z)
    (w : world) :
  exists events : list event,
    stdout (snd (transcribe_job now_iso transcribe_chunk_openai
                   transcribe_chunk_fallback sha256_file reported_duration
                   chunks_dir source_exists source_path job_id
                   interviewer_count participant_count w))
    = stdout w ++ events
    /\ nondecreasing_from 0 (chunks_done_trace events).
Proof.
  assert (Hsteps : steps 0
            (transcribe_job now_iso transcribe_chunk_openai
               transcribe_chunk_fallback sha256_file reported_duration
               chunks_dir source_exists source_path job_id
               interviewer_count participant_count)
            (fun _ _ => True)).
  { unfold transcribe_job. destruct source_exists; cbn [negb].
    - apply steps_then; [apply steps_with_db|intros _].
      eapply steps_bind.
      { apply (steps_emit_count 0 0); [reflexivity|lia]. }
      intros _ hi ->.
      apply steps_then; [apply preprocess_if_needed_steps|].
      intros [duration chunk_rows].
      apply steps_then; [apply steps_with_db|intros _].
      set (done_chunks := Z.of_nat (length (List.filter _ chunk_rows))).
      apply (steps_from_lower 0 done_chunks); [unfold done_chunks; lia|].
      eapply steps_bind; [apply transcribe_rows_steps|].
      intros [n|code] hi Hnext.
      + subst hi. apply steps_then; [apply steps_with_db|intros _].
        eapply steps_bind.
        { apply (steps_emit_count n n); [reflexivity|lia]. }
        intros _ hi ->.
        apply steps_then; [apply steps_read_db|intros rows].
        apply steps_then; [apply steps_lift|intros labeled].
        apply steps_then; [apply steps_with_db|intros _].
        apply steps_then; [apply steps_with_db|intros _].
        apply steps_then; [apply steps_write|intros _].
        apply steps_then; [apply steps_read_db|intros result].
        destruct result as [[[[rid rpath] rduration] rtranscript]|].
        * apply steps_then; [apply steps_emit_other; reflexivity|intros _].
          eapply steps_weaken; [apply steps_ret|]. auto.
        * apply steps_then; [apply steps_emit_other; reflexivity|intros _].
          eapply steps_weaken; [apply steps_ret|]. auto.
      + eapply steps_weaken; [apply steps_ret|]. auto.
    - apply steps_then; [apply steps_emit_other; reflexivity|intros _].
      apply steps_then; [apply steps_with_db|intros _].
      eapply steps_weaken; [apply steps_ret|]. auto. }
  destruct (Hsteps w) as (events & Hout & Hnd & _).
  exists events. split; assumption.
Qed.

End ChunksDone.

(* ===================================================================== *)
(** * The transcription driver: the end of a run *)
(* ===================================================================== *)

Section ReadyJob.
Import Py Str Worker Spec.
Context `{Unicode}.

Variable now_iso : list N.
Variable transcribe_chunk_openai : list N -> outcome (list Segment.t * option Q).
Variable transcribe_chunk_fallback : list N -> fallback_result.
Variable sha256_file : list N -> list N.
Variable reported_duration : Q.
Variable chunks_dir : list N -> list N.

Lemma bindM_returns {A B : Type} (m : M A) (k : A -> M B) (w w' : world) (b : B) :
  bindM m k w = (Returns b, w') ->
  exists (a : A) (w1 : world), m w = (Returns a, w1) /\ k a w1 = (Returns b, w').
Proof.
  unfold bindM. destruct (m w) as [[a| |] w1]; intros Hrun.
  - exists a, w1. split; [reflexivity|exact Hrun].
  - inversion Hrun.
  - inversion Hrun.
Qed.

Lemma finish_chunk_result (job_id : list N) (total_chunks : Z) (row : Chunk.t)
    (attempts done_chunks : Z) (engine : list N) (segments : list Segment.t)
    (avg_conf : option Q) (w w' : world) (r : Z + Z) :
  finish_chunk now_iso sha256_file job_id total_chunks row attempts done_chunks
    engine segments avg_conf w = (Returns r, w') ->
  r = inl (done_chunks + 1)%Z.
Proof.
  unfold finish_chunk. intros Hrun.
  apply bindM_returns in Hrun as (_ & w1 & _ & Hrun).
  apply bindM_returns in Hrun as (_ & w2 & _ & Hrun).
  apply bindM_returns in Hrun as (_ & w3 & _ & Hrun).
  apply bindM_returns in Hrun as (_ & w4 & _ & Hrun).
  inversion Hrun. reflexivity.
Qed.

(** A chunk ends the loop only with exit code 1 or 2. *)
Lemma process_chunk_exit_code (job_id : list N) (total_chunks : Z)
    (row : Chunk.t) (done_chunks : Z) (w w' : world) (code : Z) :
  process_chunk now_iso transcribe_chunk_openai transcribe_chunk_fallback
    sha256_file job_id total_chunks row done_chunks w
  = (Returns (inr code), w') ->
  code = 1%Z \/ code = 2%Z.
Proof.
  unfold process_chunk. intros Hrun.
  apply bindM_returns in Hrun as (_ & w1 & _ & Hrun).
  destruct (transcribe_chunk_openai (Chunk.chunk_path row)) as [[segs avg]|e|].
  - apply finish_chunk_result in Hrun. discriminate.
  - apply bindM_returns in Hrun as (_ & w2 & _ & Hrun).
    destruct (transcribe_chunk_fallback (Chunk.chunk_path row)).
    + apply finish_chunk_result in Hrun. discriminate.
    + apply bindM_returns in Hrun as (_ & w3 & _ & Hrun).
      apply bindM_returns in Hrun as (_ & w4 & _ & Hrun).
      apply bindM_returns in Hrun as (_ & w5 & _ & Hrun).
      inversion Hrun. right. reflexivity.
    + apply bindM_returns in Hrun as (_ & w3 & _ & Hrun).
      apply bindM_returns in Hrun as (_ & w4 & _ & Hrun).
      inversion Hrun. left. reflexivity.
  - inversion Hrun.
Qed.

Lemma transcribe_rows_exit_code (job_id : list N) (total_chunks : Z)
    (chunk_rows : list Chunk.t) (done_chunks : Z) (w w' : world) (code : Z) :
  transcribe_rows now_iso transcribe_chunk_openai transcribe_chunk_fallback
    sha256_file job_id total_chunks chunk_rows done_chunks w
  = (Returns (inr code), w') ->
  code = 1%Z \/ code = 2%Z.
Proof.
  revert done_chunks w. induction chunk_rows as [|row rest IH];
    intros done_chunks w; cbn [transcribe_rows].
  - discriminate.
  - destruct (eqb (Chunk.status row) (lit "done")); [apply IH|].
    intros Hrun. apply bindM_returns in Hrun as ([n|c] & w1 & Hstep & Hrest).
    + apply (IH _ _ Hrest).
    + inversion Hrest; subst. apply (process_chunk_exit_code _ _ _ _ _ _ _ Hstep).
Qed.

Lemma with_db_run (f : Storage.conn -> Storage.conn) (w w' : world) (u : unit) :
  with_db f w = (Returns u, w') -> db w' = f (db w).
Proof. unfold with_db. intros Hrun. inversion Hrun. reflexivity. Qed.

Lemma emit_run (ev : event) (w w' : world) (u : unit) :
  emit ev w = (Returns u, w') -> db w' = db w.
Proof. unfold emit. intros Hrun. inversion Hrun. reflexivity. Qed.

Lemma atomic_write_json_run (job_id name : list N) (payload : checkpoint)
    (w w' : world) (u : unit) :
  atomic_write_json job_id name payload w = (Returns u, w') -> db w' = db w.
Proof. unfold atomic_write_json. intros Hrun. inversion Hrun. reflexivity. Qed.

Lemma read_db_run {A : Type} (f : Storage.conn -> A) (w w' : world) (a : A) :
  read_db f w = (Returns a, w') -> a = f (db w) /\ w' = w.
Proof. unfold read_db. intros Hrun. inversion Hrun. split; reflexivity. Qed.

(** A run that ends with exit code 0 leaves the job [ready], without an
    error message, and with a transcript labelled "I" or "D". *)
Lemma transcribe_job_ready (source_exists : bool) (source_path job_id : list N)
    (interviewer_count participant_count : Z) (w w' : world) :
  transcribe_job now_iso transcribe_chunk_openai transcribe_chunk_fallback
    sha256_file reported_duration chunks_dir source_exists source_path job_id
    interviewer_count participant_count w
  = (Returns 0%Z, w') ->
  exists (row : Job.t) (transcript : list Utterance.t),
    Storage.jobs (db w') !! job_id = Some row
    /\ Job.status row = lit "ready"
    /\ Job.error_message row = None
    /\ Job.transcript_json row = Some transcript
    /\ Forall labelled transcript.
Proof.
  unfold transcribe_job. destruct source_exists; cbn [negb]; intros Hrun.
  2:{ apply bindM_returns in Hrun as (_ & w1 & _ & Hrun).
      apply bindM_returns in Hrun as (_ & w2 & _ & Hrun).
      inversion Hrun. }
  apply bindM_returns in Hrun as (_ & w1 & _ & Hrun).
  apply bindM_returns in Hrun as (_ & w2 & _ & Hrun).
  apply bindM_returns in Hrun as ([duration chunk_rows] & w3 & _ & Hrun).
  apply bindM_returns in Hrun as (_ & w4 & _ & Hrun).
  apply bindM_returns in Hrun as ([n|code] & w5 & Hrows & Hrun).
  2:{ inversion Hrun; subst.
      destruct (transcribe_rows_exit_code _ _ _ _ _ _ _ Hrows); discriminate. }
  apply bindM_returns in Hrun as (_ & w6 & _ & Hrun).
  apply bindM_returns in Hrun as (_ & w7 & _ & Hrun).
  apply bindM_returns in Hrun as (rows & w8 & _ & Hrun).
  apply bindM_returns in Hrun as (labeled & w9 & Hmerge & Hrun).
  unfold lift in Hmerge.
  destruct (merge_and_label_returns (collect_segments rows) interviewer_count
              participant_count) as (filtered & _ & _ & Hout).
  pose proof (map_to_interviewer_participant_labels filtered interviewer_count
                participant_count) as Hlabels.
  set (out := Merge.map_to_interviewer_participant filtered interviewer_count
                participant_count) in *.
  rewrite Hout in Hmerge. inversion Hmerge; subst labeled w9. clear Hmerge Hout.
  apply bindM_returns in Hrun as (u1 & w10 & Hfinal & Hrun).
  apply with_db_run in Hfinal.
  apply bindM_returns in Hrun as (u2 & w11 & Hready & Hrun).
  apply with_db_run in Hready.
  apply bindM_returns in Hrun as (u3 & w12 & Hwrite & Hrun).
  apply atomic_write_json_run in Hwrite.
  apply bindM_returns in Hrun as (result & w13 & Hread & Hrun).
  apply read_db_run in Hread as [Hresult ->].
  assert (Hdb : db w' = db w12).
  { destruct result as [[[[rid rpath] rduration] rtranscript]|].
    - apply bindM_returns in Hrun as (u4 & w14 & Hemit & Hrun).
      apply emit_run in Hemit. inversion Hrun; subst. exact Hemit.
    - apply bindM_returns in Hrun as (u4 & w14 & Hemit & Hrun).
      inversion Hrun. }
  rewrite Hdb, Hwrite, Hready, Hfinal.
  unfold Storage.update_job_status, Storage.set_final_transcript.
  cbn [Storage.jobs]. rewrite !lookup_alter_eq.
  destruct (Storage.jobs (db w8) !! job_id) as [j|] eqn:Hjob.
  - eexists. exists out. split; [reflexivity|]. repeat split. exact Hlabels.
  - exfalso. subst result.
    unfold Storage.read_job_result, Storage.get_job in Hrun.
    rewrite Hwrite, Hready, Hfinal in Hrun.
    unfold Storage.update_job_status, Storage.set_final_transcript in Hrun.
    cbn [Storage.jobs] in Hrun. rewrite !lookup_alter_eq, Hjob in Hrun.
    cbn [fmap option_fmap option_map] in Hrun.
    apply bindM_returns in Hrun as (u4 & w14 & Hemit & Hrun).
    inversion Hrun.
Qed.

(** C4, as amended: [set_final_transcript] and [toggle_swap_roles] leave
    the error message of the job null; [update_job_status] never clears
    it: it keeps the stored message unless it is given a new one, also
    when it writes [ready].  The driver writes [ready] through
    [set_final_transcript] followed by [update_job_status], and every run
    of the driver that ends with exit code 0 leaves the job [ready] with
    a null error message. *)
Theorem ready_transitions_error_message (c : Storage.conn) (job_id : list N)
    (row : Job.t) :
  Storage.jobs c !! job_id = Some row ->
  (forall (transcript : list Utterance.t) (status : list N),
      exists row' : Job.t,
        Storage.jobs (Storage.set_final_transcript now_iso c job_id transcript
                        status) !! job_id = Some row'
        /\ Job.status row' = status /\ Job.error_message row' = None)
  /\ (exists row' : Job.t,
         Storage.jobs (fst (Storage.toggle_swap_roles now_iso c job_id)) !! job_id
         = Some row'
         /\ Job.status row' = lit "ready" /\ Job.error_message row' = None)
  /\ (forall (status : list N) (chunks_done chunks_total : option Z)
        (error_message : option (list N)),
         exists row' : Job.t,
           Storage.jobs (Storage.update_job_status now_iso c job_id status
                           chunks_done chunks_total error_message) !! job_id
           = Some row'
           /\ Job.status row' = status
           /\ Job.error_message row'
              = match error_message with
                | Some m => Some m
                | None => Job.error_message row
                end)
  /\ (forall (source_exists : bool) (source_path : list N)
        (interviewer_count participant_count : Z) (w w' : world),
         transcribe_job now_iso transcribe_chunk_openai transcribe_chunk_fallback
           sha256_file reported_duration chunks_dir source_exists source_path
           job_id interviewer_count participant_count w
         = (Returns 0%Z, w') ->
         exists row' : Job.t,
           Storage.jobs (db w') !! job_id = Some row'
           /\ Job.status row' = lit "ready" /\ Job.error_message row' = None).
Proof.
  intros Hrow.
  destruct (store_ready_transitions now_iso c job_id row Hrow)
    as (Hfinal & Htoggle & Hupdate & _).
  split; [exact Hfinal|]. split; [exact Htoggle|]. split; [exact Hupdate|].
  intros source_exists source_path interviewer_count participant_count w w' Hrun.
  destruct (transcribe_job_ready _ _ _ _ _ _ _ Hrun)
    as (row' & transcript & Hlook & Hstatus & Herr & _).
  exists row'. auto.
Qed.

End ReadyJob.

Lemma ready_transitions_error_message_witness :
  Storage.jobs Spec.failed_store !! Str.lit "j" = Some Spec.failed_job
  /\ exists row' : Job.t,
       Storage.jobs (fst (Storage.toggle_swap_roles (Str.lit "t1")
                            Spec.failed_store (Str.lit "j"))) !! Str.lit "j"
       = Some row'
       /\ Job.status row' = Str.lit "ready" /\ Job.error_message row' = None.
Proof.
  split; [vm_compute; reflexivity|].
  apply (@ready_transitions_error_message Str.latin1 (Str.lit "t1")
           Spec.remote_fails_after_first Spec.fallback_answers
           (fun _ => Str.lit "sha") 300 (fun _ => Str.lit "/c")
           Spec.failed_store (Str.lit "j") Spec.failed_job).
  vm_compute. reflexivity.
Defined.

(* ===================================================================== *)
(** * The chunk planner: numbering and file names *)
(* ===================================================================== *)

Section ChunkNumbering.
Import Py Audio.
Local Open Scope Q_scope.

Variable sha256_file : list N -> list N.
Variable chunk_dir : list N.
Variables duration chunk_duration_sec step : Q.
Hypothesis step_ge_1 : 1 <= step.

Lemma inject_Z_S (n : nat) : inject_Z (Z.of_nat (S n)) == inject_Z (Z.of_nat n) + 1.
Proof.
  rewrite Nat2Z.inj_succ, <- Z.add_1_r, inject_Z_plus. reflexivity.
Qed.

(** The loop returns within its fuel for every chunk duration; chunk [i]
    of its result is numbered [idx + i] and planned at [start + i * step]. *)
Lemma create_chunks_loop_numbered (fuel idx : nat) (start : Q) :
  duration - start <= inject_Z (Z.of_nat fuel) ->
  exists chunks,
    create_chunks_loop sha256_file fuel chunk_dir duration chunk_duration_sec
      step idx start = Returns chunks
    /\ duration <= start + inject_Z (Z.of_nat (length chunks)) * step
    /\ (chunks <> [] ->
        start + (inject_Z (Z.of_nat (length chunks)) - 1) * step < duration)
    /\ (forall (i : nat) (c : ChunkPlan.t),
           chunks !! i = Some c ->
           ChunkPlan.idx c = (idx + i)%nat
           /\ ChunkPlan.path c = chunk_file chunk_dir (idx + i)
           /\ ChunkPlan.sha256 c = sha256_file (chunk_file chunk_dir (idx + i))
           /\ ChunkPlan.start_sec c
              == round (start + inject_Z (Z.of_nat i) * step) 3
           /\ ChunkPlan.end_sec c
              == round (Qmin duration
                          (start + inject_Z (Z.of_nat i) * step
                           + chunk_duration_sec)) 3).
Proof using step_ge_1.
  revert idx start. induction fuel as [|fuel IH]; intros idx start Hfuel.
  - simpl. assert (Hge : duration <= start).
    { change (inject_Z (Z.of_nat 0)) with 0 in Hfuel. lra. }
    apply Qltb_ge in Hge. rewrite Hge. eexists; split; [reflexivity|].
    apply Qltb_ge in Hge. cbn [length]. change (inject_Z (Z.of_nat 0)) with 0.
    split; [lra|]. split; [congruence|]. intros i c Hi. discriminate.
  - cbn [create_chunks_loop].
    destruct (Qltb start duration) eqn:Hlt.
    2:{ eexists; split; [reflexivity|]. apply Qltb_ge in Hlt. cbn [length].
        change (inject_Z (Z.of_nat 0)) with 0.
        split; [lra|]. split; [congruence|]. intros i c Hi. discriminate. }
    apply Qltb_lt in Hlt.
    destruct (IH (S idx) (start + step)) as (rest & Hrest & Hhi & Hlo & Hall).
    { rewrite inject_Z_S in Hfuel. lra. }
    rewrite Hrest. cbn [bind]. eexists; split; [reflexivity|].
    cbn [length]. rewrite inject_Z_S.
    split; [lra|]. split.
    + intros _. destruct rest as [|c' rest'].
      * cbn [length]. change (inject_Z (Z.of_nat 0)) with 0. lra.
      * assert (Hne : c' :: rest' <> []) by discriminate.
        specialize (Hlo Hne). lra.
    + intros [|i] c Hi.
      * inversion Hi; subst c.
        cbn [ChunkPlan.idx ChunkPlan.path ChunkPlan.sha256 ChunkPlan.start_sec
               ChunkPlan.end_sec].
        rewrite Nat.add_0_r. change (inject_Z (Z.of_nat 0)) with 0.
        repeat split; try reflexivity.
        -- apply round_comp. lra.
        -- apply round_comp. apply Q.min_compat; [reflexivity|]. lra.
      * destruct (Hall i c Hi) as (Hidx & Hpath & Hsha & Hs & He).
        replace (idx + S i)%nat with (S idx + i)%nat by lia.
        repeat split; try assumption.
        -- rewrite Hs. apply round_comp. rewrite inject_Z_S. lra.
        -- rewrite He. apply round_comp.
           apply Q.min_compat; [reflexivity|]. rewrite inject_Z_S. lra.
Qed.

End ChunkNumbering.

(** With exact sums, for any chunk length and overlap: [create_chunks]
    returns the duration and [n] chunks, [n] being the least integer with
    [duration <= n * step]; chunk [i] is planned at [i * step]. *)
Lemma create_chunks_numbered (sha256_file : list N -> list N)
    (chunk_dir : list N) (reported chunk_duration_sec overlap_sec : Q) :
  (0 < reported)%Q ->
  exists chunks : list ChunkPlan.t,
    Audio.create_chunks sha256_file reported chunk_dir chunk_duration_sec
      overlap_sec = Py.Returns (reported, chunks)
    /\ ((inject_Z (Z.of_nat (length chunks)) - 1)
          * Qmax 1 (chunk_duration_sec - overlap_sec) < reported
        /\ reported
           <= inject_Z (Z.of_nat (length chunks))
              * Qmax 1 (chunk_duration_sec - overlap_sec))%Q
    /\ forall (i : nat) (c : ChunkPlan.t),
         chunks !! i = Some c ->
         ChunkPlan.idx c = i
         /\ ChunkPlan.path c = Audio.chunk_file chunk_dir i
         /\ ChunkPlan.sha256 c = sha256_file (Audio.chunk_file chunk_dir i)
         /\ (ChunkPlan.start_sec c
             == Py.round (inject_Z (Z.of_nat i)
                          * Qmax 1 (chunk_duration_sec - overlap_sec)) 3)%Q
         /\ (ChunkPlan.end_sec c
             == Py.round
                  (Qmin reported
                     (inject_Z (Z.of_nat i)
                      * Qmax 1 (chunk_duration_sec - overlap_sec)
                      + chunk_duration_sec)) 3)%Q.
Proof.
  intros Hpos. unfold Audio.create_chunks, Audio.probe_duration_seconds.
  destruct (Qle_bool reported 0) eqn:E.
  { apply Qle_bool_iff in E. exfalso. apply (Qlt_not_le _ _ Hpos E). }
  cbn [Py.bind].
  set (step := Qmax 1 (chunk_duration_sec - overlap_sec)) in *.
  assert (Hstep : (1 <= step)%Q) by apply Q.le_max_l.
  destruct (create_chunks_loop_numbered sha256_file chunk_dir reported
              chunk_duration_sec step Hstep
              (Audio.create_chunks_fuel reported) 0 0)
    as (chunks & Hrun & Hhi & Hlo & Hall).
  { apply create_chunks_fuel_enough. }
  rewrite Hrun. cbn [Py.bind]. exists chunks. split; [reflexivity|].
  assert (Hne : chunks <> []).
  { intros ->. cbn [length] in Hhi.
    change (inject_Z (Z.of_nat 0)) with 0%Q in Hhi. lra. }
  specialize (Hlo Hne). split; [split; lra|].
  intros i c Hi. destruct (Hall i c Hi) as (Hidx & Hpath & Hsha & Hs & He).
  cbn [Nat.add] in *. repeat split; try assumption.
  - rewrite Hs. apply round_comp. lra.
  - rewrite He. apply round_comp. apply Q.min_compat; [reflexivity|]. lra.
Qed.

(** X1: for a positive probed duration, [create_chunks] with its default
    chunk length of 240 s and overlap of 1.5 s returns the duration and [n]
    chunks, [n] being the least integer with [duration <= n * 238.5];
    chunk [i] has index [i], the file [chunk_file chunk_dir i] and its
    hash, starts at [i * 238.5] and ends at
    [round(min(duration, i * 238.5 + 240), 3)]. *)
Theorem create_chunks_numbering (sha256_file : list N -> list N)
    (chunk_dir : list N) (reported : Q) :
  (0 < reported)%Q ->
  exists chunks : list ChunkPlan.t,
    Audio.create_chunks sha256_file reported chunk_dir
      Audio.default_chunk_duration_sec Audio.default_overlap_sec
    = Py.Returns (reported, chunks)
    /\ ((inject_Z (Z.of_nat (length chunks)) - 1) * (477 # 2) < reported
        /\ reported <= inject_Z (Z.of_nat (length chunks)) * (477 # 2))%Q
    /\ forall (i : nat) (c : ChunkPlan.t),
         chunks !! i = Some c ->
         ChunkPlan.idx c = i
         /\ ChunkPlan.path c = Audio.chunk_file chunk_dir i
         /\ ChunkPlan.sha256 c = sha256_file (Audio.chunk_file chunk_dir i)
         /\ (ChunkPlan.start_sec c == inject_Z (Z.of_nat i) * (477 # 2))%Q
         /\ (ChunkPlan.end_sec c
             == Py.round
                  (Qmin reported (inject_Z (Z.of_nat i) * (477 # 2) + 240))
                  3)%Q.
Proof.
  intros Hpos.
  destruct (create_chunks_numbered sha256_file chunk_dir reported
              Audio.default_chunk_duration_sec Audio.default_overlap_sec Hpos)
    as (chunks & Hrun & Hcount & Hall).
  assert (Hstep : (Qmax 1 (Audio.default_chunk_duration_sec
                           - Audio.default_overlap_sec) == 477 # 2)%Q).
  { vm_compute. reflexivity. }
  exists chunks. split; [exact Hrun|]. split.
  - rewrite Hstep in Hcount. exact Hcount.
  - intros i c Hi. destruct (Hall i c Hi) as (Hidx & Hpath & Hsha & Hs & He).
    split; [exact Hidx|]. split; [exact Hpath|]. split; [exact Hsha|]. split.
    + rewrite Hs.
      rewrite (round_comp _ (inject_Z (Z.of_nat i * 238500)
                             / inject_Z (10 ^ Z.of_nat 3))).
      * rewrite round_exact. rewrite inject_Z_mult.
        change (inject_Z (10 ^ Z.of_nat 3)) with 1000%Q.
        change (inject_Z 238500) with 238500%Q. field.
      * rewrite Hstep, inject_Z_mult.
        change (inject_Z (10 ^ Z.of_nat 3)) with 1000%Q.
        change (inject_Z 238500) with 238500%Q. field.
    + rewrite He. apply round_comp.
      apply Q.min_compat; [reflexivity|]. rewrite Hstep.
      change Audio.default_chunk_duration_sec with 240%Q. reflexivity.
Qed.

Lemma create_chunks_numbering_witness :
  (0 < 500)%Q
  /\ exists chunks : list ChunkPlan.t,
    Audio.create_chunks (fun _ => []) 500 []
      Audio.default_chunk_duration_sec Audio.default_overlap_sec
    = Py.Returns (500%Q, chunks)
    /\ ((inject_Z (Z.of_nat (length chunks)) - 1) * (477 # 2) < 500
        /\ 500 <= inject_Z (Z.of_nat (length chunks)) * (477 # 2))%Q
    /\ forall (i : nat) (c : ChunkPlan.t),
         chunks !! i = Some c ->
         ChunkPlan.idx c = i
         /\ ChunkPlan.path c = Audio.chunk_file [] i
         /\ ChunkPlan.sha256 c = []
         /\ (ChunkPlan.start_sec c == inject_Z (Z.of_nat i) * (477 # 2))%Q
         /\ (ChunkPlan.end_sec c
             == Py.round
                  (Qmin 500 (inject_Z (Z.of_nat i) * (477 # 2) + 240)) 3)%Q.
Proof.
  split; [reflexivity|].
  apply (create_chunks_numbering (fun _ => []) [] 500).
  reflexivity.
Defined.

Section FileNames.
Import Py Str.

(** Reading a zero-padded decimal back: the digits of [of_nat n] after any
    number of zeros are a numeral of value [n]. *)
Lemma padded_digits_value (k n : nat) :
  option_map Nat.of_uint
    (NilEmpty.uint_of_string
       (string_of_list_ascii
          (List.map ascii_of_N (repeat 48%N k ++ of_nat n))))
  = Some n.
Proof.
  unfold of_nat. rewrite List.map_app, List.map_map.
  rewrite (List.map_ext _ (fun a => a)) by (intros a; apply ascii_N_embedding).
  rewrite List.map_id.
  induction k as [|k IH].
  - cbn [repeat List.map app]. rewrite string_of_list_ascii_of_string.
    rewrite NilEmpty.usu. cbn [option_map].
    rewrite DecimalNat.Unsigned.of_to. reflexivity.
  - cbn [repeat List.map app string_of_list_ascii NilEmpty.uint_of_string].
    destruct (NilEmpty.uint_of_string _) as [d|]; [|discriminate].
    cbn [option_map] in IH. inversion IH as [Hd].
    change (ascii_of_N 48) with "0"%char. cbn [uint_of_char option_map].
    reflexivity.
Qed.

Lemma padded_digits_inj (i j : nat) :
  repeat 48%N (4 - List.length (of_nat i)) ++ of_nat i
  = repeat 48%N (4 - List.length (of_nat j)) ++ of_nat j ->
  i = j.
Proof.
  intros E.
  pose proof (padded_digits_value (4 - List.length (of_nat i)) i) as Hi.
  pose proof (padded_digits_value (4 - List.length (of_nat j)) j) as Hj.
  rewrite E in Hi. congruence.
Qed.

End FileNames.

(** X2: different chunk indexes give different chunk files and
    different checkpoint names, and no chunk checkpoint is named
    [result.json]. *)
Theorem chunk_files_distinct (chunk_dir : list N) (i j : nat) :
  i <> j ->
  Audio.chunk_file chunk_dir i <> Audio.chunk_file chunk_dir j
  /\ Worker.checkpoint_name i <> Worker.checkpoint_name j
  /\ Worker.checkpoint_name i <> Str.lit "result.json".
Proof.
  intros Hij. split; [|split].
  - unfold Audio.chunk_file. intros E.
    apply app_inv_head in E. apply app_inv_head in E.
    rewrite !app_assoc in E. apply app_inv_tail in E.
    apply Hij, padded_digits_inj, E.
  - unfold Worker.checkpoint_name. intros E.
    apply app_inv_head in E.
    rewrite !app_assoc in E. apply app_inv_tail in E.
    apply Hij, padded_digits_inj, E.
  - unfold Worker.checkpoint_name. intros E.
    apply (f_equal (fun l => hd 0%N l)) in E. vm_compute in E. discriminate.
Qed.

Lemma chunk_files_distinct_witness :
  0%nat <> 1%nat
  /\ Audio.chunk_file (Str.lit "/c") 0 <> Audio.chunk_file (Str.lit "/c") 1
  /\ Worker.checkpoint_name 0 <> Worker.checkpoint_name 1
  /\ Worker.checkpoint_name 0 <> Str.lit "result.json".
Proof.
  split; [discriminate|].
  apply (chunk_files_distinct (Str.lit "/c") 0 1). discriminate.
Defined.

(* ===================================================================== *)
(** * Sorting by a key *)
(* ===================================================================== *)

Section SortedOrder.
Import Py.
Context {A K : Type} (lt : K -> K -> bool) (key : A -> K).
Hypothesis lt_asym : forall a b : K, lt a b = true -> lt b a = false.

Lemma insert_by_HdRel (x y : A) (l : list A) :
  lt (key x) (key y) = false -> Sorted.HdRel (fun a b => lt (key b) (key a) = false) y l ->
  Sorted.HdRel (fun a b => lt (key b) (key a) = false) y (insert_by lt key x l).
Proof.
  intros Hyx Hhd. destruct l as [|z l]; cbn.
  - constructor. exact Hyx.
  - destruct (lt (key z) (key x)); constructor.
    + inversion Hhd; assumption.
    + exact Hyx.
Qed.

Lemma insert_by_Sorted (x : A) (l : list A) :
  Sorted.Sorted (fun a b => lt (key b) (key a) = false) l -> Sorted.Sorted (fun a b => lt (key b) (key a) = false) (insert_by lt key x l).
Proof using lt_asym.
  induction 1 as [|y l Hs IH Hhd]; cbn.
  - repeat constructor.
  - destruct (lt (key y) (key x)) eqn:E.
    + constructor; [exact IH|].
      apply insert_by_HdRel; [|exact Hhd]. apply lt_asym, E.
    + constructor; [constructor; assumption|]. constructor. exact E.
Qed.

Lemma sorted_Sorted (l : list A) : Sorted.Sorted (fun a b => lt (key b) (key a) = false) (sorted lt key l).
Proof using lt_asym.
  induction l as [|x l IH]; cbn; [constructor|].
  apply insert_by_Sorted, IH.
Qed.

Lemma Sorted_adjacent (R : A -> A -> Prop) (l : list A) :
  Sorted.Sorted R l ->
  forall (i : nat) (a b : A), l !! i = Some a -> l !! S i = Some b -> R a b.
Proof.
  induction 1 as [|y l Hs IH Hhd]; intros i a b Ha Hb; [discriminate|].
  destruct i as [|i].
  - inversion Ha; subst. destruct l as [|z l]; [discriminate|].
    inversion Hb; subst. inversion Hhd; assumption.
  - apply (IH i a b Ha Hb).
Qed.

Lemma sorted_adjacent (l : list A) (i : nat) (a b : A) :
  sorted lt key l !! i = Some a -> sorted lt key l !! S i = Some b ->
  lt (key b) (key a) = false.
Proof using lt_asym.
  apply (Sorted_adjacent (fun a b => lt (key b) (key a) = false)), sorted_Sorted.
Qed.

End SortedOrder.

Lemma lookup_map {A B : Type} (f : A -> B) (l : list A) (i : nat) :
  List.map f l !! i = option_map f (l !! i).
Proof.
  revert i. induction l as [|x l IH]; intros [|i]; cbn; try reflexivity.
  apply IH.
Qed.

Section Chronology.
Import Py Str Merge Shapes.
Context `{Unicode}.
Local Open Scope Q_scope.

Lemma pair_lt_asym (a b : Q * Q) : pair_lt a b = true -> pair_lt b a = false.
Proof.
  unfold pair_lt. intros Hab.
  apply orb_true_iff in Hab as [Hlt|Heq].
  - apply Qltb_lt in Hlt. apply orb_false_iff. split.
    + apply Qltb_ge. lra.
    + apply andb_false_iff. left.
      destruct (Qeq_bool (fst b) (fst a)) eqn:E; [|reflexivity].
      apply Qeq_bool_iff in E. lra.
  - apply andb_true_iff in Heq as [Heq Hlt].
    apply Qeq_bool_iff in Heq. apply Qltb_lt in Hlt.
    apply orb_false_iff. split.
    + apply Qltb_ge. lra.
    + apply andb_false_iff. right. apply Qltb_ge. lra.
Qed.

Lemma pair_lt_false_fst (a b : Q * Q) : pair_lt b a = false -> fst a <= fst b.
Proof.
  unfold pair_lt. intros Hba. apply orb_false_iff in Hba as [Hlt _].
  apply Qltb_ge in Hlt. exact Hlt.
Qed.

(** The mapping lists the utterances by start time. *)
Lemma map_to_interviewer_participant_chronological (segments : list Segment.t)
    (interviewer_count participant_count : Z) :
  chronological
    (map_to_interviewer_participant segments interviewer_count participant_count).
Proof.
  unfold chronological, map_to_interviewer_participant. intros i u v Hu Hv.
  rewrite lookup_map in Hu, Hv.
  destruct (sorted pair_lt by_time segments !! i) as [a|] eqn:Ha; [|discriminate].
  destruct (sorted pair_lt by_time segments !! S i) as [b|] eqn:Hb; [|discriminate].
  inversion Hu; subst u. inversion Hv; subst v. cbn [Utterance.startSec].
  apply round_mono.
  pose proof (sorted_adjacent pair_lt by_time pair_lt_asym segments i a b Ha Hb)
    as Hord.
  apply pair_lt_false_fst in Hord. exact Hord.
Qed.

Lemma map_to_interviewer_participant_milli (segments : list Segment.t)
    (interviewer_count participant_count : Z) :
  Forall (fun u => Spec.is_milli (Utterance.startSec u)
                   /\ Spec.is_milli (Utterance.endSec u))
    (map_to_interviewer_participant segments interviewer_count participant_count).
Proof.
  unfold map_to_interviewer_participant.
  apply Forall_forall. intros u Hu. apply list_elem_of_In in Hu.
  apply in_map_iff in Hu as (segment & <- & _).
  cbn [Utterance.startSec Utterance.endSec]. unfold Spec.is_milli, round.
  split; eexists; reflexivity.
Qed.

End Chronology.

(* ===================================================================== *)
(** * The post-processor: texts *)
(* ===================================================================== *)

Section SpokenText.
Import Py Str Merge Shapes.
Context `{Unicode}.

Lemma rstrip_by_last (p : N -> bool) (s : list N) :
  rstrip_by p s <> [] ->
  exists c : N, last (rstrip_by p s) = Some c /\ p c = false /\ In c s.
Proof.
  unfold rstrip_by. intros Hne.
  destruct (dropwhile p (rev s)) as [|c rest] eqn:E; [contradiction|].
  exists c. split; [|split].
  - cbn [rev]. apply last_snoc.
  - apply (dropwhile_head p (rev s) c rest E).
  - apply in_rev. apply (dropwhile_In p). rewrite E. left. reflexivity.
Qed.

Lemma last_In {A : Type} (l : list A) (x : A) : last l = Some x -> In x l.
Proof.
  intros Hl. apply last_Some in Hl as [l' ->]. apply in_or_app. right. left.
  reflexivity.
Qed.

(** A stripped text that is not empty is spoken. *)
Lemma strip_spoken (s : list N) : strip s <> [] -> spoken (strip s).
Proof.
  intros Hne. unfold strip in *.
  destruct (rstrip_by_last isspace (lstrip_by isspace s) Hne) as (c & Hl & Hc & _).
  exists c. split; [apply last_In, Hl|exact Hc].
Qed.

Lemma spoken_strip (s : list N) : spoken s -> spoken (strip s).
Proof.
  intros (c & Hin & Hc). apply strip_spoken. apply (strip_not_blank s c Hin Hc).
Qed.

Lemma spoken_not_nil (s : list N) : spoken s -> s <> [].
Proof. intros (c & Hin & _) ->. exact Hin. Qed.

(** After [re.sub(r"\s+", " ", s)] the only white space left is U+0020. *)
Lemma collapse_spaces_from_space (in_run : bool) (s : list N) (c : N) :
  In c (collapse_spaces_from in_run s) -> isspace c = true -> c = 32%N.
Proof.
  revert in_run. induction s as [|a s IH]; intros in_run Hin Hc; [contradiction|].
  cbn [collapse_spaces_from] in Hin. destruct (isspace a) eqn:Ea.
  - destruct in_run.
    + apply (IH true Hin Hc).
    + destruct Hin as [<-|Hin]; [reflexivity|apply (IH true Hin Hc)].
  - destruct Hin as [<-|Hin]; [congruence|apply (IH false Hin Hc)].
Qed.

(** What [_strip_fillers] leaves is empty or spoken. *)
Lemma _strip_fillers_spoken (text : list N) :
  _strip_fillers text <> [] -> spoken (_strip_fillers text).
Proof.
  unfold _strip_fillers, strip_chars. intros Hne.
  match type of Hne with
  | rstrip_by ?p (lstrip_by ?p ?s) <> [] =>
      destruct (rstrip_by_last p (lstrip_by p s) Hne) as (c & Hl & Hc & Hin)
  end.
  exists c. split; [apply last_In, Hl|].
  destruct (isspace c) eqn:Ec; [|reflexivity]. exfalso.
  apply (dropwhile_In _ _ _) in Hin.
  apply (collapse_spaces_from_space false _ c Hin) in Ec. subst c.
  vm_compute in Hc. discriminate.
Qed.

Lemma style_filter_step_spoken (filtered : list Segment.t) (segment : Segment.t) :
  Forall (fun seg => spoken (Segment.text seg)) filtered ->
  Forall (fun seg => spoken (Segment.text seg)) (style_filter_step filtered segment).
Proof.
  intros Hall. unfold style_filter_step.
  destruct (_strip_fillers (strip (Segment.text segment))) as [|c cleaned] eqn:E;
    [exact Hall|].
  destruct (_is_backchannel (c :: cleaned)); [exact Hall|].
  destruct (_is_technical_meta (c :: cleaned)); [exact Hall|].
  apply Forall_app. split; [exact Hall|]. constructor; [|constructor].
  cbn [Segment.text]. rewrite <- E. apply _strip_fillers_spoken.
  rewrite E. discriminate.
Qed.

Lemma fold_left_Forall {A B : Type} (P : A -> Prop) (step : list A -> B -> list A)
    (l : list B) (acc : list A) :
  (forall acc x, Forall P acc -> Forall P (step acc x)) ->
  Forall P acc -> Forall P (fold_left step l acc).
Proof.
  intros Hstep. revert acc. induction l as [|x l IH]; intros acc Hacc; cbn.
  - exact Hacc.
  - apply IH, Hstep, Hacc.
Qed.

Lemma compact_loop_Forall (P : Segment.t -> Prop) (fuel : nat)
    (compacted result : list Segment.t) (i : nat) :
  Forall P compacted ->
  compact_loop fuel compacted i = Returns result -> Forall P result.
Proof.
  revert compacted i. induction fuel as [|fuel IH]; intros compacted i Hall;
    cbn [compact_loop]; destruct (i <? length compacted - 1)%nat;
    try discriminate; try (intros Hr; inversion Hr; subst; exact Hall).
  destruct (compacted !! (i - 1)%nat); [|discriminate].
  destruct (compacted !! i); [|discriminate].
  destruct (compacted !! (i + 1)%nat); [|discriminate].
  match goal with
  | |- context [if ?b then _ else _] => destruct b
  end.
  - apply IH. apply Forall_delete, Hall.
  - apply IH, Hall.
Qed.

Lemma Forall_removelast {A : Type} (P : A -> Prop) (l : list A) :
  Forall P l -> Forall P (removelast l).
Proof.
  induction 1 as [|a l Ha Hl IH]; cbn [removelast]; [constructor|].
  destruct l; [constructor|]. constructor; assumption.
Qed.

Lemma merge_runs_step_spoken (merged_runs : list Segment.t) (segment : Segment.t) :
  Forall (fun seg => spoken (Segment.text seg)) merged_runs -> spoken (Segment.text segment) ->
  Forall (fun seg => spoken (Segment.text seg)) (merge_runs_step merged_runs segment).
Proof.
  intros Hall Hseg. unfold merge_runs_step.
  destruct (last merged_runs) as [previous|] eqn:Hlast.
  2:{ apply Forall_app. split; [exact Hall|]. repeat constructor. exact Hseg. }
  destruct (_ && _).
  - unfold set_last. apply Forall_app. split; [apply Forall_removelast, Hall|].
    constructor; [|constructor]. cbn [Segment.text]. apply spoken_strip.
    destruct Hseg as (c & Hin & Hc). exists c. split; [|exact Hc].
    apply in_or_app. right. apply in_or_app. right. exact Hin.
  - apply Forall_app. split; [exact Hall|]. repeat constructor. exact Hseg.
Qed.

Lemma merge_runs_spoken (compacted acc : list Segment.t) :
  Forall (fun seg => spoken (Segment.text seg)) compacted -> Forall (fun seg => spoken (Segment.text seg)) acc ->
  Forall (fun seg => spoken (Segment.text seg)) (fold_left merge_runs_step compacted acc).
Proof.
  revert acc. induction compacted as [|seg rest IH]; intros acc Hc Hacc; cbn.
  - exact Hacc.
  - inversion Hc; subst. apply IH; [assumption|].
    apply merge_runs_step_spoken; assumption.
Qed.

(** Every segment that [filter_style_noise] returns has a spoken text. *)
Lemma filter_style_noise_spoken (segments filtered : list Segment.t) :
  filter_style_noise segments = Returns filtered ->
  Forall (fun seg => spoken (Segment.text seg)) filtered.
Proof.
  unfold filter_style_noise.
  set (first := fold_left style_filter_step _ []).
  assert (Hfirst : Forall (fun seg => spoken (Segment.text seg)) first).
  { apply fold_left_Forall; [apply style_filter_step_spoken|constructor]. }
  destruct (length first <? 3)%nat.
  - intros Hr. inversion Hr; subst. exact Hfirst.
  - destruct (compact_loop (length first) first 1) as [compacted| |] eqn:Hloop;
      cbn [bind]; try discriminate.
    intros Hr. inversion Hr; subst.
    apply merge_runs_spoken; [|constructor].
    apply (compact_loop_Forall _ _ _ _ _ Hfirst Hloop).
Qed.

Lemma map_to_interviewer_participant_spoken (segments : list Segment.t)
    (interviewer_count participant_count : Z) :
  Forall (fun seg => spoken (Segment.text seg)) segments ->
  Forall (fun u => spoken (Utterance.text u))
    (map_to_interviewer_participant segments interviewer_count participant_count).
Proof.
  intros Hall. unfold map_to_interviewer_participant.
  apply Forall_forall. intros u Hu. apply list_elem_of_In in Hu.
  apply in_map_iff in Hu as (segment & <- & Hin). cbn [Utterance.text].
  apply spoken_strip. apply sorted_In in Hin.
  rewrite Forall_forall in Hall. apply Hall, list_elem_of_In, Hin.
Qed.

End SpokenText.

Section TranscriptShape.
Import Py Str Merge Shapes.
Context `{Unicode}.

(** X3: [merge_and_label] always returns, and its utterances are in the
    order of their start times, with start and end times that are whole
    milliseconds. *)
Theorem merge_and_label_chronological (segments : list Segment.t)
    (interviewer_count participant_count : Z) :
  exists out : list Utterance.t,
    merge_and_label segments interviewer_count participant_count = Returns out
    /\ chronological out
    /\ Forall (fun u => Spec.is_milli (Utterance.startSec u)
                        /\ Spec.is_milli (Utterance.endSec u)) out.
Proof.
  destruct (merge_and_label_returns segments interviewer_count participant_count)
    as (filtered & _ & _ & Hout).
  eexists. split; [exact Hout|]. split.
  - apply map_to_interviewer_participant_chronological.
  - apply map_to_interviewer_participant_milli.
Qed.

(** X4: [merge_and_label] returns no blank utterance: every text holds
    a code point that is not white space. *)
Theorem merge_and_label_spoken (segments : list Segment.t)
    (interviewer_count participant_count : Z) :
  exists out : list Utterance.t,
    merge_and_label segments interviewer_count participant_count = Returns out
    /\ Forall (fun u => Utterance.text u <> [] /\ spoken (Utterance.text u)) out.
Proof.
  destruct (merge_and_label_returns segments interviewer_count participant_count)
    as (filtered & Hf & _ & Hout).
  eexists. split; [exact Hout|].
  pose proof (map_to_interviewer_participant_spoken filtered interviewer_count
                participant_count (filter_style_noise_spoken _ _ Hf)) as Hs.
  eapply Forall_impl; [exact Hs|]. cbn. intros u Hu.
  split; [apply spoken_not_nil, Hu|exact Hu].
Qed.

End TranscriptShape.

(* ===================================================================== *)
(** * Interviewer inference: who is picked *)
(* ===================================================================== *)

Section Picked.
Import Py Str Merge Spec Shapes.
Context `{Unicode}.

(** For a transcript with a segment, inference picks a raw speaker of it. *)
Lemma infer_picks_a_speaker (ordered : list Segment.t)
    (interviewer_count participant_count : Z) :
  ordered <> [] ->
  exists x : list N,
    x ∈ speaker_ids ordered
    /\ x ∈ _infer_interviewer_speakers ordered interviewer_count participant_count.
Proof.
  intros Hne. unfold _infer_interviewer_speakers.
  destruct ordered as [|s0 ordered0]; [contradiction|].
  set (ordered := s0 :: ordered0) in *.
  destruct (stats_fold_consistent ordered (∅, []) stats_empty_consistent)
    as [(Hnd & Hsize & Hdom) Hall].
  destruct (fold_left stats_step ordered (∅, [])) as [m o].
  cbn [fst snd] in Hnd, Hsize, Hdom, Hall.
  assert (Hmem : forall id, id ∈ o <-> id ∈ speaker_ids ordered).
  { intros id. rewrite Hall. split; [intros [Hi|Hi]; [inversion Hi|exact Hi]|auto]. }
  assert (Hpos : (1 <= length o)%nat).
  { assert (Hin : speaker_or_default (Segment.speaker s0) ∈ o).
    { apply Hmem. left. }
    destruct o; [inversion Hin|cbn; lia]. }
  destruct (lookup_lt_is_Some_2 o 0) as [x0 Hx0]; [lia|].
  destruct (size m <=? 1)%nat eqn:E.
  { exists x0. split.
    - apply Hmem, list_elem_of_lookup. eauto.
    - apply elem_of_take. exists 0%nat. split; [exact Hx0|lia]. }
  apply Nat.leb_gt in E.
  assert (Hn : (2 <= Z.of_nat (size m))%Z) by lia.
  pose proof (expected_interviewer_slots_bounds (Z.of_nat (size m))
                interviewer_count participant_count Hn) as Hslots.
  set (slots := _expected_interviewer_slots _ _ _) in *.
  set (scored0 := omap _ o).
  set (scored := sorted pair_lt scored_key scored0).
  set (ids := List.map (fun item : list N * Q * Q => fst (fst item)) scored).
  assert (Hperm : Permutation ids o).
  { unfold ids, scored. rewrite (sorted_perm pair_lt scored_key scored0).
    unfold scored0. rewrite scored_ids; [reflexivity|].
    intros id Hid. apply Hdom, Hid. }
  assert (Hpick : List.map (fun item : list N * Q * Q => fst (fst item))
                    (take (Z.to_nat slots) scored)
                  = take (Z.to_nat slots) ids).
  { unfold ids. symmetry. apply firstn_map. }
  rewrite Hpick.
  assert (Hlen' : length ids = length o) by (apply Permutation_length, Hperm).
  set (k := Z.to_nat slots) in *.
  assert (Hk : (1 <= k)%nat) by (unfold k; lia).
  destruct (lookup_lt_is_Some_2 ids 0) as [x Hx]; [lia|].
  assert (Hxin : x ∈ take k ids).
  { apply elem_of_take. exists 0%nat. split; [exact Hx|lia]. }
  exists x. split.
  - apply Hmem. rewrite <- Hperm. apply list_elem_of_lookup. eauto.
  - destruct (take k ids) as [|p ps] eqn:Et; [inversion Hxin|]. exact Hxin.
Qed.

(** With one raw speaker, inference picks that speaker. *)
Lemma infer_single_speaker (ordered : list Segment.t)
    (interviewer_count participant_count : Z) (a : list N) :
  ordered <> [] ->
  (forall id : list N, id ∈ speaker_ids ordered -> id = a) ->
  a ∈ _infer_interviewer_speakers ordered interviewer_count participant_count.
Proof.
  intros Hne Hsame.
  destruct (infer_picks_a_speaker ordered interviewer_count participant_count Hne)
    as (x & Hx & Hpick).
  rewrite <- (Hsame x Hx). exact Hpick.
Qed.

Lemma speaker_ids_In (segments : list Segment.t) (id : list N) :
  id ∈ speaker_ids segments
  <-> exists s : Segment.t,
        In s segments /\ speaker_or_default (Segment.speaker s) = id.
Proof.
  unfold speaker_ids. rewrite list_elem_of_In, in_map_iff.
  split; intros (s & H1 & H2); exists s; auto.
Qed.

Lemma sorted_not_nil {A K : Type} (lt : K -> K -> bool) (key : A -> K)
    (l : list A) :
  l <> [] -> sorted lt key l <> [].
Proof.
  intros Hne Hs. apply Hne. apply length_zero_iff_nil.
  rewrite <- (sorted_length lt key l), Hs. reflexivity.
Qed.

(** X5: given at least one segment, [map_to_interviewer_participant]
    labels some utterance [I]. *)
Theorem map_to_interviewer_participant_some_interviewer
    (segments : list Segment.t) (interviewer_count participant_count : Z) :
  segments <> [] ->
  exists u : Utterance.t,
    In u (map_to_interviewer_participant segments interviewer_count
            participant_count)
    /\ Utterance.speaker u = lit "I".
Proof.
  intros Hne. unfold map_to_interviewer_participant.
  set (ordered := sorted pair_lt by_time segments).
  assert (Hno : ordered <> []) by (apply sorted_not_nil, Hne).
  destruct (infer_picks_a_speaker ordered interviewer_count participant_count Hno)
    as (x & Hx & Hpick).
  apply speaker_ids_In in Hx as (s & Hs & Hid).
  eexists. split.
  - apply in_map_iff. exists s. split; [reflexivity|exact Hs].
  - cbn [Utterance.speaker]. rewrite Hid. unfold member.
    rewrite bool_decide_eq_true_2 by exact Hpick. reflexivity.
Qed.

(** X6: when all segments have the same speaker, every utterance is
    labelled [I]. *)
Theorem map_to_interviewer_participant_single_speaker
    (segments : list Segment.t) (interviewer_count participant_count : Z)
    (a : list N) :
  (forall s : Segment.t,
      In s segments -> speaker_or_default (Segment.speaker s) = a) ->
  Forall (fun u => Utterance.speaker u = lit "I")
    (map_to_interviewer_participant segments interviewer_count participant_count).
Proof.
  intros Hsame. unfold map_to_interviewer_participant.
  set (ordered := sorted pair_lt by_time segments).
  apply Forall_forall. intros u Hu. apply list_elem_of_In in Hu.
  apply in_map_iff in Hu as (s & <- & Hs). cbn [Utterance.speaker].
  assert (Hno : ordered <> []) by (intros E; rewrite E in Hs; exact Hs).
  assert (Hpick : a ∈ _infer_interviewer_speakers ordered interviewer_count
                        participant_count).
  { apply infer_single_speaker; [exact Hno|].
    intros id Hid. apply speaker_ids_In in Hid as (s' & Hs' & <-).
    apply Hsame. apply (sorted_In pair_lt by_time), Hs'. }
  rewrite (Hsame s) by (apply (sorted_In pair_lt by_time), Hs).
  unfold member. rewrite bool_decide_eq_true_2 by exact Hpick. reflexivity.
Qed.

End Picked.

Lemma map_to_interviewer_participant_some_interviewer_witness :
  Shapes.monologue <> []
  /\ exists u : Utterance.t,
       In u (@Merge.map_to_interviewer_participant Str.latin1 Shapes.monologue 1 1)
       /\ Utterance.speaker u = Str.lit "I".
Proof.
  split; [discriminate|].
  apply (@map_to_interviewer_participant_some_interviewer Str.latin1
           Shapes.monologue 1 1).
  discriminate.
Defined.

Lemma map_to_interviewer_participant_single_speaker_witness :
  (forall s : Segment.t,
      In s Shapes.monologue ->
      Merge.speaker_or_default (Segment.speaker s) = Str.lit "A")
  /\ Forall (fun u => Utterance.speaker u = Str.lit "I")
       (@Merge.map_to_interviewer_participant Str.latin1 Shapes.monologue 1 1).
Proof.
  assert (Hsame : forall s : Segment.t,
             In s Shapes.monologue ->
             Merge.speaker_or_default (Segment.speaker s) = Str.lit "A").
  { intros s [<-|[<-|[<-|[]]]]; reflexivity. }
  split; [exact Hsame|].
  apply (@map_to_interviewer_participant_single_speaker Str.latin1
           Shapes.monologue 1 1 (Str.lit "A")).
  exact Hsame.
Defined.

(* ===================================================================== *)
(** * Deduplication leaves separate segments alone *)
(* ===================================================================== *)

Section Separated.
Import Py Str Merge Shapes.
Context `{Unicode}.
Local Open Scope Q_scope.




End Separated.


(* ===================================================================== *)
(** * The job store: rows and keys *)
(* ===================================================================== *)

Section StoreRows.
Import Py Str Storage Rows.
Variable now_iso : list N.

Lemma alter_missing {A : Type} (f : A -> A) (m : gmap (list N) A) (k : list N) :
  m !! k = None -> alter f k m = m.
Proof.
  intros Hk. apply map_eq. intros j.
  destruct (decide (k = j)) as [<-|Hne].
  - rewrite lookup_alter_eq, Hk. reflexivity.
  - apply lookup_alter_ne, Hne.
Qed.

Lemma conn_eta (c : conn) : mk_conn (jobs c) (chunks c) = c.
Proof. destruct c. reflexivity. Qed.

(** X8: for a job that has no row, the updates of the store change
    nothing, [toggle_swap_roles] and [get_transcript] give the empty
    transcript and [read_job_result] gives nothing. *)
Theorem updates_of_missing_job (c : conn) (job_id : list N) :
  jobs c !! job_id = None ->
  (forall (status : list N) (chunks_done chunks_total : option Z)
      (error_message : option (list N)),
      update_job_status now_iso c job_id status chunks_done chunks_total
        error_message = c)
  /\ (forall (duration_sec : Q) (chunks_total : Z),
         update_job_metadata now_iso c job_id duration_sec chunks_total = c)
  /\ (forall (transcript : list Utterance.t) (status : list N),
         set_final_transcript now_iso c job_id transcript status = c)
  /\ toggle_swap_roles now_iso c job_id = (c, [])
  /\ get_transcript c job_id = []
  /\ read_job_result c job_id = None.
Proof.
  intros Hmissing.
  assert (Hfinal : forall transcript status,
             set_final_transcript now_iso c job_id transcript status = c).
  { intros. unfold set_final_transcript.
    rewrite (alter_missing _ _ _ Hmissing). apply conn_eta. }
  assert (Hget : get_transcript c job_id = []).
  { unfold get_transcript. rewrite Hmissing. reflexivity. }
  repeat split.
  - intros. unfold update_job_status.
    rewrite (alter_missing _ _ _ Hmissing). apply conn_eta.
  - intros. unfold update_job_metadata.
    rewrite (alter_missing _ _ _ Hmissing). apply conn_eta.
  - exact Hfinal.
  - unfold toggle_swap_roles. rewrite Hget. cbn [List.map]. rewrite Hfinal.
    reflexivity.
  - exact Hget.
  - unfold read_job_result, get_job. rewrite Hmissing. reflexivity.
Qed.

End StoreRows.

Lemma updates_of_missing_job_witness :
  Storage.jobs Rows.empty_store !! Str.lit "j" = None
  /\ Storage.toggle_swap_roles (Str.lit "t1") Rows.empty_store (Str.lit "j")
     = (Rows.empty_store, []).
Proof.
  split; [reflexivity|].
  apply (updates_of_missing_job (Str.lit "t1") Rows.empty_store (Str.lit "j")).
  reflexivity.
Defined.

Section StoreConsistency.
Import Py Str Storage Rows.
Variable now_iso : list N.

Lemma consistent_alter (c : conn) (job_id : list N) (f : Job.t -> Job.t) :
  (forall j, Job.id (f j) = Job.id j) ->
  consistent c -> consistent (mk_conn (alter f job_id (jobs c)) (chunks c)).
Proof.
  intros Hid [Hjobs Hchunks]. split; cbn [jobs chunks].
  - intros k j. rewrite lookup_alter.
    destruct (decide (job_id = k)) as [<-|Hne]; [|apply Hjobs].
    destruct (jobs c !! job_id) as [j0|] eqn:E; [|discriminate].
    cbn. intros Hj. inversion Hj; subst. rewrite Hid. apply (Hjobs _ _ E).
  - intros k i r Hr. destruct (Hchunks k i r Hr) as (Hk & Hi & Hjob).
    split; [exact Hk|]. split; [exact Hi|].
    apply lookup_alter_is_Some, Hjob.
Qed.

Lemma consistent_empty : consistent empty_store.
Proof.
  split; intros; cbn in *; rewrite lookup_empty in *; discriminate.
Qed.

Lemma create_job_consistent (c c' : conn)
    (job_id source_path source_name source_hash : list N)
    (interviewer_count participant_count : Z) :
  consistent c ->
  create_job now_iso c job_id source_path source_name source_hash
    interviewer_count participant_count = Returns c' ->
  consistent c'.
Proof.
  intros [Hjobs Hchunks]. unfold create_job.
  destruct (jobs c !! job_id) eqn:E; [discriminate|].
  intros Hr. inversion Hr; subst c'. split; cbn [jobs chunks].
  - intros k j. rewrite lookup_insert.
    destruct (decide (job_id = k)) as [<-|Hne]; [|apply Hjobs].
    intros Hj. inversion Hj; subst. reflexivity.
  - intros k i r Hr'. destruct (Hchunks k i r Hr') as (Hk & Hi & Hjob).
    split; [exact Hk|]. split; [exact Hi|].
    apply lookup_insert_is_Some'. right. exact Hjob.
Qed.

Lemma upsert_chunk_consistent (c c' : conn) (job_id : list N) (idx : nat)
    (start_sec end_sec : Q) (chunk_path chunk_hash status : list N)
    (engine : option (list N)) (attempt_count : Z)
    (transcript : option (list Utterance.t)) (confidence : option Q) :
  consistent c ->
  upsert_chunk now_iso c job_id idx start_sec end_sec chunk_path chunk_hash
    status engine attempt_count transcript confidence = Returns c' ->
  consistent c'.
Proof.
  intros [Hjobs Hchunks]. unfold upsert_chunk.
  destruct (jobs c !! job_id) eqn:E; [|discriminate].
  intros Hr. inversion Hr; subst c'. split; cbn [jobs chunks]; [exact Hjobs|].
  intros k i r. rewrite lookup_insert.
  destruct (decide ((job_id, idx) = (k, i))) as [Heq|Hne]; [|apply Hchunks].
  inversion Heq; subst. intros Hr'. inversion Hr'; subst.
  cbn [Chunk.job_id Chunk.idx]. rewrite E. eauto.
Qed.

(** X9: every operation of the store keeps it consistent: rows stay
    under their own keys and every chunk keeps a job. *)
Theorem store_operations_keep_consistency (c : conn) (job_id : list N) :
  consistent c ->
  (forall (source_path source_name source_hash : list N)
      (interviewer_count participant_count : Z) (c' : conn),
      create_job now_iso c job_id source_path source_name source_hash
        interviewer_count participant_count = Returns c' ->
      consistent c')
  /\ (forall (idx : nat) (start_sec end_sec : Q)
        (chunk_path chunk_hash status : list N) (engine : option (list N))
        (attempt_count : Z) (transcript : option (list Utterance.t))
        (confidence : option Q) (c' : conn),
         upsert_chunk now_iso c job_id idx start_sec end_sec chunk_path
           chunk_hash status engine attempt_count transcript confidence
         = Returns c' ->
         consistent c')
  /\ (forall (status : list N) (chunks_done chunks_total : option Z)
        (error_message : option (list N)),
         consistent (update_job_status now_iso c job_id status chunks_done
                       chunks_total error_message))
  /\ (forall (duration_sec : Q) (chunks_total : Z),
         consistent (update_job_metadata now_iso c job_id duration_sec
                       chunks_total))
  /\ (forall (transcript : list Utterance.t) (status : list N),
         consistent (set_final_transcript now_iso c job_id transcript status))
  /\ consistent (fst (toggle_swap_roles now_iso c job_id)).
Proof.
  intros Hc. split; [|split; [|split; [|split; [|split]]]].
  - intros. eapply create_job_consistent; eassumption.
  - intros. eapply upsert_chunk_consistent; eassumption.
  - intros. apply consistent_alter; [reflexivity|exact Hc].
  - intros. apply consistent_alter; [reflexivity|exact Hc].
  - intros. apply consistent_alter; [reflexivity|exact Hc].
  - apply consistent_alter; [reflexivity|exact Hc].
Qed.

End StoreConsistency.

Lemma resumed_store_consistent : Rows.consistent Rows.resumed_store.
Proof.
  split; cbn [Rows.resumed_store Storage.jobs Storage.chunks].
  - intros k j Hk. apply lookup_insert_Some in Hk as [[<- <-]|[_ Hk]].
    + reflexivity.
    + rewrite lookup_empty in Hk. discriminate.
  - intros k i r Hr. apply lookup_insert_Some in Hr as [[E <-]|[_ Hr]].
    + inversion E; subst k i. split; [reflexivity|]. split; [reflexivity|].
      exists Spec.queued_job. apply lookup_insert_eq.
    + rewrite lookup_empty in Hr. discriminate.
Qed.

Lemma store_operations_keep_consistency_witness :
  Rows.consistent Rows.resumed_store
  /\ forall (status : list N) (chunks_done chunks_total : option Z)
       (error_message : option (list N)),
       Rows.consistent
         (Storage.update_job_status (Str.lit "t1") Rows.resumed_store
            (Str.lit "j") status chunks_done chunks_total error_message).
Proof.
  split; [apply resumed_store_consistent|].
  apply (store_operations_keep_consistency (Str.lit "t1") Rows.resumed_store
           (Str.lit "j")).
  apply resumed_store_consistent.
Defined.

(* ===================================================================== *)
(** * The job store: the chunks of a job *)
(* ===================================================================== *)

Section ChunkRows.
Import Py Str Storage Rows.
Variable now_iso : list N.

Lemma eqb_true (a b : list N) : eqb a b = true <-> a = b.
Proof. unfold eqb. apply bool_decide_eq_true. Qed.

(** The rows [list_chunks] returns are the rows stored under the job. *)
Lemma list_chunks_In (c : conn) (job_id : list N) (r : Chunk.t) :
  consistent c ->
  In r (list_chunks c job_id)
  <-> chunks c !! (job_id, Chunk.idx r) = Some r.
Proof.
  intros [_ Hchunks]. unfold list_chunks.
  rewrite (sorted_In Nat.ltb Chunk.idx), filter_In, in_map_iff. split.
  - intros [([[k i] r'] & Hsnd & Hin) Hjob]. cbn [snd] in Hsnd. subst r'.
    apply list_elem_of_In, elem_of_map_to_list in Hin.
    destruct (Hchunks k i r Hin) as (Hk & Hi & _).
    apply eqb_true in Hjob. congruence.
  - intros Hr. destruct (Hchunks _ _ _ Hr) as (Hk & _ & _). split.
    + exists ((job_id, Chunk.idx r), r). split; [reflexivity|].
      apply list_elem_of_In, elem_of_map_to_list, Hr.
    + apply eqb_true, Hk.
Qed.

Lemma map_to_list_rows_NoDup (c : conn) :
  consistent c -> NoDup (List.map snd (map_to_list (chunks c))).
Proof.
  intros [_ Hchunks].
  pose proof (NoDup_map_to_list (chunks c)) as Hnd.
  assert (Hall : forall p, In p (map_to_list (chunks c)) ->
                           fst p = (Chunk.job_id (snd p), Chunk.idx (snd p))).
  { intros [[k i] r] Hin. apply list_elem_of_In, elem_of_map_to_list in Hin.
    destruct (Hchunks k i r Hin) as (Hk & Hi & _). cbn [fst snd].
    rewrite Hk, Hi. reflexivity. }
  induction Hnd as [|p l Hp Hnd IH]; cbn [List.map]; [constructor|].
  constructor.
  - intros Hin. apply list_elem_of_In, in_map_iff in Hin as (q & Hq & Hin).
    apply Hp. assert (q = p); [|subst; apply list_elem_of_In, Hin].
    destruct p as [kp rp], q as [kq rq]. cbn [snd] in Hq. subst rq.
    pose proof (Hall (kp, rp) (or_introl eq_refl)) as E1.
    pose proof (Hall (kq, rp) (or_intror Hin)) as E2.
    cbn [fst snd] in E1, E2. congruence.
  - apply IH. intros q Hq. apply Hall. right. exact Hq.
Qed.

Lemma filter_NoDup {A : Type} (f : A -> bool) (l : list A) :
  NoDup l -> NoDup (List.filter f l).
Proof.
  induction 1 as [|a l Ha Hnd IH]; cbn [List.filter]; [constructor|].
  destruct (f a); [|exact IH]. constructor; [|exact IH].
  intros Hin. apply Ha. apply list_elem_of_In in Hin.
  apply filter_In in Hin as [Hin _]. apply list_elem_of_In, Hin.
Qed.

Lemma list_chunks_NoDup_idx (c : conn) (job_id : list N) :
  consistent c -> NoDup (List.map Chunk.idx (list_chunks c job_id)).
Proof.
  intros Hc.
  assert (Hnd : NoDup (list_chunks c job_id)).
  { unfold list_chunks.
    rewrite (sorted_perm Nat.ltb Chunk.idx).
    apply filter_NoDup, map_to_list_rows_NoDup, Hc. }
  assert (Hinj : forall a b, In a (list_chunks c job_id) ->
                             In b (list_chunks c job_id) ->
                             Chunk.idx a = Chunk.idx b -> a = b).
  { intros a b Ha Hb Hab.
    apply (list_chunks_In c job_id a Hc) in Ha.
    apply (list_chunks_In c job_id b Hc) in Hb.
    rewrite Hab in Ha. congruence. }
  induction Hnd as [|a l Ha Hnd IH]; cbn [List.map]; [constructor|].
  constructor.
  - intros Hin. apply list_elem_of_In, in_map_iff in Hin as (b & Hb & Hin).
    apply Ha. rewrite (Hinj a b); [apply list_elem_of_In, Hin|left; reflexivity
                                   |right; exact Hin|symmetry; exact Hb].
  - apply IH. intros x y Hx Hy. apply Hinj; right; assumption.
Qed.

Lemma ltb_asym (a b : nat) : Nat.ltb a b = true -> Nat.ltb b a = false.
Proof. intros Hab. apply Nat.ltb_lt in Hab. apply Nat.ltb_ge. lia. Qed.

(** X10: in a consistent store [list_chunks] returns exactly the chunk
    rows of the job, by strictly increasing index. *)
Theorem list_chunks_ordered (c : conn) (job_id : list N) :
  consistent c ->
  (forall (i : nat) (a b : Chunk.t),
      list_chunks c job_id !! i = Some a ->
      list_chunks c job_id !! S i = Some b ->
      (Chunk.idx a < Chunk.idx b)%nat)
  /\ (forall r : Chunk.t,
         In r (list_chunks c job_id)
         <-> chunks c !! (job_id, Chunk.idx r) = Some r).
Proof.
  intros Hc. split; [|intros r; apply list_chunks_In, Hc].
  intros i a b Ha Hb.
  pose proof (sorted_adjacent Nat.ltb Chunk.idx ltb_asym _ i a b Ha Hb) as Hle.
  apply Nat.ltb_ge in Hle.
  pose proof (list_chunks_NoDup_idx c job_id Hc) as Hnd.
  assert (Hne : Chunk.idx a <> Chunk.idx b).
  { intros E.
    assert (Hia : List.map Chunk.idx (list_chunks c job_id) !! i
                  = Some (Chunk.idx a)) by (rewrite lookup_map, Ha; reflexivity).
    assert (Hib : List.map Chunk.idx (list_chunks c job_id) !! S i
                  = Some (Chunk.idx a))
      by (rewrite lookup_map, Hb, E; reflexivity).
    pose proof (NoDup_lookup _ _ _ _ Hnd Hia Hib). lia. }
  lia.
Qed.

(** X11: [upsert_chunk] raises exactly when the job has no row;
    otherwise it adds the chunk or replaces the one of that index, and
    leaves the jobs and every other chunk as they were. *)
Theorem upsert_chunk_round_trip (c : conn) (job_id : list N) (idx : nat)
    (start_sec end_sec : Q) (chunk_path chunk_hash status : list N)
    (engine : option (list N)) (attempt_count : Z)
    (transcript : option (list Utterance.t)) (confidence : option Q) :
  consistent c ->
  match upsert_chunk now_iso c job_id idx start_sec end_sec chunk_path
          chunk_hash status engine attempt_count transcript confidence with
  | Returns c' =>
      is_Some (jobs c !! job_id)
      /\ jobs c' = jobs c
      /\ (forall r : Chunk.t,
             In r (list_chunks c' job_id)
             <-> r = Chunk.mk job_id idx start_sec end_sec chunk_path
                       chunk_hash status engine attempt_count transcript
                       confidence now_iso
                 \/ (In r (list_chunks c job_id) /\ Chunk.idx r <> idx))
      /\ (forall (other : list N) (r : Chunk.t),
             other <> job_id ->
             In r (list_chunks c' other) <-> In r (list_chunks c other))
  | Raises _ => jobs c !! job_id = None
  | OutOfFuel => False
  end.
Proof.
  intros Hc. unfold upsert_chunk.
  destruct (jobs c !! job_id) as [j|] eqn:Hjob; [|reflexivity].
  set (new := Chunk.mk job_id idx start_sec end_sec chunk_path chunk_hash
                status engine attempt_count transcript confidence now_iso).
  set (c' := mk_conn (jobs c) (<[(job_id, idx):=new]> (chunks c))).
  assert (Hc' : consistent c').
  { apply (upsert_chunk_consistent now_iso c c' job_id idx start_sec end_sec
             chunk_path chunk_hash status engine attempt_count transcript
             confidence Hc).
    unfold upsert_chunk. rewrite Hjob. reflexivity. }
  split; [eauto|]. split; [reflexivity|]. split.
  - intros r. rewrite (list_chunks_In c' job_id r Hc').
    rewrite (list_chunks_In c job_id r Hc).
    unfold c'. cbn [chunks]. rewrite lookup_insert.
    destruct (decide ((job_id, idx) = (job_id, Chunk.idx r))) as [Heq|Hne].
    + inversion Heq as [Hidx]. split.
      * intros Hr. inversion Hr. left. reflexivity.
      * intros [->|[_ Hn]]; [reflexivity|congruence].
    + split.
      * intros Hr. right. split; [exact Hr|]. intros E. apply Hne. congruence.
      * intros [->|[Hr _]]; [|exact Hr]. exfalso. apply Hne. reflexivity.
  - intros other r Hother.
    rewrite (list_chunks_In c' other r Hc'), (list_chunks_In c other r Hc).
    unfold c'. cbn [chunks]. rewrite lookup_insert_ne; [reflexivity|].
    intros E. inversion E. congruence.
Qed.

End ChunkRows.

Lemma upsert_chunk_round_trip_witness :
  Rows.consistent Rows.resumed_store
  /\ exists c' : Storage.conn,
       Storage.upsert_chunk (Str.lit "t1") Rows.resumed_store (Str.lit "j")
         1 (477 # 2) 300 (Str.lit "/c/chunk_0001.wav") (Str.lit "sha")
         (Str.lit "queued") None 0 None None
       = Py.Returns c'
       /\ Storage.jobs c' = Storage.jobs Rows.resumed_store
       /\ In Rows.finished_chunk (Storage.list_chunks c' (Str.lit "j")).
Proof.
  split; [apply resumed_store_consistent|].
  pose proof (upsert_chunk_round_trip (Str.lit "t1") Rows.resumed_store
                (Str.lit "j") 1 (477 # 2) 300 (Str.lit "/c/chunk_0001.wav")
                (Str.lit "sha") (Str.lit "queued") None 0 None None
                resumed_store_consistent) as Hup.
  destruct (Storage.upsert_chunk (Str.lit "t1") Rows.resumed_store
              (Str.lit "j") 1 (477 # 2) 300 (Str.lit "/c/chunk_0001.wav")
              (Str.lit "sha") (Str.lit "queued") None 0 None None)
    as [c'|message|].
  - exists c'. destruct Hup as (_ & Hjobs & Hrows & _).
    split; [reflexivity|]. split; [exact Hjobs|].
    apply Hrows. right. split.
    + apply (list_chunks_In _ _ _ resumed_store_consistent).
      apply lookup_insert_eq.
    + discriminate.
  - exfalso. vm_compute in Hup. discriminate Hup.
  - destruct Hup.
Defined.

Lemma list_chunks_ordered_witness :
  Rows.consistent Rows.resumed_store
  /\ forall r : Chunk.t,
       In r (Storage.list_chunks Rows.resumed_store (Str.lit "j"))
       <-> Storage.chunks Rows.resumed_store !! (Str.lit "j", Chunk.idx r)
           = Some r.
Proof.
  split; [apply resumed_store_consistent|].
  apply (list_chunks_ordered Rows.resumed_store (Str.lit "j")).
  apply resumed_store_consistent.
Defined.

(* ===================================================================== *)
(** * The job store: listings *)
(* ===================================================================== *)

Section Listings.
Import Py Str Storage Queries.
Variable datetime : list N -> option (list N).

Lemma text_lt_asym (a b : list N) : text_lt a b = true -> text_lt b a = false.
Proof.
  revert b. induction a as [|x a IH]; intros [|y b]; cbn; try congruence.
  intros Hab. apply orb_true_iff in Hab as [Hlt|Heq].
  - apply N.ltb_lt in Hlt. apply orb_false_iff. split.
    + apply N.ltb_ge. lia.
    + apply andb_false_iff. left. apply N.eqb_neq. lia.
  - apply andb_true_iff in Heq as [Heq Hab]. apply N.eqb_eq in Heq. subst y.
    apply orb_false_iff. split; [apply N.ltb_irrefl|].
    apply andb_false_iff. right. apply IH, Hab.
Qed.

Lemma text_lt_cotrans (a b c : list N) :
  text_lt a c = true -> text_lt a b = true \/ text_lt b c = true.
Proof.
  revert b c. induction a as [|x a IH]; intros [|z b] [|y c]; cbn;
    try congruence; auto.
  intros Hac.
  destruct (x <? z)%N eqn:Exz; [left; reflexivity|].
  destruct (z <? y)%N eqn:Ezy; [right; reflexivity|].
  apply N.ltb_ge in Exz, Ezy.
  apply orb_true_iff in Hac as [Hlt|Heq].
  - apply N.ltb_lt in Hlt. lia.
  - apply andb_true_iff in Heq as [Heq Hac]. apply N.eqb_eq in Heq. subst y.
    assert (z = x) by lia. subst z. rewrite N.eqb_refl. cbn.
    apply IH, Hac.
Qed.

Lemma sql_lt_asym (a b : option (list N)) : sql_lt a b = true -> sql_lt b a = false.
Proof.
  destruct a as [a|], b as [b|]; cbn; try congruence. apply text_lt_asym.
Qed.

Lemma sql_lt_cotrans (a b c : option (list N)) :
  sql_lt a c = true -> sql_lt a b = true \/ sql_lt b c = true.
Proof.
  destruct a as [a|], b as [b|], c as [c|]; cbn; try congruence; auto.
  apply text_lt_cotrans.
Qed.

Lemma sql_lt_irrefl (a : option (list N)) : sql_lt a a = false.
Proof.
  destruct (sql_lt a a) eqn:E; [|reflexivity].
  pose proof (sql_lt_asym a a E). congruence.
Qed.

(** No row of a listing is newer than a row that stands before it. *)
Lemma newest_first_sorted (rows : list Job.t) :
  Sorted.StronglySorted
    (fun a b => sql_lt (datetime (Job.updated_at a))
                  (datetime (Job.updated_at b)) = false)
    (newest_first datetime rows).
Proof.
  apply Sorted.Sorted_StronglySorted.
  - intros a b c Hab Hbc.
    destruct (sql_lt (datetime (Job.updated_at a)) (datetime (Job.updated_at c)))
      eqn:E; [|reflexivity].
    destruct (sql_lt_cotrans _ (datetime (Job.updated_at b)) _ E); congruence.
  - unfold newest_first.
    apply (sorted_Sorted (fun a b => sql_lt b a)
             (fun j => datetime (Job.updated_at j))).
    intros a b. apply sql_lt_asym.
Qed.

Lemma all_jobs_In (c : conn) (j : Job.t) :
  In j (all_jobs c) <-> exists k : list N, jobs c !! k = Some j.
Proof.
  unfold all_jobs. rewrite in_map_iff. split.
  - intros ([k j'] & Hsnd & Hin). cbn [snd] in Hsnd. subst j'.
    exists k. apply elem_of_map_to_list, list_elem_of_In, Hin.
  - intros (k & Hk). exists (k, j). split; [reflexivity|].
    apply list_elem_of_In, elem_of_map_to_list, Hk.
Qed.

(** X12: [latest_incomplete_job] returns a stored job with an
    incomplete status than which no incomplete job is newer, and nothing
    exactly when no job is incomplete. *)
Theorem latest_incomplete_job_newest (c : conn) :
  match latest_incomplete_job datetime c with
  | Some j =>
      (exists k : list N, jobs c !! k = Some j)
      /\ In (Job.status j) INCOMPLETE
      /\ Job.status j <> lit "ready" /\ Job.status j <> lit "failed"
      /\ (forall (k : list N) (j' : Job.t),
             jobs c !! k = Some j' -> In (Job.status j') INCOMPLETE ->
             sql_lt (datetime (Job.updated_at j))
               (datetime (Job.updated_at j')) = false)
  | None =>
      forall (k : list N) (j : Job.t),
        jobs c !! k = Some j -> ~ In (Job.status j) INCOMPLETE
  end.
Proof.
  unfold latest_incomplete_job.
  set (candidates := List.filter _ (all_jobs c)).
  assert (Hcand : forall j, In j candidates
                            <-> (exists k, jobs c !! k = Some j)
                                /\ In (Job.status j) INCOMPLETE).
  { intros j. unfold candidates. rewrite filter_In, all_jobs_In.
    unfold Merge.member. rewrite bool_decide_eq_true, list_elem_of_In.
    reflexivity. }
  pose proof (newest_first_sorted candidates) as Hsorted.
  assert (Hin : forall j, In j (newest_first datetime candidates)
                          <-> In j candidates).
  { intros j. apply sorted_In. }
  destruct (newest_first datetime candidates) as [|j rest] eqn:E; cbn [head].
  - intros k j Hk Hst. apply (Hin j), Hcand. eauto.
  - destruct (proj1 (Hcand j)) as [Hjob Hst]; [apply Hin; left; reflexivity|].
    split; [exact Hjob|]. split; [exact Hst|].
    split; [intros E'; rewrite E' in Hst; vm_compute in Hst; clear -Hst;
            repeat (destruct Hst as [Hst|Hst]; [discriminate|]); exact Hst|].
    split; [intros E'; rewrite E' in Hst; vm_compute in Hst; clear -Hst;
            repeat (destruct Hst as [Hst|Hst]; [discriminate|]); exact Hst|].
    intros k j' Hk Hst'.
    assert (Hj' : In j' (j :: rest)) by (apply Hin, Hcand; eauto).
    destruct Hj' as [<-|Hj']; [apply sql_lt_irrefl|].
    apply Sorted.StronglySorted_inv in Hsorted as [_ Hall].
    rewrite Forall_forall in Hall. apply Hall, list_elem_of_In, Hj'.
Qed.

(** X13: [list_ready_jobs] returns at most [max(1, min(limit, 500))]
    rows, all of ready jobs of the store, the newest first. *)
Theorem list_ready_jobs_rows (c : conn) (limit : Z) :
  (length (list_ready_jobs datetime c limit) <= 500)%nat
  /\ (Z.of_nat (length (list_ready_jobs datetime c limit)) <= Z.max 1 limit)%Z
  /\ (forall row : ready_row,
         In row (list_ready_jobs datetime c limit) ->
         exists (k : list N) (j : Job.t),
           jobs c !! k = Some j /\ Job.status j = lit "ready"
           /\ row = mk_ready_row (Job.id j) (Job.source_path j)
                      (Job.source_name j) (Job.updated_at j)
                      (Job.duration_sec j) (Job.interviewer_count j)
                      (Job.participant_count j))
  /\ (forall (i : nat) (a b : ready_row),
         list_ready_jobs datetime c limit !! i = Some a ->
         list_ready_jobs datetime c limit !! S i = Some b ->
         sql_lt (datetime (updated_at a)) (datetime (updated_at b)) = false)
  /\ ((limit <= 1)%Z ->
      list_ready_jobs datetime c limit = list_ready_jobs datetime c 1)
  /\ ((500 <= limit)%Z ->
      list_ready_jobs datetime c limit = list_ready_jobs datetime c 500).
Proof.
  unfold list_ready_jobs.
  set (ready := List.filter _ (all_jobs c)).
  set (k := Z.to_nat (Z.max 1 (Z.min limit 500))).
  assert (Hk : (k <= 500)%nat /\ (Z.of_nat k <= Z.max 1 limit)%Z)
    by (unfold k; lia).
  assert (Hlen : (length (take k (newest_first datetime ready)) <= k)%nat).
  { rewrite length_take. lia. }
  rewrite length_map. split; [lia|]. split; [lia|]. split; [|split; [|split]].
  - intros row Hrow. apply in_map_iff in Hrow as (j & <- & Hj).
    apply list_elem_of_In, elem_of_take in Hj as (i & Hi & _).
    assert (Hin : In j ready).
    { apply (sorted_In (fun a b => sql_lt b a)
               (fun j => datetime (Job.updated_at j))).
      apply list_elem_of_In, list_elem_of_lookup. eauto. }
    unfold ready in Hin. apply filter_In in Hin as [Hall Hst].
    apply all_jobs_In in Hall as (key & Hkey). apply eqb_true in Hst.
    exists key, j. auto.
  - intros i a b Ha Hb. rewrite lookup_map in Ha, Hb.
    destruct (take k (newest_first datetime ready) !! i) as [ja|] eqn:Eja;
      [|discriminate].
    destruct (take k (newest_first datetime ready) !! S i) as [jb|] eqn:Ejb;
      [|discriminate].
    inversion Ha; subst a. inversion Hb; subst b. cbn [updated_at].
    apply lookup_take_Some in Eja as [Eja _].
    apply lookup_take_Some in Ejb as [Ejb _].
    apply (sorted_adjacent (fun a b => sql_lt b a)
             (fun j => datetime (Job.updated_at j))
             (fun a b => sql_lt_asym b a) ready i ja jb Eja Ejb).
  - intros Hle. unfold k. do 2 f_equal. lia.
  - intros Hle. unfold k. do 2 f_equal. lia.
Qed.

End Listings.

(* ===================================================================== *)
(** * The editor parser: what it refuses and what it returns *)
(* ===================================================================== *)

Section EditorErrors.
Import Py Str Editing Spec Shapes EditorLines.

Lemma line_error_None (raw_line : list N) :
  line_error raw_line = None ->
  exists speaker body : list N, matches_grammar raw_line speaker body.
Proof.
  unfold line_error, matches_grammar.
  destruct (strip (List.filter _ raw_line)); [discriminate|].
  destruct (SPEAKER_PREFIX_match _) as [[prefix group2]|]; [|discriminate].
  destruct (strip group2) eqn:E; [discriminate|]. intros _.
  exists (upper_prefix prefix), (strip group2), prefix, group2.
  repeat split. rewrite E. discriminate.
Qed.

(** The first loop stops at the first line that is refused and names it by
    its number, counted from one. *)
Lemma collect_utterances_first_error (lines : list (list N)) (index k : nat)
    (raw_line reason : list N) :
  (forall (i : nat) (l : list N),
      (i < k)%nat -> lines !! i = Some l -> line_error l = None) ->
  lines !! k = Some raw_line ->
  line_error raw_line = Some reason ->
  collect_utterances index lines
  = Raises (lit "Linje " ++ of_nat (S (index + k)) ++ reason).
Proof.
  revert index k. induction lines as [|l rest IH]; intros index k Hbefore Hk Herr.
  - discriminate.
  - destruct k as [|k].
    + inversion Hk; subst l. clear Hk Hbefore. rewrite Nat.add_0_r.
      cbn [collect_utterances]. unfold line_error in Herr.
      destruct (strip (List.filter _ raw_line));
        [inversion Herr; reflexivity|].
      destruct (SPEAKER_PREFIX_match _) as [[prefix group2]|];
        [|inversion Herr; reflexivity].
      destruct (strip group2); [inversion Herr; reflexivity|discriminate].
    + cbn in Hk.
      assert (Hl : line_error l = None) by (apply (Hbefore 0%nat); [lia|reflexivity]).
      cbn [collect_utterances]. unfold line_error in Hl.
      destruct (strip (List.filter _ l)); [discriminate|].
      destruct (SPEAKER_PREFIX_match _) as [[prefix group2]|]; [|discriminate].
      destruct (strip group2); [discriminate|].
      rewrite (IH (S index) k).
      * cbn [bind]. replace (S index + k)%nat with (index + S k)%nat by lia.
        reflexivity.
      * intros i l' Hi Hl'. apply (Hbefore (S i) l'); [lia|exact Hl'].
      * exact Hk.
      * exact Herr.
Qed.

(** X14: [parse_editor_text] raises for the first line it refuses: the
    message is the number of that line and what is wrong with it. *)
Theorem parse_editor_text_first_error (text : list N)
    (fallback_transcript : list Utterance.t) (k : nat)
    (raw_line reason : list N) :
  (forall (i : nat) (l : list N),
      (i < k)%nat -> splitlines text !! i = Some l -> line_error l = None) ->
  splitlines text !! k = Some raw_line ->
  line_error raw_line = Some reason ->
  parse_editor_text text fallback_transcript
  = Raises (lit "Linje " ++ of_nat (S k) ++ reason).
Proof.
  intros Hbefore Hk Herr. unfold parse_editor_text.
  rewrite (collect_utterances_first_error _ 0 k raw_line reason Hbefore Hk Herr).
  reflexivity.
Qed.

Lemma collect_utterances_returns (lines : list (list N)) (index : nat)
    (utterances : list (list N * list N)) :
  collect_utterances index lines = Returns utterances ->
  length utterances = length lines
  /\ Forall (fun p => (fst p = lit "I" \/ fst p = lit "D") /\ spoken (snd p))
       utterances.
Proof.
  revert index utterances.
  induction lines as [|l rest IH]; intros index utterances; cbn [collect_utterances].
  - intros Hr. inversion Hr. split; [reflexivity|constructor].
  - destruct (strip (List.filter _ l)); [discriminate|].
    destruct (SPEAKER_PREFIX_match _) as [[prefix group2]|]; [|discriminate].
    destruct (strip group2) as [|b body] eqn:Eb; [discriminate|].
    destruct (collect_utterances (S index) rest) as [us| |] eqn:Er;
      cbn [bind]; try discriminate.
    intros Hr. inversion Hr; subst utterances.
    destruct (IH _ _ Er) as [Hlen Hall]. split; [cbn; lia|].
    constructor; [|exact Hall]. cbn [fst snd]. split.
    + unfold upper_prefix. destruct (_ || _); [left|right]; reflexivity.
    + rewrite <- Eb. apply strip_spoken. rewrite Eb. discriminate.
Qed.

Lemma convert_utterances_keeps (idx : nat) (confidences : list (option Q))
    (utterances : list (list N * list N)) :
  Forall2 (fun (p : list N * list N) (u : Utterance.t) =>
             Utterance.speaker u = fst p /\ Utterance.text u = snd p)
    utterances (convert_utterances idx confidences utterances).
Proof.
  revert idx. induction utterances as [|[speaker body] rest IH]; intros idx;
    cbn [convert_utterances]; constructor; [split; reflexivity|apply IH].
Qed.

(** X15: a transcript that [parse_editor_text] returns is not empty and
    has one utterance for every line, each labelled [I] or [D] with a text
    that is not blank; no line of the input is refused. *)
Theorem parse_editor_text_returns (text : list N)
    (fallback_transcript out : list Utterance.t) :
  parse_editor_text text fallback_transcript = Returns out ->
  out <> []
  /\ length out = length (splitlines text)
  /\ Forall (fun u => labelled u /\ spoken (Utterance.text u)) out
  /\ (forall (k : nat) (l : list N),
         splitlines text !! k = Some l -> line_error l = None).
Proof.
  unfold parse_editor_text.
  destruct (collect_utterances 0 (splitlines text)) as [us| |] eqn:Ec;
    cbn [bind]; try discriminate.
  destruct (collect_utterances_returns _ _ _ Ec) as [Hlen Hall].
  destruct us as [|u0 us'] eqn:Eus; [discriminate|]. rewrite <- Eus in *.
  intros Hr. inversion Hr; subst out. clear Hr.
  pose proof (convert_utterances_keeps 0
                (List.map Utterance.confidence fallback_transcript) us) as Hkeep.
  split; [|split; [|split]].
  - intros E. rewrite E in Hkeep. inversion Hkeep; subst. discriminate.
  - rewrite <- Hlen. symmetry. apply (Forall2_length _ _ _ Hkeep).
  - clear Eus Ec Hlen. revert Hall.
    induction Hkeep as [|p u ps us'' [Hs Ht] Hk IH]; intros Hall; [constructor|].
    inversion Hall as [|? ? [Hp Hsp] Hall']; subst.
    constructor; [|apply IH, Hall'].
    unfold labelled. rewrite Hs, Ht. split; assumption.
  - intros k l Hk. destruct (line_error l) as [reason|] eqn:El; [|reflexivity].
    exfalso.
    assert (Hfirst : exists k0 l0 r0,
               (forall i l', (i < k0)%nat -> splitlines text !! i = Some l' ->
                             line_error l' = None)
               /\ splitlines text !! k0 = Some l0 /\ line_error l0 = Some r0).
    { clear -Hk El. revert k Hk.
      induction (splitlines text) as [|x lines IH]; intros k Hk; [discriminate|].
      destruct (line_error x) as [rx|] eqn:Ex.
      - exists 0%nat, x, rx. split; [intros i l' Hi; lia|]. split; [reflexivity|exact Ex].
      - destruct k as [|k]; [inversion Hk; congruence|].
        destruct (IH k Hk) as (k0 & l0 & r0 & Hb & Hk0 & Hr0).
        exists (S k0), l0, r0. split; [|split; assumption].
        intros [|i] l' Hi Hl'; [inversion Hl'; subst; exact Ex|].
        apply (Hb i l'); [lia|exact Hl']. }
    destruct Hfirst as (k0 & l0 & r0 & Hb & Hk0 & Hr0).
    rewrite (collect_utterances_first_error _ 0 k0 l0 r0 Hb Hk0 Hr0) in Ec.
    discriminate.
Qed.

End EditorErrors.

Lemma parse_editor_text_first_error_witness :
  (forall (i : nat) (l : list N),
      (i < 1)%nat ->
      Editing.splitlines EditorLines.second_line_without_prefix !! i = Some l ->
      EditorLines.line_error l = None)
  /\ Editing.parse_editor_text EditorLines.second_line_without_prefix []
     = Py.Raises (Str.lit "Linje " ++ Str.of_nat 2
                  ++ Str.lit " mangler taler-prefix. Hver ikke-tom linje skal starte med 'I:' eller 'D:'.").
Proof.
  assert (Hbefore : forall (i : nat) (l : list N),
             (i < 1)%nat ->
             Editing.splitlines EditorLines.second_line_without_prefix !! i = Some l ->
             EditorLines.line_error l = None).
  { intros [|i] l Hi Hl; [|lia]. vm_compute in Hl. inversion Hl. subst l.
    vm_compute. reflexivity. }
  split; [exact Hbefore|].
  apply (parse_editor_text_first_error _ [] 1 (Str.lit "Dette er ikke ok") _ Hbefore).
  - vm_compute. reflexivity.
  - vm_compute. reflexivity.
Defined.

Lemma parse_editor_text_returns_witness :
  exists out : list Utterance.t,
    Editing.parse_editor_text (Str.lit "I: Hej") [] = Py.Returns out
    /\ out <> []
    /\ length out = length (Editing.splitlines (Str.lit "I: Hej"))
    /\ Forall (fun u => Spec.labelled u /\ Shapes.spoken (Utterance.text u)) out
    /\ (forall (k : nat) (l : list N),
           Editing.splitlines (Str.lit "I: Hej") !! k = Some l ->
           EditorLines.line_error l = None).
Proof.
  destruct (Editing.parse_editor_text (Str.lit "I: Hej") []) as [out| |] eqn:E.
  - exists out. split; [reflexivity|].
    apply (parse_editor_text_returns (Str.lit "I: Hej") [] out E).
  - vm_compute in E. discriminate.
  - vm_compute in E. discriminate.
Defined.

(* ===================================================================== *)
(** * The remote engine: speakers for the text segments *)
(* ===================================================================== *)

Section AssignSpeaker.
Import Py Str OpenAIEngine Replies.
Local Open Scope Q_scope.

(** A loop that keeps the first item of the largest value above [v0]. *)
Lemma fold_left_best {A B : Type} (f : A -> Q) (g : A -> B) (l : list A)
    (v0 : Q) (s0 : B) :
  let r := fold_left
             (fun best c => if Qltb (fst best) (f c) then (f c, g c) else best)
             l (v0, s0) in
  (r = (v0, s0) /\ forall c, In c l -> f c <= v0)
  \/ (exists c, In c l /\ r = (f c, g c) /\ v0 < f c
                /\ forall c', In c' l -> f c' <= f c).
Proof.
  cbn zeta. revert v0 s0. induction l as [|a l IH]; intros v0 s0; cbn [fold_left].
  - left. split; [reflexivity|]. intros c [].
  - cbn [fst]. destruct (Qltb v0 (f a)) eqn:E.
    + apply Qltb_lt in E. right.
      destruct (IH (f a) (g a)) as [[Hr Hall]|(c & Hc & Hr & Hlt & Hall)].
      * exists a. split; [left; reflexivity|]. split; [exact Hr|].
        split; [exact E|]. intros c' [<-|Hc']; [lra|apply Hall, Hc'].
      * exists c. split; [right; exact Hc|]. split; [exact Hr|].
        split; [lra|]. intros c' [<-|Hc']; [lra|apply Hall, Hc'].
    + apply Qltb_ge in E.
      destruct (IH v0 s0) as [[Hr Hall]|(c & Hc & Hr & Hlt & Hall)].
      * left. split; [exact Hr|]. intros c [<-|Hc]; [exact E|apply Hall, Hc].
      * right. exists c. split; [right; exact Hc|]. split; [exact Hr|].
        split; [exact Hlt|]. intros c' [<-|Hc']; [lra|apply Hall, Hc'].
Qed.

(** A loop that keeps the first item of the smallest value. *)
Lemma fold_left_nearest {A : Type} (d : A -> Q) (l : list A) (first : A) :
  let r := fold_left (fun best c => if Qltb (d c) (d best) then c else best)
             l first in
  In r (first :: l) /\ forall c, In c (first :: l) -> d r <= d c.
Proof.
  cbn zeta. revert first. induction l as [|a l IH]; intros first; cbn [fold_left].
  - split; [left; reflexivity|]. intros c [<-|[]]. lra.
  - destruct (Qltb (d a) (d first)) eqn:E.
    + apply Qltb_lt in E. destruct (IH a) as [Hin Hall]. split.
      * destruct Hin as [<-|Hin]; [right; left; reflexivity|right; right; exact Hin].
      * intros c [<-|[<-|Hc]].
        -- pose proof (Hall a (or_introl eq_refl)). lra.
        -- apply Hall. left. reflexivity.
        -- apply Hall. right. exact Hc.
    + apply Qltb_ge in E. destruct (IH first) as [Hin Hall]. split.
      * destruct Hin as [<-|Hin]; [left; reflexivity|right; right; exact Hin].
      * intros c [<-|[<-|Hc]].
        -- apply Hall. left. reflexivity.
        -- pose proof (Hall first (or_introl eq_refl)). lra.
        -- apply Hall. right. exact Hc.
Qed.

Lemma _overlap_nonneg (a_start a_end b_start b_end : Q) :
  0 <= _overlap a_start a_end b_start b_end.
Proof. unfold _overlap. apply Q.le_max_l. Qed.

(** The diarized segment whose speaker [_assign_speaker] returns. *)
Lemma _assign_speaker_picks (segment : Segment.t) (diarized : list Segment.t) :
  diarized <> [] ->
  exists c : Segment.t,
    In c diarized
    /\ _assign_speaker segment diarized = Segment.speaker c
    /\ (forall c' : Segment.t,
           In c' diarized -> overlap_with segment c' <= overlap_with segment c)
    /\ (overlap_with segment c <= 0 ->
        forall c' : Segment.t,
          In c' diarized -> distance_to segment c <= distance_to segment c').
Proof.
  intros Hne. destruct diarized as [|first others]; [contradiction|]. clear Hne.
  unfold _assign_speaker.
  pose proof (fold_left_best (overlap_with segment) Segment.speaker
                (first :: others) (- (1)) (Segment.speaker first)) as Hbest.
  cbn zeta in Hbest. unfold overlap_with in Hbest at 1 2.
  destruct (fold_left _ (first :: others) (- (1), Segment.speaker first))
    as [best_overlap best_speaker].
  destruct Hbest as [[_ Hall]|(c & Hc & Hr & _ & Hall)].
  { exfalso. pose proof (Hall first (or_introl eq_refl)) as Hf.
    pose proof (_overlap_nonneg (Segment.start_sec segment)
                  (Segment.end_sec segment) (Segment.start_sec first)
                  (Segment.end_sec first)) as Hpos.
    unfold overlap_with in Hf. lra. }
  inversion Hr; subst best_overlap best_speaker. clear Hr.
  fold (overlap_with segment c).
  destruct (Qltb 0 (overlap_with segment c)) eqn:E.
  - apply Qltb_lt in E. exists c. split; [exact Hc|]. split; [reflexivity|].
    split; [exact Hall|]. intros Hle. lra.
  - apply Qltb_ge in E.
    pose proof (fold_left_nearest (distance_to segment) others first)
      as [Hin Hnear].
    cbn zeta in Hin, Hnear. unfold distance_to in Hin at 1 2.
    unfold distance_to in Hnear at 1 2.
    match goal with
    | |- context [Segment.speaker (fold_left ?f others first)] =>
        set (nearest := fold_left f others first) in *
    end.
    exists nearest. split; [exact Hin|]. split; [reflexivity|]. split.
    + intros c' Hc'. pose proof (Hall c' Hc').
      pose proof (_overlap_nonneg (Segment.start_sec segment)
                    (Segment.end_sec segment) (Segment.start_sec nearest)
                    (Segment.end_sec nearest)).
      unfold overlap_with in *. lra.
    + intros _ c' Hc'. apply Hnear, Hc'.
Qed.


(** X17: [_merge_text_with_speakers] keeps the text segments, their
    times, texts and confidences, and takes every speaker from the
    diarized segments, or [speaker_0] when there is none. *)
Theorem _merge_text_with_speakers_keeps
    (whisper_segments diarized_segments : list Segment.t) :
  whisper_segments <> [] ->
  Forall2
    (fun (w m : Segment.t) =>
       Segment.start_sec m = Segment.start_sec w
       /\ Segment.end_sec m = Segment.end_sec w
       /\ Segment.text m = Segment.text w
       /\ Segment.confidence m = Segment.confidence w
       /\ match diarized_segments with
          | [] => Segment.speaker m = lit "speaker_0"
          | _ => exists c : Segment.t,
                   In c diarized_segments
                   /\ Segment.speaker m = Segment.speaker c
          end)
    whisper_segments
    (_merge_text_with_speakers whisper_segments diarized_segments).
Proof.
  intros Hne. unfold _merge_text_with_speakers.
  destruct whisper_segments as [|w0 ws] eqn:E; [contradiction|].
  rewrite <- E. clear E Hne w0 ws.
  induction whisper_segments as [|w ws IH]; cbn [List.map]; constructor;
    [|exact IH].
  cbn [Segment.start_sec Segment.end_sec Segment.text Segment.confidence
         Segment.speaker].
  repeat split.
  destruct diarized_segments as [|d ds] eqn:Ed; [reflexivity|].
  rewrite <- Ed.
  destruct (_assign_speaker_picks w diarized_segments) as (c & Hc & Hs & _).
  { rewrite Ed. discriminate. }
  exists c. split; assumption.
Qed.

End AssignSpeaker.

(* ===================================================================== *)
(** * The remote engine: confidence, formats and attempts *)
(* ===================================================================== *)

Section Formats.
Import Py Str OpenAIEngine Replies.
Context `{Unicode}.

Lemma create_reply (cl : client) (response_format : list N) :
  create cl response_format
  = (reply (head (actions cl)),
     mk_client (drop 1 (actions cl)) (calls cl ++ [response_format])).
Proof.
  unfold create. destruct (actions cl) as [|[message|segments] rest]; reflexivity.
Qed.

(** What [_request_diarized_payload] asks of the client. *)
Lemma _request_diarized_payload_run (cl : client) :
  _request_diarized_payload cl
  = match reply (head (actions cl)) with
    | Raises message =>
        if _is_response_format_error message then
          (reply (actions cl !! 1%nat),
           mk_client (drop 2 (actions cl))
             (calls cl ++ [lit "diarized_json"; lit "json"]))
        else
          (Raises message,
           mk_client (drop 1 (actions cl)) (calls cl ++ [lit "diarized_json"]))
    | other =>
        (other,
         mk_client (drop 1 (actions cl)) (calls cl ++ [lit "diarized_json"]))
    end.
Proof.
  unfold _request_diarized_payload. cbn [request_formats].
  rewrite create_reply.
  destruct (reply (head (actions cl))) as [payload|message|] eqn:E1;
    try reflexivity.
  destruct (_is_response_format_error message); [|reflexivity].
  rewrite create_reply. cbn [actions calls].
  assert (Hhead : head (drop 1 (actions cl)) = actions cl !! 1%nat).
  { destruct (actions cl) as [|a [|b rest]]; reflexivity. }
  assert (Hdrop : drop 1 (drop 1 (actions cl)) = drop 2 (actions cl)).
  { destruct (actions cl) as [|a [|b rest]]; reflexivity. }
  rewrite Hhead, Hdrop, <- app_assoc. cbn [app].
  destruct (reply (actions cl !! 1%nat)) as [payload|message2|]; try reflexivity.
  destruct (_is_response_format_error message2); reflexivity.
Qed.

(** X19: [_request_diarized_payload] asks for [diarized_json] and asks
    once more, for [json], only after an error about the response format;
    it returns what its last request gives. *)
Theorem _request_diarized_payload_formats (cl : client) :
  let first := reply (head (actions cl)) in
  let retried :=
    match first with
    | Raises message => _is_response_format_error message
    | _ => false
    end in
  let run := _request_diarized_payload cl in
  if retried then
    fst run = reply (actions cl !! 1%nat)
    /\ calls (snd run) = calls cl ++ [lit "diarized_json"; lit "json"]
    /\ actions (snd run) = drop 2 (actions cl)
  else
    fst run = first
    /\ calls (snd run) = calls cl ++ [lit "diarized_json"]
    /\ actions (snd run) = drop 1 (actions cl).
Proof.
  cbn zeta. rewrite _request_diarized_payload_run.
  destruct (reply (head (actions cl))) as [payload|message|];
    try (repeat split; reflexivity).
  destruct (_is_response_format_error message); repeat split; reflexivity.
Qed.

Lemma attempt_once_calls (cl : client) :
  exists new_calls : list (list N),
    calls (snd (attempt_once cl)) = calls cl ++ new_calls
    /\ (length new_calls <= 3)%nat.
Proof.
  unfold attempt_once. rewrite _request_diarized_payload_run.
  destruct (reply (head (actions cl))) as [payload|message|].
  - rewrite create_reply. cbn [actions calls].
    destruct (reply _); cbn [snd calls]; rewrite <- app_assoc;
      eexists; (split; [reflexivity|cbn; lia]).
  - destruct (_is_response_format_error message).
    + destruct (reply (actions cl !! 1%nat)) as [payload| |].
      * rewrite create_reply. cbn [actions calls].
        destruct (reply _); cbn [snd calls]; rewrite <- app_assoc;
          eexists; (split; [reflexivity|cbn; lia]).
      * eexists; split; [reflexivity|cbn; lia].
      * eexists; split; [reflexivity|cbn; lia].
    + eexists; split; [reflexivity|cbn; lia].
  - eexists; split; [reflexivity|cbn; lia].
Qed.

Lemma attempts_loop_calls (attempts : list nat) (cl : client) (max_retries : Z)
    (backoff : Q) (last_error : option (list N)) :
  exists new_calls : list (list N),
    calls (snd (attempts_loop cl max_retries attempts backoff last_error))
    = calls cl ++ new_calls
    /\ (length new_calls <= 3 * length attempts)%nat.
Proof.
  revert cl backoff last_error.
  induction attempts as [|attempt rest IH]; intros cl backoff last_error;
    cbn [attempts_loop].
  - exists []. rewrite app_nil_r. split; [reflexivity|cbn; lia].
  - destruct (attempt_once_calls cl) as (c1 & Hc1 & Hl1).
    destruct (attempt_once cl) as [[result|message|] cl'] eqn:E;
      cbn [snd] in Hc1.
    + exists c1. split; [exact Hc1|cbn [length]; lia].
    + destruct (max_retries <=? Z.of_nat attempt)%Z.
      * exists c1. split; [exact Hc1|cbn [length]; lia].
      * destruct (IH cl' (Qmin (backoff * 2) 12) (Some message))
          as (c2 & Hc2 & Hl2).
        exists (c1 ++ c2). split.
        -- rewrite Hc2, Hc1, app_assoc. reflexivity.
        -- rewrite length_app. cbn [length]. lia.
    + exists c1. split; [exact Hc1|cbn [length]; lia].
Qed.

(** X20: [transcribe_chunk_openai] makes at most [3 * max_retries]
    requests, and none at all without an API key or with no retry
    allowed. *)
Theorem transcribe_chunk_openai_requests (api_key : list N) (cl : client)
    (max_retries : Z) :
  let run := transcribe_chunk_openai api_key cl max_retries in
  (exists new_calls : list (list N),
      calls (snd run) = calls cl ++ new_calls
      /\ (length new_calls <= 3 * Z.to_nat max_retries)%nat)
  /\ (strip api_key = [] ->
      run = (Raises (lit "OPENAI_API_KEY mangler"), cl))
  /\ (strip api_key <> [] -> (max_retries <= 0)%Z ->
      run = (Raises (retries_exhausted max_retries None), cl)).
Proof.
  cbn zeta. unfold transcribe_chunk_openai. split; [|split].
  - destruct (strip api_key).
    + exists []. rewrite app_nil_r. split; [reflexivity|cbn; lia].
    + destruct (attempts_loop_calls (seq 1 (Z.to_nat max_retries)) cl
                  max_retries 1 None) as (new_calls & Hc & Hl).
      exists new_calls. split; [exact Hc|]. rewrite length_seq in Hl. exact Hl.
  - intros ->. reflexivity.
  - intros Hkey Hmax. destruct (strip api_key); [contradiction|].
    replace (Z.to_nat max_retries) with 0%nat by lia. reflexivity.
Qed.




End Formats.


Lemma _merge_text_with_speakers_keeps_witness :
  Replies.whisper_reply <> []
  /\ Forall2
       (fun (w m : Segment.t) =>
          Segment.start_sec m = Segment.start_sec w
          /\ Segment.end_sec m = Segment.end_sec w
          /\ Segment.text m = Segment.text w
          /\ Segment.confidence m = Segment.confidence w
          /\ exists c : Segment.t,
               In c Replies.diarized_reply
               /\ Segment.speaker m = Segment.speaker c)
       Replies.whisper_reply
       (OpenAIEngine._merge_text_with_speakers Replies.whisper_reply
          Replies.diarized_reply).
Proof.
  split; [discriminate|].
  apply (_merge_text_with_speakers_keeps Replies.whisper_reply
           Replies.diarized_reply).
  discriminate.
Defined.


(* ===================================================================== *)
(** * The local engine: its quality gate *)
(* ===================================================================== *)

Section QualityGate.
Import Py Str FallbackEngine Shapes.
Local Open Scope Q_scope.

Variable hf_token : list N.
Variable whisperx : list N -> list raw_segment + list N.
Variable format_2f : Q -> list N.

Lemma read_segment_shape (raw : raw_segment) (seg : Segment.t) :
  read_segment raw = Some seg ->
  spoken (Segment.text seg) /\ Segment.speaker seg <> []
  /\ 0 <= Segment.start_sec seg.
Proof.
  unfold read_segment. destruct (strip (text raw)) as [|c t] eqn:E; [discriminate|].
  intros Hs. inversion Hs; subst seg. clear Hs.
  cbn [Segment.text Segment.speaker Segment.start_sec]. split; [|split].
  - rewrite <- E. apply strip_spoken. rewrite E. discriminate.
  - destruct (speaker raw) as [[|c' s]|]; [vm_compute|..]; discriminate.
  - apply Q.le_max_l.
Qed.

Lemma filter_length_le {A : Type} (f : A -> bool) (l : list A) :
  (length (List.filter f l) <= length l)%nat.
Proof.
  induction l as [|a l IH]; cbn; [lia|]. destruct (f a); cbn; lia.
Qed.

Lemma coverage_of_le_1 (segments : list Segment.t) :
  segments <> [] -> coverage_of segments <= 1.
Proof.
  intros Hne. unfold coverage_of.
  assert (Hpos : 0 < inject_Z (Z.of_nat (length segments))).
  { change 0 with (inject_Z 0). rewrite <- Zlt_Qlt.
    destruct segments; [contradiction|cbn [length]; lia]. }
  apply Qle_shift_div_r; [exact Hpos|]. rewrite Qmult_1_l, <- Zle_Qle.
  pose proof (filter_length_le has_speaker segments). lia.
Qed.

(** Two speakers counted means two segments with different speakers. *)
Lemma speaker_count_of_two (segments : list Segment.t) :
  (2 <= speaker_count_of segments)%nat ->
  exists a b : Segment.t,
    In a segments /\ In b segments
    /\ has_speaker a = true /\ has_speaker b = true
    /\ Segment.speaker a <> Segment.speaker b.
Proof.
  unfold speaker_count_of.
  set (ids := List.map Segment.speaker (List.filter has_speaker segments)).
  intros Hsize.
  assert (Hin : forall x, x ∈ (list_to_set ids : gset (list N)) ->
                          exists s, In s segments /\ has_speaker s = true
                                    /\ Segment.speaker s = x).
  { intros x Hx. apply elem_of_list_to_set, list_elem_of_In in Hx.
    unfold ids in Hx. apply in_map_iff in Hx as (s & Hs & Hf).
    apply filter_In in Hf as [Hf1 Hf2]. eauto. }
  destruct (set_choose_L (list_to_set ids : gset (list N))) as [x Hx].
  { intros E. rewrite E, size_empty in Hsize. lia. }
  destruct (set_choose_L ((list_to_set ids : gset (list N)) ∖ {[x]}))
    as [y Hy].
  { intros E. apply (f_equal size) in E.
    rewrite size_difference in E by (apply singleton_subseteq_l, Hx).
    rewrite size_singleton, size_empty in E. lia. }
  apply elem_of_difference in Hy as [Hy Hne].
  rewrite elem_of_singleton in Hne.
  destruct (Hin x Hx) as (a & Ha & Hfa & Hxa).
  destruct (Hin y Hy) as (b & Hb & Hfb & Hyb).
  exists a, b. repeat split; try assumption. congruence.
Qed.

(** What the local engine returns when it returns segments. *)
Lemma transcribe_chunk_fallback_ok (chunk_path : list N)
    (segments : list Segment.t) (quality : option Q) :
  transcribe_chunk_fallback hf_token whisperx format_2f chunk_path
  = Worker.FallbackOk segments quality ->
  strip hf_token <> []
  /\ segments <> []
  /\ (exists coverage : Q,
         quality = Some coverage /\ 85 # 100 <= coverage <= 1)
  /\ (exists a b : Segment.t,
         In a segments /\ In b segments
         /\ has_speaker a = true /\ has_speaker b = true
         /\ Segment.speaker a <> Segment.speaker b)
  /\ Forall (fun seg => spoken (Segment.text seg) /\ Segment.speaker seg <> []
                        /\ 0 <= Segment.start_sec seg) segments.
Proof.
  unfold transcribe_chunk_fallback.
  destruct (strip hf_token) as [|k ks] eqn:Ek; [discriminate|].
  destruct (whisperx chunk_path) as [raws|message]; [|discriminate].
  destruct (omap read_segment raws) as [|s0 ss] eqn:Es; [discriminate|].
  rewrite <- Es.
  destruct (Qle_bool (85 # 100) (coverage_of (omap read_segment raws))
            && (2 <=? speaker_count_of (omap read_segment raws))%nat) eqn:Eq;
    [|discriminate].
  intros Hr. inversion Hr; subst segments quality. clear Hr.
  apply andb_true_iff in Eq as [Hcov Hcount].
  apply Qle_bool_iff in Hcov. apply Nat.leb_le in Hcount.
  assert (Hne : omap read_segment raws <> []) by (rewrite Es; discriminate).
  split; [discriminate|]. split; [exact Hne|]. split; [|split].
  - eexists. split; [reflexivity|]. split; [exact Hcov|].
    apply coverage_of_le_1, Hne.
  - apply speaker_count_of_two, Hcount.
  - apply Forall_forall. intros seg Hseg.
    apply list_elem_of_omap in Hseg as (raw & _ & Hraw).
    apply (read_segment_shape raw seg Hraw).
Qed.

(** X22: what the local engine returns has passed its quality gate: a
    token is set, there are segments, the coverage is between 0.85 and 1,
    two segments have different known speakers, and every segment has a
    text that is not blank, a speaker and a start that is not negative. *)
Theorem transcribe_chunk_fallback_quality (chunk_path : list N)
    (segments : list Segment.t) (quality : option Q) :
  transcribe_chunk_fallback hf_token whisperx format_2f chunk_path
  = Worker.FallbackOk segments quality ->
  strip hf_token <> []
  /\ segments <> []
  /\ (exists coverage : Q,
         quality = Some coverage /\ 85 # 100 <= coverage <= 1)
  /\ (exists a b : Segment.t,
         In a segments /\ In b segments
         /\ has_speaker a = true /\ has_speaker b = true
         /\ Segment.speaker a <> Segment.speaker b)
  /\ Forall (fun seg => spoken (Segment.text seg) /\ Segment.speaker seg <> []
                        /\ 0 <= Segment.start_sec seg) segments.
Proof. apply transcribe_chunk_fallback_ok. Qed.

(** One speaker is never enough for the local engine. *)
Lemma transcribe_chunk_fallback_one_speaker (chunk_path : list N)
    (raw_segments : list raw_segment) (a : list N) :
  strip hf_token <> [] ->
  whisperx chunk_path = inl raw_segments ->
  (forall (raw : raw_segment) (s : list N),
      In raw raw_segments -> speaker raw = Some s -> s = a) ->
  exists message : list N,
    transcribe_chunk_fallback hf_token whisperx format_2f chunk_path
    = Worker.LowSpeakerConfidenceError message.
Proof.
  intros Hkey Hrun Hsame.
  destruct (transcribe_chunk_fallback hf_token whisperx format_2f chunk_path)
    as [segments quality|message|message] eqn:E.
  - exfalso.
    destruct (transcribe_chunk_fallback_ok _ _ _ E)
      as (_ & _ & _ & (x & y & Hx & Hy & Hfx & Hfy & Hxy) & _).
    unfold transcribe_chunk_fallback in E.
    destruct (strip hf_token); [discriminate|]. rewrite Hrun in E.
    destruct (omap read_segment raw_segments) eqn:Es; [discriminate|].
    rewrite <- Es in E.
    destruct (_ && _); [|discriminate]. inversion E; subst segments.
    assert (Hid : forall seg, In seg (omap read_segment raw_segments) ->
                              has_speaker seg = true -> Segment.speaker seg = a).
    { intros seg Hseg Hf.
      apply list_elem_of_In, list_elem_of_omap in Hseg as (raw & Hraw & Hread).
      apply list_elem_of_In in Hraw.
      unfold read_segment in Hread.
      destruct (strip (text raw)); [discriminate|].
      inversion Hread; subst seg. clear Hread.
      cbn [Segment.speaker] in *.
      destruct (speaker raw) as [[|c s]|] eqn:Esp.
      - vm_compute in Hf. discriminate.
      - apply (Hsame raw (c :: s) Hraw Esp).
      - vm_compute in Hf. discriminate. }
    apply Hxy. rewrite (Hid x Hx Hfx), (Hid y Hy Hfy). reflexivity.
  - eauto.
  - exfalso. unfold transcribe_chunk_fallback in E.
    destruct (strip hf_token); [contradiction|]. rewrite Hrun in E.
    destruct (omap read_segment raw_segments); [discriminate|].
    destruct (_ && _); discriminate.
Qed.

End QualityGate.

Lemma transcribe_chunk_fallback_quality_witness :
  exists (segments : list Segment.t) (quality : option Q),
    FallbackEngine.transcribe_chunk_fallback (Str.lit "hf_token")
      FallbackEngine.two_voices (fun _ => []) (Str.lit "/c/chunk_0000.wav")
    = Worker.FallbackOk segments quality
    /\ segments <> [].
Proof.
  destruct (FallbackEngine.transcribe_chunk_fallback (Str.lit "hf_token")
              FallbackEngine.two_voices (fun _ => [])
              (Str.lit "/c/chunk_0000.wav"))
    as [segments quality|message|message] eqn:E.
  - exists segments, quality. split; [reflexivity|].
    apply (transcribe_chunk_fallback_quality (Str.lit "hf_token")
             FallbackEngine.two_voices (fun _ => [])
             (Str.lit "/c/chunk_0000.wav") segments quality E).
  - vm_compute in E. discriminate E.
  - vm_compute in E. discriminate E.
Defined.

(* ===================================================================== *)
(** * The transcription driver: reasoning about runs *)
(* ===================================================================== *)

Section RunRules.
Import Py Str Worker Runs.

Lemma wp_bind {A B : Type} (m : M A) (k : A -> M B)
    (post : outcome B -> world -> Prop) (w : world) :
  wp m (fun o w1 =>
          match o with
          | Returns a => wp (k a) post w1
          | Raises e => post (Raises e) w1
          | OutOfFuel => post OutOfFuel w1
          end) w ->
  wp (bindM m k) post w.
Proof.
  unfold wp, bindM. destruct (m w) as [[a|e|] w1]; cbn [fst snd]; auto.
Qed.

Lemma wp_ret {A : Type} (a : A) (post : outcome A -> world -> Prop) (w : world) :
  post (Returns a) w -> wp (ret a) post w.
Proof. auto. Qed.

Lemma wp_emit (ev : event) (post : outcome unit -> world -> Prop) (w : world) :
  post (Returns tt) (mk_world (db w) (stdout w ++ [ev]) (files w)) ->
  wp (emit ev) post w.
Proof. auto. Qed.

Lemma wp_with_db (f : Storage.conn -> Storage.conn)
    (post : outcome unit -> world -> Prop) (w : world) :
  post (Returns tt) (mk_world (f (db w)) (stdout w) (files w)) ->
  wp (with_db f) post w.
Proof. auto. Qed.

Lemma wp_read_db {A : Type} (f : Storage.conn -> A)
    (post : outcome A -> world -> Prop) (w : world) :
  post (Returns (f (db w))) w -> wp (read_db f) post w.
Proof. auto. Qed.

Lemma wp_lift {A : Type} (o : outcome A) (post : outcome A -> world -> Prop)
    (w : world) :
  post o w -> wp (lift o) post w.
Proof. auto. Qed.

Lemma wp_write (job_id name : list N) (payload : checkpoint)
    (post : outcome unit -> world -> Prop) (w : world) :
  post (Returns tt)
    (mk_world (db w) (stdout w) (<[(job_id, name) := payload]> (files w))) ->
  wp (atomic_write_json job_id name payload) post w.
Proof. auto. Qed.

Lemma wp_try_db (f : Storage.conn -> outcome Storage.conn)
    (post : outcome unit -> world -> Prop) (w : world) :
  match f (db w) with
  | Returns c => post (Returns tt) (mk_world c (stdout w) (files w))
  | Raises e => post (Raises e) w
  | OutOfFuel => post OutOfFuel w
  end ->
  wp (try_db f) post w.
Proof. unfold wp, try_db. destruct (f (db w)); auto. Qed.

Lemma wp_weaken {A : Type} (m : M A) (post post' : outcome A -> world -> Prop)
    (w : world) :
  wp m post w -> (forall o w', post o w' -> post' o w') -> wp m post' w.
Proof. unfold wp. auto. Qed.

End RunRules.

(* ===================================================================== *)
(** * The transcription driver: how a run ends *)
(* ===================================================================== *)

Section ExitCodes.
Import Py Str Worker Runs.
Context `{Unicode}.

Variable now_iso : list N.
Variable transcribe_chunk_openai : list N -> outcome (list Segment.t * option Q).
Variable transcribe_chunk_fallback : list N -> fallback_result.
Variable sha256_file : list N -> list N.
Variable reported_duration : Q.
Variable chunks_dir : list N -> list N.

Lemma has_job_update_job_status (job_id status : list N)
    (chunks_done chunks_total : option Z) (error_message : option (list N))
    (c : Storage.conn) :
  is_Some (Storage.jobs c !! job_id) ->
  is_Some (Storage.jobs (Storage.update_job_status now_iso c job_id status
                           chunks_done chunks_total error_message) !! job_id).
Proof.
  intros Hjob. unfold Storage.update_job_status. cbn [Storage.jobs].
  apply lookup_alter_is_Some, Hjob.
Qed.

Lemma has_job_update_job_metadata (job_id : list N) (duration_sec : Q)
    (chunks_total : Z) (c : Storage.conn) :
  is_Some (Storage.jobs c !! job_id) ->
  is_Some (Storage.jobs (Storage.update_job_metadata now_iso c job_id
                           duration_sec chunks_total) !! job_id).
Proof.
  intros Hjob. unfold Storage.update_job_metadata. cbn [Storage.jobs].
  apply lookup_alter_is_Some, Hjob.
Qed.

(** Writing a chunk of the job changes neither the jobs nor the output. *)
Lemma wp_upsert_row (job_id : list N) (row : Chunk.t) (status engine : list N)
    (attempts : Z) (transcript : option (list Utterance.t))
    (confidence : option Q) (post : outcome unit -> world -> Prop) (w : world) :
  has_job job_id w ->
  (forall c : Storage.conn,
      Storage.jobs c = Storage.jobs (db w) ->
      post (Returns tt) (mk_world c (stdout w) (files w))) ->
  wp (upsert_row now_iso sha256_file job_id row status engine attempts
        transcript confidence) post w.
Proof.
  intros [j Hj] Hpost. unfold upsert_row. apply wp_try_db.
  unfold Storage.upsert_chunk. rewrite Hj. apply Hpost. reflexivity.
Qed.

Lemma lasting_has_job (d : Q) (job_id : list N) (w : world) :
  lasting d job_id w -> has_job job_id w.
Proof. intros (row & Hrow & _). exists row. exact Hrow. Qed.

Lemma lasting_update_job_status (d : Q) (job_id status : list N)
    (chunks_done chunks_total : option Z) (error_message : option (list N))
    (w : world) (out : list event) (fs : gmap (list N * list N) checkpoint) :
  lasting d job_id w ->
  lasting d job_id
    (mk_world (Storage.update_job_status now_iso (db w) job_id status
                 chunks_done chunks_total error_message) out fs).
Proof.
  intros (row & Hrow & Hd). unfold lasting. cbn [db].
  unfold Storage.update_job_status. cbn [Storage.jobs].
  rewrite lookup_alter_eq, Hrow. cbn [fmap option_fmap option_map].
  eexists. split; [reflexivity|]. exact Hd.
Qed.

Lemma lasting_same_jobs (d : Q) (job_id : list N) (w w' : world) :
  Storage.jobs (db w') = Storage.jobs (db w) ->
  lasting d job_id w -> lasting d job_id w'.
Proof. unfold lasting. intros ->. auto. Qed.

Lemma finish_chunk_lasting (d : Q) (job_id : list N) (total_chunks : Z)
    (row : Chunk.t) (attempts done_chunks : Z) (engine : list N)
    (segments : list Segment.t) (avg_conf : option Q) (w : world) :
  lasting d job_id w ->
  wp (finish_chunk now_iso sha256_file job_id total_chunks row attempts
        done_chunks engine segments avg_conf)
    (returning (fun r w' => lasting d job_id w' /\ r = inl (done_chunks + 1)%Z)) w.
Proof.
  intros Hjob. unfold finish_chunk.
  apply wp_bind, wp_upsert_row; [apply (lasting_has_job d), Hjob|]. intros c Hc.
  apply wp_bind, wp_write. apply wp_bind, wp_with_db. apply wp_bind, wp_emit.
  apply wp_ret. cbn [returning]. split; [|reflexivity].
  eapply lasting_same_jobs; [reflexivity|].
  apply lasting_update_job_status.
  eapply lasting_same_jobs; [|exact Hjob]. exact Hc.
Qed.

Lemma last_app_one {A : Type} (l : list A) (x : A) : last (l ++ [x]) = Some x.
Proof. apply last_snoc. Qed.

Lemma process_chunk_ends (d : Q) (job_id : list N) (total_chunks : Z)
    (row : Chunk.t) (done_chunks : Z) (w : world) :
  lasting d job_id w ->
  wp (process_chunk now_iso transcribe_chunk_openai transcribe_chunk_fallback
        sha256_file job_id total_chunks row done_chunks)
    (returning (fun r w' =>
       lasting d job_id w'
       /\ match r with
          | inl n => n = (done_chunks + 1)%Z
          | inr code => ended_as code job_id w' /\ (code = 1 \/ code = 2)%Z
          end)) w.
Proof.
  intros Hjob. unfold process_chunk.
  apply wp_bind, wp_upsert_row; [apply (lasting_has_job d), Hjob|]. intros c Hc.
  assert (Hjob1 : lasting d job_id (mk_world c (stdout w) (files w))).
  { eapply lasting_same_jobs; [|exact Hjob]. exact Hc. }
  destruct (transcribe_chunk_openai (Chunk.chunk_path row))
    as [[segments avg_conf]|openai_exc|].
  - eapply wp_weaken; [apply finish_chunk_lasting, Hjob1|].
    intros [r| |] w'; cbn [returning]; try (intros _; exact I).
    intros [Hj ->]. split; [exact Hj|reflexivity].
  - apply wp_bind, wp_emit.
    set (w1 := mk_world _ _ _).
    assert (Hjob2 : lasting d job_id w1) by exact Hjob1.
    destruct (transcribe_chunk_fallback (Chunk.chunk_path row))
      as [segments coverage|conf_exc|fallback_exc].
    + eapply wp_weaken; [apply finish_chunk_lasting, Hjob2|].
      intros [r| |] w'; cbn [returning]; try (intros _; exact I).
      intros [Hj ->]. split; [exact Hj|reflexivity].
    + apply wp_bind, wp_upsert_row; [apply (lasting_has_job d), Hjob2|].
      intros c2 Hc2.
      apply wp_bind, wp_with_db. apply wp_bind, wp_emit. apply wp_ret.
      cbn [returning].
      assert (Hjob3 : lasting d job_id (mk_world c2 (stdout w1) (files w1))).
      { eapply lasting_same_jobs; [|exact Hjob2]. exact Hc2. }
      split.
      { eapply lasting_same_jobs; [reflexivity|].
        apply lasting_update_job_status, Hjob3. }
      split; [|right; reflexivity].
      destruct Hjob3 as (j & Hj & _). cbn [db] in Hj.
      unfold ended_as. cbn [db stdout].
      unfold Storage.update_job_status. cbn [Storage.jobs].
      rewrite lookup_alter_eq, Hj. cbn [fmap option_fmap option_map].
      eexists. split; [reflexivity|]. cbn [Job.status Job.error_message].
      split; [reflexivity|]. split; [eauto|]. eexists. apply last_app_one.
    + apply wp_bind, wp_with_db. apply wp_bind, wp_emit. apply wp_ret.
      cbn [returning]. split.
      { eapply lasting_same_jobs; [reflexivity|].
        apply lasting_update_job_status, Hjob2. }
      split; [|left; reflexivity].
      destruct Hjob2 as (j & Hj & _).
      unfold ended_as. cbn [db stdout].
      unfold Storage.update_job_status. cbn [Storage.jobs].
      rewrite lookup_alter_eq, Hj. cbn [fmap option_fmap option_map].
      eexists. split; [reflexivity|]. cbn [Job.status Job.error_message].
      split; [reflexivity|]. split; [eauto|]. do 2 eexists. apply last_app_one.
  - apply wp_lift. exact I.
Qed.

Lemma transcribe_rows_ends (d : Q) (job_id : list N) (total_chunks : Z)
    (chunk_rows : list Chunk.t) (done_chunks : Z) (w : world) :
  lasting d job_id w ->
  wp (transcribe_rows now_iso transcribe_chunk_openai transcribe_chunk_fallback
        sha256_file job_id total_chunks chunk_rows done_chunks)
    (returning (fun r w' =>
       lasting d job_id w'
       /\ match r with
          | inl _ => True
          | inr code => ended_as code job_id w' /\ (code = 1 \/ code = 2)%Z
          end)) w.
Proof.
  revert done_chunks w. induction chunk_rows as [|row rest IH];
    intros done_chunks w Hjob; cbn [transcribe_rows].
  - apply wp_ret. cbn [returning]. auto.
  - destruct (eqb (Chunk.status row) (lit "done")); [apply IH, Hjob|].
    apply wp_bind.
    eapply wp_weaken; [apply (process_chunk_ends d), Hjob|].
    intros [[n|code]| |] w'; cbn [returning]; try (intros _; exact I).
    + intros [Hj _]. apply IH, Hj.
    + intros [Hj Hend]. apply wp_ret. cbn [returning]. split; assumption.
Qed.

Lemma upsert_all_same_jobs (job_id : list N) (planned : list ChunkPlan.t)
    (w : world) :
  has_job job_id w ->
  wp (upsert_all now_iso job_id planned)
    (returning (fun _ w' =>
       Storage.jobs (db w') = Storage.jobs (db w) /\ stdout w' = stdout w
       /\ files w' = files w)) w.
Proof.
  revert w. induction planned as [|chunk rest IH]; intros w Hjob;
    cbn [upsert_all].
  - apply wp_ret. cbn [returning]. auto.
  - apply wp_bind. unfold upsert_planned. apply wp_try_db.
    unfold Storage.upsert_chunk. destruct Hjob as [j Hj]. rewrite Hj.
    eapply wp_weaken; [apply IH|].
    + unfold has_job. cbn [db Storage.jobs]. rewrite Hj. eauto.
    + intros [u| |] w'; cbn [returning stdout files db Storage.jobs];
        try (intros _; exact I).
      intros Hpost. exact Hpost.
Qed.

(** Preprocessing returns the duration that the job row then holds. *)
Lemma preprocess_if_needed_lasting (job_id : list N) (w : world) :
  has_job job_id w ->
  wp (preprocess_if_needed now_iso sha256_file reported_duration chunks_dir
        job_id)
    (returning (fun pre w' =>
       lasting (fst pre) job_id w' /\ stdout w' = stdout w
       /\ files w' = files w)) w.
Proof.
  intros Hjob. unfold preprocess_if_needed.
  apply wp_bind, wp_read_db.
  destruct (Storage.list_chunks (db w) job_id) as [|row rows].
  - apply wp_bind, wp_lift.
    destruct (Audio.create_chunks _ _ _ _ _) as [[duration planned]| |];
      try exact I.
    apply wp_bind, wp_with_db. apply wp_bind.
    set (w1 := mk_world _ _ _).
    assert (Hd : lasting duration job_id w1).
    { destruct Hjob as [j Hj]. unfold lasting, w1. cbn [db].
      unfold Storage.update_job_metadata. cbn [Storage.jobs].
      rewrite lookup_alter_eq, Hj. cbn [fmap option_fmap option_map].
      eexists. split; reflexivity. }
    eapply wp_weaken; [apply upsert_all_same_jobs, (lasting_has_job duration), Hd|].
    intros [u| |] w'; cbn [returning]; try (intros _; exact I).
    intros (Hj & Hout & Hfiles).
    apply wp_bind, wp_read_db. apply wp_ret. cbn [returning fst].
    split; [eapply lasting_same_jobs; [exact Hj|exact Hd]|].
    split; assumption.
  - apply wp_bind, wp_read_db.
    destruct Hjob as [j Hj]. unfold Storage.get_job. rewrite Hj.
    destruct (Qle_bool _ 0).
    + apply wp_bind, wp_lift.
      destruct (Audio.probe_duration_seconds reported_duration); try exact I.
      apply wp_bind, wp_with_db. apply wp_ret. cbn [returning stdout files fst].
      split; [|split; reflexivity]. unfold lasting. cbn [db].
      unfold Storage.update_job_metadata. cbn [Storage.jobs].
      rewrite lookup_alter_eq, Hj. cbn [fmap option_fmap option_map].
      eexists. split; reflexivity.
    + apply wp_ret. cbn [returning fst]. split; [|split; reflexivity].
      exists j. split; [exact Hj|reflexivity].
Qed.

(** How a run of the driver ends for a job of the store. *)
Lemma transcribe_job_ends (source_exists : bool) (source_path job_id : list N)
    (interviewer_count participant_count : Z) (w : world) :
  has_job job_id w ->
  wp (transcribe_job now_iso transcribe_chunk_openai transcribe_chunk_fallback
        sha256_file reported_duration chunks_dir source_exists source_path
        job_id interviewer_count participant_count)
    (returning (fun code w' =>
       ended_as code job_id w'
       /\ (code = 0%Z ->
           exists (row : Job.t) (transcript : list Utterance.t),
             Storage.jobs (db w') !! job_id = Some row
             /\ Job.transcript_json row = Some transcript
             /\ Job.chunks_done row = Job.chunks_total row
             /\ last (stdout w')
                = Some (Result (Job.id row) (Job.source_path row)
                          (Job.duration_sec row) transcript)
             /\ files w' !! (job_id, lit "result.json")
                = Some (ResultCheckpoint job_id source_path
                          (Job.duration_sec row) transcript)))) w.
Proof.
  intros Hjob. unfold transcribe_job. destruct source_exists; cbn [negb].
  - apply wp_bind, wp_with_db. apply wp_bind, wp_emit. apply wp_bind.
    eapply wp_weaken; [apply preprocess_if_needed_lasting|].
    { unfold has_job. cbn [db]. apply has_job_update_job_status, Hjob. }
    intros [[duration chunk_rows]| |] w1; cbn [returning fst];
      try (intros _; exact I).
    intros (Hj1 & _ & _). apply wp_bind, wp_with_db. apply wp_bind.
    eapply wp_weaken; [apply (transcribe_rows_ends duration)|].
    { apply lasting_update_job_status, Hj1. }
    intros [[n|code]| |] w2; cbn [returning]; try (intros _; exact I).
    2:{ intros [_ [Hend Hcode]]. apply wp_ret. cbn [returning].
        split; [exact Hend|]. intros ->. destruct Hcode; discriminate. }
    intros [(j & Hj2 & Hd2) _].
    apply wp_bind, wp_with_db. apply wp_bind, wp_emit.
    apply wp_bind, wp_read_db. apply wp_bind, wp_lift.
    destruct (Merge.merge_and_label _ _ _) as [labeled| |]; try exact I.
    apply wp_bind, wp_with_db. apply wp_bind, wp_with_db.
    apply wp_bind, wp_write. apply wp_bind, wp_read_db.
    cbn [db]. unfold Storage.read_job_result at 1, Storage.get_job.
    unfold Storage.get_transcript at 1.
    unfold Storage.update_job_status, Storage.set_final_transcript.
    cbn [Storage.jobs]. rewrite !lookup_alter_eq, Hj2.
    cbn [fmap option_fmap option_map Job.transcript_json Job.id
           Job.source_path Job.duration_sec].
    apply wp_bind, wp_emit. apply wp_ret. cbn [returning]. split.
    + unfold ended_as. cbn [db stdout Storage.jobs].
      rewrite !lookup_alter_eq, Hj2. cbn [fmap option_fmap option_map].
      eexists. split; [reflexivity|]. cbn [Job.status Job.error_message].
      split; [reflexivity|]. split; [reflexivity|].
      do 4 eexists. apply last_app_one.
    + intros _. cbn [db stdout files Storage.jobs].
      rewrite !lookup_alter_eq, Hj2. cbn [fmap option_fmap option_map].
      do 2 eexists. split; [reflexivity|].
      cbn [Job.transcript_json Job.chunks_done Job.chunks_total Job.id
             Job.source_path Job.duration_sec].
      split; [reflexivity|]. split; [reflexivity|].
      split; [apply last_app_one|].
      rewrite lookup_insert_eq, Hd2. reflexivity.
  - apply wp_bind, wp_emit. apply wp_bind, wp_with_db. apply wp_ret.
    cbn [returning]. split; [|discriminate].
    unfold ended_as. cbn [db stdout].
    destruct Hjob as [j Hj]. unfold Storage.update_job_status.
    cbn [Storage.jobs]. rewrite lookup_alter_eq, Hj.
    cbn [fmap option_fmap option_map].
    eexists. split; [reflexivity|]. cbn [Job.status Job.error_message].
    split; [reflexivity|]. split; [eauto|]. do 2 eexists. apply last_app_one.
Qed.

(** X23: when a run of [transcribe_job] returns, its exit code is 0, 1 or
    2 and tells the status of the job, whether it has an error message and
    the last line printed; the job is left resumable exactly when the code
    is 2. *)
Theorem transcribe_job_exit_code (source_exists : bool)
    (source_path job_id : list N) (interviewer_count participant_count : Z)
    (w : world) (code : Z) :
  is_Some (Storage.jobs (db w) !! job_id) ->
  fst (transcribe_job now_iso transcribe_chunk_openai transcribe_chunk_fallback
         sha256_file reported_duration chunks_dir source_exists source_path
         job_id interviewer_count participant_count w) = Returns code ->
  let w' := snd (transcribe_job now_iso transcribe_chunk_openai
                   transcribe_chunk_fallback sha256_file reported_duration
                   chunks_dir source_exists source_path job_id
                   interviewer_count participant_count w) in
  ended_as code job_id w'
  /\ (code = 0 \/ code = 1 \/ code = 2)%Z
  /\ (forall row : Job.t,
         Storage.jobs (db w') !! job_id = Some row ->
         In (Job.status row) Queries.INCOMPLETE <-> code = 2%Z).
Proof.
  intros Hjob Hrun. cbn zeta.
  pose proof (transcribe_job_ends source_exists source_path job_id
                interviewer_count participant_count w Hjob) as Hends.
  unfold wp in Hends. rewrite Hrun in Hends. cbn [returning] in Hends.
  destruct Hends as [Hend _]. split; [exact Hend|].
  destruct Hend as (row & Hrow & Hcase).
  assert (Hcode : (code = 0 \/ code = 1 \/ code = 2)%Z).
  { destruct code as [|[p|p|]|p]; try contradiction; auto.
    - destruct p; try contradiction. auto. }
  split; [exact Hcode|].
  intros row' Hrow'. rewrite Hrow in Hrow'. inversion Hrow'; subst row'.
  destruct Hcode as [-> | [-> | ->]]; destruct Hcase as (Hst & _); rewrite Hst.
  - split; [|discriminate]. intros Hin. vm_compute in Hin.
    repeat (destruct Hin as [Hin|Hin]; [discriminate|]). contradiction.
  - split; [|discriminate]. intros Hin. vm_compute in Hin.
    repeat (destruct Hin as [Hin|Hin]; [discriminate|]). contradiction.
  - split; [reflexivity|]. intros _. vm_compute. auto 10.
Qed.

(** X24: after a run with exit code 0 the job row, the result event
    printed last and [result.json] hold the same transcript and duration,
    and all chunks are counted as done. *)
Theorem transcribe_job_result_agrees (source_exists : bool)
    (source_path job_id : list N) (interviewer_count participant_count : Z)
    (w : world) :
  is_Some (Storage.jobs (db w) !! job_id) ->
  fst (transcribe_job now_iso transcribe_chunk_openai transcribe_chunk_fallback
         sha256_file reported_duration chunks_dir source_exists source_path
         job_id interviewer_count participant_count w) = Returns 0%Z ->
  let w' := snd (transcribe_job now_iso transcribe_chunk_openai
                   transcribe_chunk_fallback sha256_file reported_duration
                   chunks_dir source_exists source_path job_id
                   interviewer_count participant_count w) in
  exists (row : Job.t) (transcript : list Utterance.t),
    Storage.jobs (db w') !! job_id = Some row
    /\ Job.transcript_json row = Some transcript
    /\ Job.chunks_done row = Job.chunks_total row
    /\ last (stdout w')
       = Some (Result (Job.id row) (Job.source_path row)
                 (Job.duration_sec row) transcript)
    /\ files w' !! (job_id, lit "result.json")
       = Some (ResultCheckpoint job_id source_path (Job.duration_sec row)
                 transcript).
Proof.
  intros Hjob Hrun. cbn zeta.
  pose proof (transcribe_job_ends source_exists source_path job_id
                interviewer_count participant_count w Hjob) as Hends.
  unfold wp in Hends. rewrite Hrun in Hends. cbn [returning] in Hends.
  destruct Hends as [_ Hresult]. apply Hresult. reflexivity.
Qed.

End ExitCodes.

(* ===================================================================== *)
(** * The transcription driver: what it reports *)
(* ===================================================================== *)

Section Reports.
Import Py Str Worker Runs.
Context `{Unicode}.

Variable now_iso : list N.
Variable transcribe_chunk_openai : list N -> outcome (list Segment.t * option Q).
Variable transcribe_chunk_fallback : list N -> fallback_result.
Variable sha256_file : list N -> list N.
Variable reported_duration : Q.
Variable chunks_dir : list N -> list N.

(** The percentage of a payload is clamped. *)
Lemma progress_payload_percent (job_id status stage : list N) (x : Q)
    (chunks_done chunks_total : Z) :
  (0 <= percent (progress_payload job_id status stage x chunks_done
                   chunks_total) <= 100)%Q.
Proof.
  unfold progress_payload. cbn [percent].
  assert (H0 : (round 0 2 == 0)%Q) by (vm_compute; reflexivity).
  assert (H100 : (round 100 2 == 100)%Q) by (vm_compute; reflexivity).
  split.
  - apply Qle_trans with (round 0 2).
    + rewrite H0. apply Qle_refl.
    + apply round_mono, Q.le_max_l.
  - apply Qle_trans with (round 100 2).
    + apply round_mono. apply Q.max_lub; [discriminate|]. apply Q.le_min_l.
    + rewrite H100. apply Qle_refl.
Qed.

Lemma progress_payload_in_bounds (job_id status stage : list N) (x : Q)
    (chunks_done chunks_total : Z) :
  (0 <= chunks_done <= chunks_total)%Z ->
  in_bounds (Progress (progress_payload job_id status stage x chunks_done
                         chunks_total))
  /\ in_bounds (Paused (progress_payload job_id status stage x chunks_done
                          chunks_total)).
Proof.
  intros Hcount. unfold in_bounds.
  pose proof (progress_payload_percent job_id status stage x chunks_done
                chunks_total) as Hp.
  split; (split; [exact Hp|exact Hcount]).
Qed.

Lemma printed_since_emit (base : list event) (ev : event) (w : world) :
  printed_since base in_bounds w -> in_bounds ev ->
  printed_since base in_bounds (mk_world (db w) (stdout w ++ [ev]) (files w)).
Proof.
  intros (events & Hout & Hall) Hev. exists (events ++ [ev]). cbn [stdout].
  rewrite Hout, app_assoc. split; [reflexivity|].
  apply Forall_app. split; [exact Hall|]. constructor; [exact Hev|constructor].
Qed.

Lemma printed_since_same (base : list event) (w w' : world) :
  stdout w' = stdout w ->
  printed_since base in_bounds w -> printed_since base in_bounds w'.
Proof. unfold printed_since. intros ->. auto. Qed.

(** Steps that print nothing. *)
Lemma wp_silent {A : Type} (m : M A) (base : list event) (w : world)
    (post : outcome A -> world -> Prop) :
  (forall w0, stdout (snd (m w0)) = stdout w0) ->
  printed_since base in_bounds w ->
  (forall o w', printed_since base in_bounds w' -> post o w') ->
  wp m post w.
Proof.
  intros Hsilent Hp Hpost. unfold wp. apply Hpost.
  apply (printed_since_same base w); [apply Hsilent|exact Hp].
Qed.

Lemma try_db_silent (f : Storage.conn -> outcome Storage.conn) (w : world) :
  stdout (snd (try_db f w)) = stdout w.
Proof. unfold try_db. destruct (f (db w)); reflexivity. Qed.

Lemma finish_chunk_reports (base : list event) (job_id : list N)
    (total_chunks : Z) (row : Chunk.t) (attempts done_chunks : Z)
    (engine : list N) (segments : list Segment.t) (avg_conf : option Q)
    (w : world) :
  (0 <= done_chunks < total_chunks)%Z ->
  printed_since base in_bounds w ->
  wp (finish_chunk now_iso sha256_file job_id total_chunks row attempts
        done_chunks engine segments avg_conf)
    (fun o w' =>
       printed_since base in_bounds w'
       /\ forall r, o = Returns r -> r = inl (done_chunks + 1)%Z) w.
Proof.
  intros Hcount Hp. unfold finish_chunk, upsert_row.
  apply wp_bind.
  apply (wp_silent _ base w); [intros; apply try_db_silent|exact Hp|].
  intros [u|e|] w1 Hp1; [|split; [exact Hp1|discriminate]..].
  apply wp_bind, wp_write. apply wp_bind, wp_with_db. apply wp_bind, wp_emit.
  apply wp_ret. split.
  - apply printed_since_emit.
    + eapply printed_since_same; [|exact Hp1]. reflexivity.
    + apply progress_payload_in_bounds. lia.
  - intros r Hr. inversion Hr. reflexivity.
Qed.

Lemma process_chunk_reports (base : list event) (job_id : list N)
    (total_chunks : Z) (row : Chunk.t) (done_chunks : Z) (w : world) :
  (0 <= done_chunks < total_chunks)%Z ->
  printed_since base in_bounds w ->
  wp (process_chunk now_iso transcribe_chunk_openai transcribe_chunk_fallback
        sha256_file job_id total_chunks row done_chunks)
    (fun o w' =>
       printed_since base in_bounds w'
       /\ forall n, o = Returns (inl n) -> n = (done_chunks + 1)%Z) w.
Proof.
  intros Hcount Hp. unfold process_chunk, upsert_row.
  apply wp_bind.
  apply (wp_silent _ base w); [intros; apply try_db_silent|exact Hp|].
  intros [u|e|] w1 Hp1; [|split; [exact Hp1|discriminate]..].
  destruct (transcribe_chunk_openai (Chunk.chunk_path row))
    as [[segments avg_conf]|openai_exc|].
  - eapply wp_weaken; [apply (finish_chunk_reports base); eassumption|].
    intros o w' [Hp' Hr]. split; [exact Hp'|].
    intros n Hn. specialize (Hr _ Hn). congruence.
  - apply wp_bind, wp_emit.
    assert (Hp2 : printed_since base in_bounds
                    (mk_world (db w1)
                       (stdout w1
                        ++ [Progress
                              (progress_payload job_id
                                 (lit "transcribing_fallback") (lit "transcribe")
                                 (10 + inject_Z done_chunks
                                       / inject_Z (Z.max total_chunks 1) * 70)
                                 done_chunks total_chunks)])
                       (files w1))).
    { apply printed_since_emit; [exact Hp1|].
      apply progress_payload_in_bounds. lia. }
    destruct (transcribe_chunk_fallback (Chunk.chunk_path row))
      as [segments coverage|conf_exc|fallback_exc].
    + eapply wp_weaken; [apply (finish_chunk_reports base); eassumption|].
      intros o w' [Hp' Hr]. split; [exact Hp'|].
      intros n Hn. specialize (Hr _ Hn). congruence.
    + apply wp_bind.
      eapply (wp_silent _ base); [intros; apply try_db_silent|exact Hp2|].
      intros [u2|e|] w3 Hp3; [|split; [exact Hp3|discriminate]..].
      apply wp_bind, wp_with_db. apply wp_bind, wp_emit. apply wp_ret.
      split; [|discriminate].
      apply printed_since_emit.
      * eapply printed_since_same; [|exact Hp3]. reflexivity.
      * apply progress_payload_in_bounds. lia.
    + apply wp_bind, wp_with_db. apply wp_bind, wp_emit. apply wp_ret.
      split; [|discriminate].
      apply printed_since_emit; [|exact I].
      eapply printed_since_same; [|exact Hp2]. reflexivity.
  - apply wp_lift. split; [exact Hp1|discriminate].
Qed.

Lemma transcribe_rows_reports (base : list event) (job_id : list N)
    (total_chunks : Z) (chunk_rows : list Chunk.t) (done_chunks : Z)
    (w : world) :
  (0 <= done_chunks)%Z ->
  (done_chunks + Z.of_nat (pending chunk_rows) <= total_chunks)%Z ->
  printed_since base in_bounds w ->
  wp (transcribe_rows now_iso transcribe_chunk_openai transcribe_chunk_fallback
        sha256_file job_id total_chunks chunk_rows done_chunks)
    (fun o w' =>
       printed_since base in_bounds w'
       /\ forall n, o = Returns (inl n) -> (0 <= n <= total_chunks)%Z) w.
Proof.
  revert done_chunks w. induction chunk_rows as [|row rest IH];
    intros done_chunks w Hpos Hle Hp; cbn [transcribe_rows].
  - apply wp_ret. split; [exact Hp|]. intros n Hn. inversion Hn; subst.
    unfold pending in Hle. cbn in Hle. lia.
  - unfold pending in Hle. cbn [List.filter] in Hle.
    destruct (eqb (Chunk.status row) (lit "done")); cbn [negb] in Hle.
    + apply IH; assumption.
    + cbn [length] in Hle. apply wp_bind.
      eapply wp_weaken; [apply (process_chunk_reports base); [|exact Hp]; lia|].
      intros [[n|code]|e|] w' [Hp' Hn];
        [|apply wp_ret; split; [exact Hp'|discriminate]
         |split; [exact Hp'|discriminate]..].
      specialize (Hn n eq_refl). subst n.
      apply IH; [lia|unfold pending; lia|exact Hp'].
Qed.

Lemma upsert_all_silent (job_id : list N) (planned : list ChunkPlan.t)
    (w : world) :
  stdout (snd (upsert_all now_iso job_id planned w)) = stdout w.
Proof.
  revert w. induction planned as [|chunk rest IH]; intros w; [reflexivity|].
  cbn [upsert_all]. unfold bindM, upsert_planned.
  pose proof (try_db_silent
                (fun c =>
                   Storage.upsert_chunk now_iso c job_id (ChunkPlan.idx chunk)
                     (ChunkPlan.start_sec chunk) (ChunkPlan.end_sec chunk)
                     (ChunkPlan.path chunk) (ChunkPlan.sha256 chunk)
                     (lit "queued") None 0 None None) w) as Hs.
  destruct (try_db _ w) as [[u|e|] w1]; cbn [snd] in *; try exact Hs.
  rewrite IH. exact Hs.
Qed.

Lemma preprocess_if_needed_silent (job_id : list N) (w : world) :
  stdout (snd (preprocess_if_needed now_iso sha256_file reported_duration
                 chunks_dir job_id w)) = stdout w.
Proof.
  unfold preprocess_if_needed, bindM, read_db, lift, with_db, ret.
  destruct (Storage.list_chunks (db w) job_id) as [|row rows].
  - destruct (Audio.create_chunks _ _ _ _ _) as [[duration planned]| |];
      try reflexivity.
    match goal with
    | |- context [upsert_all ?n ?j ?p ?w1] =>
        pose proof (upsert_all_silent j p w1) as Hs;
        destruct (upsert_all n j p w1) as [[u|e|] w2]
    end; cbn [snd stdout] in *; exact Hs.
  - destruct (Qle_bool _ 0); [|reflexivity].
    destruct (Audio.probe_duration_seconds reported_duration); reflexivity.
Qed.

Lemma pending_done (chunk_rows : list Chunk.t) :
  (length (List.filter (fun row => eqb (Chunk.status row) (lit "done")) chunk_rows)
   + pending chunk_rows = length chunk_rows)%nat.
Proof.
  unfold pending. induction chunk_rows as [|row rest IH]; [reflexivity|].
  cbn [List.filter]. destruct (eqb (Chunk.status row) (lit "done"));
    cbn [negb length]; lia.
Qed.

(** X25: a run only adds lines to the output, and every progress or
    paused line it prints has a percentage between 0 and 100 and a count of
    finished chunks between 0 and the total. *)
Theorem transcribe_job_reports_in_bounds (source_exists : bool)
    (source_path job_id : list N) (interviewer_count participant_count : Z)
    (w : world) :
  exists events : list event,
    stdout (snd (transcribe_job now_iso transcribe_chunk_openai
                   transcribe_chunk_fallback sha256_file reported_duration
                   chunks_dir source_exists source_path job_id
                   interviewer_count participant_count w))
    = stdout w ++ events
    /\ Forall in_bounds events.
Proof.
  change (wp (transcribe_job now_iso transcribe_chunk_openai
                transcribe_chunk_fallback sha256_file reported_duration
                chunks_dir source_exists source_path job_id
                interviewer_count participant_count)
            (fun _ w' => printed_since (stdout w) in_bounds w') w).
  assert (Hp : printed_since (stdout w) in_bounds w).
  { exists []. rewrite app_nil_r. split; [reflexivity|constructor]. }
  unfold transcribe_job. destruct source_exists; cbn [negb].
  - apply wp_bind, wp_with_db. apply wp_bind, wp_emit. apply wp_bind.
    set (w1 := mk_world _ (_ ++ _) _).
    assert (Hp1 : printed_since (stdout w) in_bounds w1).
    { apply printed_since_emit.
      - eapply printed_since_same; [|exact Hp]. reflexivity.
      - apply progress_payload_in_bounds. lia. }
    apply (wp_silent _ (stdout w) w1);
      [intros; apply preprocess_if_needed_silent|exact Hp1|].
    intros [[duration chunk_rows]|e|] w2 Hp2; try exact Hp2.
    apply wp_bind, wp_with_db. apply wp_bind.
    pose proof (pending_done chunk_rows) as Hrows.
    eapply wp_weaken.
    { apply (transcribe_rows_reports (stdout w)).
      - lia.
      - lia.
      - eapply printed_since_same; [|exact Hp2]. reflexivity. }
    intros [[n|code]|e|] w3 [Hp3 Hn];
      [|apply wp_ret; exact Hp3|exact Hp3..].
    specialize (Hn n eq_refl).
    apply wp_bind, wp_with_db. apply wp_bind, wp_emit.
    apply wp_bind, wp_read_db. apply wp_bind, wp_lift.
    assert (Hp4 : printed_since (stdout w) in_bounds
                    (mk_world
                       (Storage.update_job_status now_iso (db w3) job_id
                          (lit "merging") (Some n)
                          (Some (Z.of_nat (length chunk_rows))) None)
                       (stdout w3
                        ++ [Progress
                              (progress_payload job_id (lit "merging")
                                 (lit "merge") 94 n
                                 (Z.of_nat (length chunk_rows)))])
                       (files w3))).
    { apply printed_since_emit.
      - eapply printed_since_same; [|exact Hp3]. reflexivity.
      - apply progress_payload_in_bounds. lia. }
    destruct (Merge.merge_and_label _ _ _) as [labeled| |]; try exact Hp4.
    apply wp_bind, wp_with_db. apply wp_bind, wp_with_db.
    apply wp_bind, wp_write. apply wp_bind, wp_read_db.
    match goal with
    | |- wp (match ?r with _ => _ end) _ _ =>
        destruct r as [[[[rid rpath] rd] rt]|]
    end.
    + apply wp_bind, wp_emit. apply wp_ret.
      apply printed_since_emit; [|exact I].
      eapply printed_since_same; [|exact Hp4]. reflexivity.
    + apply wp_bind, wp_emit. apply wp_ret.
      apply printed_since_emit; [|exact I].
      eapply printed_since_same; [|exact Hp4]. reflexivity.
  - apply wp_bind, wp_emit.
    assert (Hp1 : printed_since (stdout w) in_bounds
                    (mk_world (db w)
                       (stdout w
                        ++ [Error job_id
                              (lit "Kildedata findes ikke: " ++ source_path)])
                       (files w))).
    { apply printed_since_emit; [exact Hp|exact I]. }
    apply wp_bind, wp_with_db. apply wp_ret.
    eapply printed_since_same; [|exact Hp1]. reflexivity.
Qed.

End Reports.

(* ===================================================================== *)
(** * The transcription driver: what it leaves alone *)
(* ===================================================================== *)

Section Frame.
Import Py Str Worker Runs.
Context `{Unicode}.

Variable now_iso : list N.
Variable transcribe_chunk_openai : list N -> outcome (list Segment.t * option Q).
Variable transcribe_chunk_fallback : list N -> fallback_result.
Variable sha256_file : list N -> list N.
Variable reported_duration : Q.
Variable chunks_dir : list N -> list N.

Variable job_id : list N.
Variable keep : list N * nat -> Prop.
Variable base : world.

Lemma left_alone_refl : left_alone job_id keep base base.
Proof. repeat split. Qed.

Lemma left_alone_jobs (f : Job.t -> Job.t) (w : world) (out : list event) :
  left_alone job_id keep base w ->
  left_alone job_id keep base
    (mk_world (Storage.mk_conn (alter f job_id (Storage.jobs (db w)))
                 (Storage.chunks (db w))) out (files w)).
Proof.
  intros (Hc & Hj & Hf). split; [|split]; cbn [db files Storage.jobs
                                                Storage.chunks].
  - exact Hc.
  - intros k Hk. rewrite lookup_alter_ne by congruence. apply Hj, Hk.
  - exact Hf.
Qed.

Lemma left_alone_ext (w w' : world) :
  left_alone job_id keep base w ->
  Storage.chunks (db w') = Storage.chunks (db w) ->
  (forall k : list N,
      k <> job_id -> Storage.jobs (db w') !! k = Storage.jobs (db w) !! k) ->
  (forall k name : list N,
      k <> job_id -> files w' !! (k, name) = files w !! (k, name)) ->
  left_alone job_id keep base w'.
Proof.
  intros (Hc & Hj & Hf) Ec Ej Ef. split; [|split].
  - intros key Hkey. rewrite Ec. apply Hc, Hkey.
  - intros k Hk. rewrite Ej by exact Hk. apply Hj, Hk.
  - intros k name Hk. rewrite Ef by exact Hk. apply Hf, Hk.
Qed.

Lemma left_alone_output (w : world) (out : list event) :
  left_alone job_id keep base w ->
  left_alone job_id keep base (mk_world (db w) out (files w)).
Proof. intros Hl. exact Hl. Qed.

Lemma left_alone_write (w : world) (name : list N) (payload : checkpoint) :
  left_alone job_id keep base w ->
  left_alone job_id keep base
    (mk_world (db w) (stdout w) (<[(job_id, name) := payload]> (files w))).
Proof.
  intros (Hc & Hj & Hf). split; [|split]; cbn [db files]; try assumption.
  intros k name' Hk. rewrite lookup_insert_ne; [apply Hf, Hk|].
  intros E. inversion E. congruence.
Qed.

Lemma wp_upsert_left_alone (idx : nat) (start_sec end_sec : Q)
    (chunk_path chunk_hash status : list N) (engine : option (list N))
    (attempt_count : Z) (transcript : option (list Utterance.t))
    (confidence : option Q) (post : outcome unit -> world -> Prop) (w : world) :
  ~ keep (job_id, idx) ->
  left_alone job_id keep base w ->
  (forall o w', left_alone job_id keep base w' -> post o w') ->
  wp (try_db (fun c =>
        Storage.upsert_chunk now_iso c job_id idx start_sec end_sec chunk_path
          chunk_hash status engine attempt_count transcript confidence))
    post w.
Proof.
  intros Hkeep (Hc & Hj & Hf) Hpost. apply wp_try_db.
  unfold Storage.upsert_chunk.
  destruct (Storage.jobs (db w) !! job_id);
    [|apply Hpost; repeat split; assumption].
  apply Hpost. split; [|split]; cbn [db files Storage.jobs Storage.chunks];
    try assumption.
  intros key Hkey. rewrite lookup_insert_ne; [apply Hc, Hkey|].
  intros <-. contradiction.
Qed.

Lemma finish_chunk_left_alone (total_chunks : Z) (row : Chunk.t)
    (attempts done_chunks : Z) (engine : list N) (segments : list Segment.t)
    (avg_conf : option Q) (w : world) :
  ~ keep (job_id, Chunk.idx row) ->
  left_alone job_id keep base w ->
  wp (finish_chunk now_iso sha256_file job_id total_chunks row attempts
        done_chunks engine segments avg_conf)
    (fun _ w' => left_alone job_id keep base w') w.
Proof.
  intros Hkeep Hl. unfold finish_chunk, upsert_row.
  apply wp_bind, wp_upsert_left_alone; [exact Hkeep|exact Hl|].
  intros [u|e|] w1 Hl1; try exact Hl1.
  apply wp_bind, wp_write. apply wp_bind, wp_with_db. apply wp_bind, wp_emit.
  apply wp_ret. apply left_alone_output.
  apply (left_alone_jobs _ (mk_world (db w1) (stdout w1)
                              (<[(job_id, checkpoint_name (Chunk.idx row))
                                 := ChunkCheckpoint job_id (Chunk.idx row) engine
                                      (globalize (Chunk.start_sec row) segments)]>
                                 (files w1)))).
  apply left_alone_write, Hl1.
Qed.

Lemma process_chunk_left_alone (total_chunks : Z) (row : Chunk.t)
    (done_chunks : Z) (w : world) :
  ~ keep (job_id, Chunk.idx row) ->
  left_alone job_id keep base w ->
  wp (process_chunk now_iso transcribe_chunk_openai transcribe_chunk_fallback
        sha256_file job_id total_chunks row done_chunks)
    (fun _ w' => left_alone job_id keep base w') w.
Proof.
  intros Hkeep Hl. unfold process_chunk. unfold upsert_row at 1.
  apply wp_bind, wp_upsert_left_alone; [exact Hkeep|exact Hl|].
  intros [u|e|] w1 Hl1; try exact Hl1.
  destruct (transcribe_chunk_openai (Chunk.chunk_path row))
    as [[segments avg_conf]|openai_exc|].
  - apply finish_chunk_left_alone; assumption.
  - apply wp_bind, wp_emit.
    destruct (transcribe_chunk_fallback (Chunk.chunk_path row))
      as [segments coverage|conf_exc|fallback_exc].
    + apply finish_chunk_left_alone; [exact Hkeep|].
      apply left_alone_output, Hl1.
    + unfold upsert_row.
      apply wp_bind, wp_upsert_left_alone;
        [exact Hkeep|apply left_alone_output, Hl1|].
      intros [u2|e|] w2 Hl2; try exact Hl2.
      apply wp_bind, wp_with_db. apply wp_bind, wp_emit. apply wp_ret.
      apply left_alone_output.
      apply (left_alone_jobs _ w2 (stdout w2)), Hl2.
    + apply wp_bind, wp_with_db. apply wp_bind, wp_emit. apply wp_ret.
      apply left_alone_output.
      apply (left_alone_jobs _ (mk_world (db w1) _ (files w1)) _).
      apply left_alone_output, Hl1.
  - apply wp_lift. exact Hl1.
Qed.

Lemma transcribe_rows_left_alone (total_chunks : Z) (chunk_rows : list Chunk.t)
    (done_chunks : Z) (w : world) :
  (forall row : Chunk.t,
      In row chunk_rows -> eqb (Chunk.status row) (lit "done") = false ->
      ~ keep (job_id, Chunk.idx row)) ->
  left_alone job_id keep base w ->
  wp (transcribe_rows now_iso transcribe_chunk_openai transcribe_chunk_fallback
        sha256_file job_id total_chunks chunk_rows done_chunks)
    (fun _ w' => left_alone job_id keep base w') w.
Proof.
  revert done_chunks w. induction chunk_rows as [|row rest IH];
    intros done_chunks w Hrows Hl; cbn [transcribe_rows].
  - apply wp_ret. exact Hl.
  - destruct (eqb (Chunk.status row) (lit "done")) eqn:E.
    + apply IH; [|exact Hl]. intros r Hr. apply Hrows. right. exact Hr.
    + apply wp_bind.
      eapply wp_weaken.
      { apply process_chunk_left_alone; [|exact Hl].
        apply Hrows; [left; reflexivity|exact E]. }
      intros [[n|code]|e|] w' Hl'; try exact Hl'.
      apply IH; [|exact Hl']. intros r Hr. apply Hrows. right. exact Hr.
Qed.

Lemma upsert_all_left_alone (planned : list ChunkPlan.t) (w : world) :
  (forall i : nat, ~ keep (job_id, i)) ->
  left_alone job_id keep base w ->
  wp (upsert_all now_iso job_id planned)
    (fun _ w' => left_alone job_id keep base w') w.
Proof.
  intros Hkeep. revert w. induction planned as [|chunk rest IH]; intros w Hl;
    cbn [upsert_all].
  - apply wp_ret. exact Hl.
  - apply wp_bind. unfold upsert_planned.
    apply wp_upsert_left_alone; [apply Hkeep|exact Hl|].
    intros [u|e|] w1 Hl1; try exact Hl1. apply IH, Hl1.
Qed.

(** Preprocessing leaves alone what the run leaves alone; when the job has
    chunk rows it returns them and plans nothing. *)
Lemma preprocess_if_needed_left_alone (w : world) :
  (Storage.list_chunks (db w) job_id = [] -> forall i : nat, ~ keep (job_id, i)) ->
  left_alone job_id keep base w ->
  wp (preprocess_if_needed now_iso sha256_file reported_duration chunks_dir
        job_id)
    (fun o w' =>
       left_alone job_id keep base w'
       /\ forall pre, o = Returns pre ->
            Storage.list_chunks (db w) job_id <> [] ->
            snd pre = Storage.list_chunks (db w) job_id) w.
Proof.
  intros Hfresh Hl. unfold preprocess_if_needed.
  apply wp_bind, wp_read_db.
  destruct (Storage.list_chunks (db w) job_id) as [|row rows] eqn:Erows.
  - apply wp_bind, wp_lift.
    destruct (Audio.create_chunks _ _ _ _ _) as [[duration planned]| |];
      try (split; [exact Hl|discriminate]).
    apply wp_bind, wp_with_db. apply wp_bind.
    eapply wp_weaken.
    { apply upsert_all_left_alone; [apply Hfresh; reflexivity|].
      apply (left_alone_jobs _ w (stdout w)), Hl. }
    intros [u|e|] w1 Hl1; try (split; [exact Hl1|discriminate]).
    apply wp_bind, wp_read_db. apply wp_ret. split; [exact Hl1|].
    intros pre _ Hne. contradiction.
  - apply wp_bind, wp_read_db.
    destruct (Qle_bool _ 0).
    + apply wp_bind, wp_lift.
      destruct (Audio.probe_duration_seconds reported_duration);
        try (split; [exact Hl|discriminate]).
      apply wp_bind, wp_with_db. apply wp_ret. split.
      * apply (left_alone_jobs _ w (stdout w)), Hl.
      * intros pre Hpre _. inversion Hpre. reflexivity.
    + apply wp_ret. split; [exact Hl|].
      intros pre Hpre _. inversion Hpre. reflexivity.
Qed.

Lemma list_chunks_same (c c' : Storage.conn) (j : list N) :
  Storage.chunks c' = Storage.chunks c ->
  Storage.list_chunks c' j = Storage.list_chunks c j.
Proof. unfold Storage.list_chunks. intros ->. reflexivity. Qed.

(** What a whole run leaves alone. *)
Lemma transcribe_job_left_alone (source_exists : bool) (source_path : list N)
    (interviewer_count participant_count : Z) :
  (Storage.list_chunks (db base) job_id = [] ->
   forall i : nat, ~ keep (job_id, i)) ->
  (forall row : Chunk.t,
      In row (Storage.list_chunks (db base) job_id) ->
      eqb (Chunk.status row) (lit "done") = false ->
      ~ keep (job_id, Chunk.idx row)) ->
  left_alone job_id keep base
    (snd (transcribe_job now_iso transcribe_chunk_openai
            transcribe_chunk_fallback sha256_file reported_duration chunks_dir
            source_exists source_path job_id interviewer_count
            participant_count base)).
Proof.
  intros Hfresh Hrows.
  change (wp (transcribe_job now_iso transcribe_chunk_openai
                transcribe_chunk_fallback sha256_file reported_duration
                chunks_dir source_exists source_path job_id
                interviewer_count participant_count)
            (fun _ w' => left_alone job_id keep base w') base).
  unfold transcribe_job. destruct source_exists; cbn [negb].
  - apply wp_bind, wp_with_db. apply wp_bind, wp_emit. apply wp_bind.
    set (w1 := mk_world _ (_ ++ _) _).
    assert (Hl1 : left_alone job_id keep base w1).
    { apply left_alone_output.
      apply (left_alone_jobs _ base (stdout base)), left_alone_refl. }
    assert (Hsame : Storage.list_chunks (db w1) job_id
                    = Storage.list_chunks (db base) job_id).
    { apply list_chunks_same. reflexivity. }
    eapply wp_weaken.
    { apply preprocess_if_needed_left_alone; [|exact Hl1].
      rewrite Hsame. exact Hfresh. }
    intros [[duration chunk_rows]|e|] w2 [Hl2 Hpre]; try exact Hl2.
    specialize (Hpre _ eq_refl). cbn [snd] in Hpre. rewrite Hsame in Hpre.
    apply wp_bind, wp_with_db. apply wp_bind.
    eapply wp_weaken.
    { apply transcribe_rows_left_alone.
      - intros row Hrow Hst.
        destruct (Storage.list_chunks (db base) job_id) as [|r0 rs] eqn:Eb.
        + apply Hfresh. reflexivity.
        + apply Hrows; [|exact Hst]. rewrite <- Hpre by discriminate. exact Hrow.
      - apply (left_alone_jobs _ w2 (stdout w2)), Hl2. }
    intros [[n|code]|e|] w3 Hl3; try exact Hl3.
    apply wp_bind, wp_with_db. apply wp_bind, wp_emit.
    apply wp_bind, wp_read_db. apply wp_bind, wp_lift.
    assert (Hl4 : forall out,
               left_alone job_id keep base
                 (mk_world
                    (Storage.update_job_status now_iso (db w3) job_id
                       (lit "merging") (Some n)
                       (Some (Z.of_nat (length chunk_rows))) None)
                    out (files w3))).
    { intros out. apply (left_alone_jobs _ w3 out), Hl3. }
    destruct (Merge.merge_and_label _ _ _) as [labeled| |]; try apply Hl4.
    apply wp_bind, wp_with_db. apply wp_bind, wp_with_db.
    apply wp_bind, wp_write. apply wp_bind, wp_read_db.
    destruct (Storage.read_job_result _ job_id) as [[[[rid rpath] rd] rt]|];
      (apply wp_bind, wp_emit; apply wp_ret;
       apply (left_alone_ext _ _ (Hl4 (stdout w3)));
       [reflexivity
       |intros k Hk; cbn [db Storage.jobs Storage.update_job_status
                          Storage.set_final_transcript];
        rewrite !lookup_alter_ne by congruence; reflexivity
       |intros k name Hk; cbn [files];
        rewrite lookup_insert_ne; [reflexivity|];
        intros E; inversion E; congruence]).
  - apply wp_bind, wp_emit. apply wp_bind, wp_with_db. apply wp_ret.
    apply (left_alone_jobs _ (mk_world (db base) _ (files base)) _).
    apply left_alone_output, left_alone_refl.
Qed.

End Frame.

Section Untouched.
Import Py Str Worker Runs.
Context `{Unicode}.

Variable now_iso : list N.
Variable transcribe_chunk_openai : list N -> outcome (list Segment.t * option Q).
Variable transcribe_chunk_fallback : list N -> fallback_result.
Variable sha256_file : list N -> list N.
Variable reported_duration : Q.
Variable chunks_dir : list N -> list N.

(** X26: a run for one job changes no job row and no chunk row of
    another job, however the run ends. *)
Theorem transcribe_job_other_jobs_untouched (source_exists : bool)
    (source_path job_id : list N) (interviewer_count participant_count : Z)
    (w : world) (other : list N) :
  other <> job_id ->
  let w' := snd (transcribe_job now_iso transcribe_chunk_openai
                   transcribe_chunk_fallback sha256_file reported_duration
                   chunks_dir source_exists source_path job_id
                   interviewer_count participant_count w) in
  Storage.get_job (db w') other = Storage.get_job (db w) other
  /\ (forall idx : nat,
         Storage.chunks (db w') !! (other, idx)
         = Storage.chunks (db w) !! (other, idx)).
Proof.
  intros Hother. cbn zeta.
  destruct (transcribe_job_left_alone now_iso transcribe_chunk_openai
              transcribe_chunk_fallback sha256_file reported_duration
              chunks_dir job_id (fun key => fst key <> job_id) w
              source_exists source_path interviewer_count participant_count)
    as (Hc & Hj & _).
  - intros _ i Hkeep. apply Hkeep. reflexivity.
  - intros row _ _ Hkeep. apply Hkeep. reflexivity.
  - split.
    + unfold Storage.get_job. apply Hj, Hother.
    + intros idx. apply Hc. exact Hother.
Qed.

(** X27: a run never rewrites a chunk row that was [done] when it
    started: resuming a job keeps the finished chunks as they were
    stored. *)
Theorem transcribe_job_keeps_done_chunks (source_exists : bool)
    (source_path job_id : list N) (interviewer_count participant_count : Z)
    (w : world) (row : Chunk.t) :
  Rows.consistent (db w) ->
  In row (Storage.list_chunks (db w) job_id) ->
  Chunk.status row = lit "done" ->
  let w' := snd (transcribe_job now_iso transcribe_chunk_openai
                   transcribe_chunk_fallback sha256_file reported_duration
                   chunks_dir source_exists source_path job_id
                   interviewer_count participant_count w) in
  Storage.chunks (db w') !! (job_id, Chunk.idx row) = Some row.
Proof.
  intros Hcons Hrow Hdone. cbn zeta.
  destruct (transcribe_job_left_alone now_iso transcribe_chunk_openai
              transcribe_chunk_fallback sha256_file reported_duration
              chunks_dir job_id
              (fun key =>
                 exists r : Chunk.t,
                   In r (Storage.list_chunks (db w) job_id)
                   /\ Chunk.status r = lit "done"
                   /\ key = (job_id, Chunk.idx r))
              w source_exists source_path interviewer_count participant_count)
    as (Hc & _ & _).
  - intros Hnil i (r & Hr & _). rewrite Hnil in Hr. destruct Hr.
  - intros r' Hr' Hst (r & Hr & Hd & Hkey).
    apply (list_chunks_In _ _ _ Hcons) in Hr, Hr'.
    inversion Hkey as [Hidx]. rewrite Hidx in Hr'. rewrite Hr in Hr'.
    inversion Hr'; subst r'. rewrite Hd in Hst.
    unfold eqb in Hst. rewrite bool_decide_eq_false in Hst. apply Hst.
    reflexivity.
  - rewrite Hc.
    + apply (list_chunks_In _ _ _ Hcons), Hrow.
    + exists row. repeat split; assumption.
Qed.

(** X28: when the duration of the source cannot be read, a run of a job
    with no stored duration ends in an exception after its first progress
    line: the job is left in [preprocessing], no error line is printed, and
    no chunk row and no checkpoint is written. *)
Theorem transcribe_job_unreadable_duration (source_path job_id : list N)
    (interviewer_count participant_count : Z) (w : world) (job : Job.t) :
  (reported_duration <= 0)%Q ->
  Storage.get_job (db w) job_id = Some job ->
  (Job.duration_sec job <= 0)%Q ->
  transcribe_job now_iso transcribe_chunk_openai transcribe_chunk_fallback
    sha256_file reported_duration chunks_dir true source_path job_id
    interviewer_count participant_count w
  = (Raises (lit "Kunne ikke læse varighed via ffprobe"),
     mk_world
       (Storage.update_job_status now_iso (db w) job_id (lit "preprocessing")
          None None None)
       (stdout w
        ++ [Progress (progress_payload job_id (lit "preprocessing")
                        (lit "preprocess") 3 0 0)])
       (files w)).
Proof.
  intros Hrep Hjob Hdur.
  apply Qle_bool_iff in Hrep. apply Qle_bool_iff in Hdur.
  unfold transcribe_job. cbn [negb].
  unfold bindM at 1. cbn [with_db]. unfold bindM at 1. cbn [emit db stdout files].
  unfold bindM at 1.
  set (w1 := mk_world _ _ _).
  enough (E : preprocess_if_needed now_iso sha256_file reported_duration
                chunks_dir job_id w1
              = (Raises (lit "Kunne ikke læse varighed via ffprobe"), w1)).
  { rewrite E. reflexivity. }
  unfold preprocess_if_needed. unfold bindM at 1. cbn [read_db].
  destruct (Storage.list_chunks (db w1) job_id) as [|r rs].
  - unfold bindM at 1, lift, Audio.create_chunks, Audio.probe_duration_seconds.
    rewrite Hrep. reflexivity.
  - unfold bindM at 1. cbn [read_db].
    replace (Storage.get_job (db w1) job_id)
      with (Some (Job.mk (Job.id job) (Job.source_path job)
                    (Job.source_name job) (Job.source_hash job)
                    (lit "preprocessing") (Job.created_at job) now_iso
                    (Job.duration_sec job) (Job.chunks_total job)
                    (Job.chunks_done job) (Job.transcript_json job)
                    (Job.error_message job) (Job.interviewer_count job)
                    (Job.participant_count job))).
    + cbn [Job.duration_sec]. rewrite Hdur.
      unfold bindM at 1, lift, Audio.probe_duration_seconds.
      rewrite Hrep. reflexivity.
    + unfold w1, Storage.get_job, Storage.update_job_status in *.
      cbn [db Storage.jobs]. rewrite lookup_alter_eq, Hjob. reflexivity.
Qed.

End Untouched.

Lemma transcribe_job_exit_code_witness :
  is_Some (Storage.jobs (Worker.db Spec.queued_world) !! Str.lit "j")
  /\ fst Spec.run_with_fallback = Py.Returns 0%Z
  /\ Runs.ended_as 0 (Str.lit "j") (snd Spec.run_with_fallback).
Proof.
  assert (Hjob : is_Some (Storage.jobs (Worker.db Spec.queued_world)
                            !! Str.lit "j")).
  { exists Spec.queued_job. vm_compute. reflexivity. }
  assert (Hrun : fst Spec.run_with_fallback = Py.Returns 0%Z).
  { vm_compute. reflexivity. }
  split; [exact Hjob|]. split; [exact Hrun|].
  apply (transcribe_job_exit_code (H := Str.latin1) (Str.lit "t1")
           Spec.remote_fails_after_first Spec.fallback_answers
           (fun _ => Str.lit "sha") 300 (fun _ => Str.lit "/c") true
           (Str.lit "/a.m4a") (Str.lit "j") 1 1 Spec.queued_world 0 Hjob Hrun).
Defined.

Lemma transcribe_job_result_agrees_witness :
  is_Some (Storage.jobs (Worker.db Spec.queued_world) !! Str.lit "j")
  /\ fst Spec.run_with_fallback = Py.Returns 0%Z
  /\ exists (row : Job.t) (transcript : list Utterance.t),
       Storage.jobs (Worker.db (snd Spec.run_with_fallback)) !! Str.lit "j"
       = Some row
       /\ Job.transcript_json row = Some transcript
       /\ Job.chunks_done row = Job.chunks_total row
       /\ last (Worker.stdout (snd Spec.run_with_fallback))
          = Some (Worker.Result (Job.id row) (Job.source_path row)
                    (Job.duration_sec row) transcript)
       /\ Worker.files (snd Spec.run_with_fallback)
            !! (Str.lit "j", Str.lit "result.json")
          = Some (Worker.ResultCheckpoint (Str.lit "j") (Str.lit "/a.m4a")
                    (Job.duration_sec row) transcript).
Proof.
  assert (Hjob : is_Some (Storage.jobs (Worker.db Spec.queued_world)
                            !! Str.lit "j")).
  { exists Spec.queued_job. vm_compute. reflexivity. }
  assert (Hrun : fst Spec.run_with_fallback = Py.Returns 0%Z).
  { vm_compute. reflexivity. }
  split; [exact Hjob|]. split; [exact Hrun|].
  apply (transcribe_job_result_agrees (H := Str.latin1) (Str.lit "t1")
           Spec.remote_fails_after_first Spec.fallback_answers
           (fun _ => Str.lit "sha") 300 (fun _ => Str.lit "/c") true
           (Str.lit "/a.m4a") (Str.lit "j") 1 1 Spec.queued_world Hjob Hrun).
Defined.

Lemma transcribe_job_other_jobs_untouched_witness :
  Str.lit "k" <> Str.lit "j"
  /\ Storage.get_job (Worker.db (snd Spec.run_with_fallback)) (Str.lit "k")
     = Storage.get_job (Worker.db Spec.queued_world) (Str.lit "k").
Proof.
  assert (Hother : Str.lit "k" <> Str.lit "j").
  { intros E. vm_compute in E. discriminate E. }
  split; [exact Hother|].
  apply (transcribe_job_other_jobs_untouched (H := Str.latin1) (Str.lit "t1")
           Spec.remote_fails_after_first Spec.fallback_answers
           (fun _ => Str.lit "sha") 300 (fun _ => Str.lit "/c") true
           (Str.lit "/a.m4a") (Str.lit "j") 1 1 Spec.queued_world (Str.lit "k")
           Hother).
Defined.

Lemma transcribe_job_keeps_done_chunks_witness :
  Rows.consistent (Worker.db Runs.resumed_world)
  /\ In Rows.finished_chunk
       (Storage.list_chunks (Worker.db Runs.resumed_world) (Str.lit "j"))
  /\ Chunk.status Rows.finished_chunk = Str.lit "done"
  /\ Storage.chunks
       (Worker.db
          (snd (@Worker.transcribe_job Str.latin1 (Str.lit "t1")
                  Spec.remote_fails_after_first Spec.fallback_answers
                  (fun _ => Str.lit "sha") 300 (fun _ => Str.lit "/c") true
                  (Str.lit "/a.m4a") (Str.lit "j") 1 1 Runs.resumed_world)))
       !! (Str.lit "j", 0%nat)
     = Some Rows.finished_chunk.
Proof.
  assert (Hin : In Rows.finished_chunk
                  (Storage.list_chunks (Worker.db Runs.resumed_world)
                     (Str.lit "j"))).
  { apply (list_chunks_In _ _ _ resumed_store_consistent). apply lookup_insert_eq. }
  split; [exact resumed_store_consistent|]. split; [exact Hin|].
  split; [reflexivity|].
  apply (transcribe_job_keeps_done_chunks (H := Str.latin1) (Str.lit "t1")
           Spec.remote_fails_after_first Spec.fallback_answers
           (fun _ => Str.lit "sha") 300 (fun _ => Str.lit "/c") true
           (Str.lit "/a.m4a") (Str.lit "j") 1 1 Runs.resumed_world
           Rows.finished_chunk resumed_store_consistent Hin eq_refl).
Defined.

Lemma transcribe_job_unreadable_duration_witness :
  (0 <= 0)%Q
  /\ Storage.get_job (Worker.db Spec.queued_world) (Str.lit "j")
     = Some Spec.queued_job
  /\ fst (@Worker.transcribe_job Str.latin1 (Str.lit "t1")
            Spec.remote_fails_after_first Spec.fallback_answers
            (fun _ => Str.lit "sha") 0 (fun _ => Str.lit "/c") true
            (Str.lit "/a.m4a") (Str.lit "j") 1 1 Spec.queued_world)
     = Py.Raises (Str.lit "Kunne ikke læse varighed via ffprobe").
Proof.
  assert (Hzero : (0 <= 0)%Q) by apply Qle_refl.
  assert (Hjob : Storage.get_job (Worker.db Spec.queued_world) (Str.lit "j")
                 = Some Spec.queued_job).
  { vm_compute. reflexivity. }
  split; [exact Hzero|]. split; [exact Hjob|].
  exact (f_equal fst (transcribe_job_unreadable_duration (H := Str.latin1) (Str.lit "t1")
             Spec.remote_fails_after_first Spec.fallback_answers
             (fun _ => Str.lit "sha") 0 (fun _ => Str.lit "/c")
             (Str.lit "/a.m4a") (Str.lit "j") 1 1 Spec.queued_world
             Spec.queued_job Hzero Hjob Hzero)).
Defined.

(* ===================================================================== *)
(** * The export: line numbers *)
(* ===================================================================== *)

Section LineNumbers.
Import Py Str Exporters Shapes.

Lemma combine_seq_shift {A B : Type} (g : nat * A -> B) (l : list A)
    (base : nat) :
  List.map g (combine (seq (S base) (length l)) l)
  = List.map (fun p => g (S (fst p), snd p)) (combine (seq base (length l)) l).
Proof.
  revert base. induction l as [|a l IH]; intros base; [reflexivity|].
  cbn [length seq combine List.map fst snd]. f_equal. apply IH.
Qed.

Lemma line_entries_fold (segments : list Utterance.t)
    (entries : list (Z * list N * list N)) (line_no : Z) :
  exists more : list (Z * list N * list N),
    fold_left line_entries_step segments (entries, line_no)
    = (entries ++ more, (line_no + Z.of_nat (length more))%Z)
    /\ List.map (fun e => fst (fst e)) more
       = List.map (fun k => (line_no + Z.of_nat k)%Z) (seq 0 (length more))
    /\ List.map snd more
       = List.filter (fun t => negb (eqb t []))
           (List.map (fun u => strip (Utterance.text u)) segments)
    /\ Forall (fun e => snd (fst e) <> [] /\ spoken (snd e)) more
    /\ (Forall (fun u => spoken (Utterance.text u)) segments ->
        more = List.map
                 (fun p =>
                    ((line_no + Z.of_nat (fst p))%Z,
                     match Utterance.speaker (snd p) with
                     | [] => lit "D"
                     | speaker => speaker
                     end,
                     strip (Utterance.text (snd p))))
                 (combine (seq 0 (length segments)) segments)).
Proof.
  revert entries line_no.
  induction segments as [|u rest IH]; intros entries line_no.
  - exists []. cbn. rewrite app_nil_r, Z.add_0_r. repeat split; constructor.
  - cbn [fold_left line_entries_step].
    destruct (strip (Utterance.text u)) as [|c t] eqn:Et.
    + destruct (IH entries line_no) as (more & Hf & Hn & Ht & Hs & Hall).
      exists more. split; [exact Hf|]. split; [exact Hn|]. split.
      * cbn [List.map List.filter]. rewrite Et. cbn. exact Ht.
      * split; [exact Hs|]. intros Hsp. exfalso.
        apply Forall_inv in Hsp. apply spoken_strip, spoken_not_nil in Hsp.
        contradiction.
    + destruct (IH (entries ++ [(line_no,
                                 match Utterance.speaker u with
                                 | [] => lit "D"
                                 | speaker => speaker
                                 end, c :: t)]) (line_no + 1)%Z)
        as (more & Hf & Hn & Ht & Hs & Hall).
      exists ((line_no, match Utterance.speaker u with
                        | [] => lit "D"
                        | speaker => speaker
                        end, c :: t) :: more).
      split; [|split; [|split; [|split]]].
      * rewrite Hf, <- app_assoc. cbn [app length]. f_equal. lia.
      * cbn [List.map length seq fst]. rewrite Z.add_0_r. f_equal.
        rewrite Hn, <- seq_shift, List.map_map. apply List.map_ext.
        intros k. lia.
      * cbn [List.map List.filter snd]. rewrite Et. cbn. f_equal. exact Ht.
      * constructor; [|exact Hs]. cbn [fst snd]. split.
        -- destruct (Utterance.speaker u); [vm_compute|]; discriminate.
        -- rewrite <- Et. apply strip_spoken. rewrite Et. discriminate.
      * intros Hsp. cbn [length seq combine List.map fst snd].
        rewrite Z.add_0_r, Et. f_equal.
        rewrite (Hall (Forall_inv_tail Hsp)), combine_seq_shift.
        apply List.map_ext. intros [k v]. cbn [fst snd]. f_equal. f_equal. lia.
Qed.

Lemma combine_seq_lookup {A : Type} (l : list A) (base i : nat) (a : A) :
  l !! i = Some a ->
  combine (seq base (length l)) l !! i = Some ((base + i)%nat, a).
Proof.
  revert base i. induction l as [|v rest IH]; intros base [|i] Hi;
    try discriminate; cbn [length seq combine].
  - inversion Hi. rewrite Nat.add_0_r. reflexivity.
  - change (combine (seq (S base) (length rest)) rest !! i
            = Some ((base + S i)%nat, a)).
    rewrite (IH (S base) i Hi). f_equal. f_equal. lia.
Qed.

(** X29: the lines of an export are numbered 1, 2, 3, ... without gaps;
    they are the texts of the transcript that are not blank, stripped and
    in order, each with a speaker; without blank texts, line [i + 1] is
    utterance [i]. *)
Theorem _line_entries_numbered (segments : list Utterance.t) :
  let entries := _line_entries segments in
  List.map (fun e => fst (fst e)) entries
  = List.map (fun k => Z.of_nat (S k)) (seq 0 (length entries))
  /\ List.map snd entries
     = List.filter (fun t => negb (eqb t []))
         (List.map (fun u => strip (Utterance.text u)) segments)
  /\ Forall (fun e => snd (fst e) <> [] /\ spoken (snd e)) entries
  /\ (Forall (fun u => spoken (Utterance.text u)) segments ->
      length entries = length segments
      /\ forall (i : nat) (u : Utterance.t),
           segments !! i = Some u ->
           entries !! i
           = Some (Z.of_nat (S i),
                   match Utterance.speaker u with
                   | [] => lit "D"
                   | speaker => speaker
                   end,
                   strip (Utterance.text u))).
Proof.
  cbn zeta. unfold _line_entries.
  destruct (line_entries_fold segments [] 1) as (more & Hf & Hn & Ht & Hs & Hall).
  rewrite Hf. cbn [fst app]. split; [|split; [|split]].
  - rewrite Hn. apply List.map_ext. intros k. lia.
  - exact Ht.
  - exact Hs.
  - intros Hsp. rewrite (Hall Hsp). split.
    + rewrite List.length_map, List.length_combine, List.length_seq. lia.
    + intros i u Hu. rewrite list_lookup_fmap.
      rewrite (combine_seq_lookup segments 0 i u Hu).
      cbn [fmap option_fmap option_map fst snd Nat.add].
      f_equal. f_equal. f_equal. lia.
Qed.

End LineNumbers.

(* ===================================================================== *)
(** * The update of a transcript from the editor *)
(* ===================================================================== *)

Section UpdateTranscript.
Import Py Str Commands.
Variable now_iso : list N.




End UpdateTranscript.
